(** * OpenAPI documentation tooling: the deprecation filter and the schema renderer

    A shallow embedding of [scripts/strip-deprecated.js] and
    [scripts/schema-to-mintlify.js], and the properties their specification
    states about them.

    Modelling conventions.
    - A document tree is what [yaml.parse] hands to the scripts: [null],
      booleans, numbers, strings, sequences and mappings.  The scripts do no
      arithmetic; numbers are only tested for truthiness and printed, and the
      embedding carries the integers ([Z]) that JavaScript holds exactly and
      prints digit by digit, those of magnitude below [2^53].
    - A string is its UTF-8 text, one [ascii] per byte.
    - A mapping lists its own properties in the order [Object.keys] returns
      them, which is the order of [own_properties] for the pairs that the
      document declares.  A JavaScript object has no two properties of the
      same name; that invariant is part of [wf].  [wf] also leaves out the
      key [__proto__], on which [result[key] = ...] sets a prototype.
    - Reading a property that is missing yields [undefined]; the embedding
      uses [option tree] with [None] for [undefined].
    - Property reads see document content only: the entries of a mapping and
      the elements of a sequence.  Members that JavaScript synthesises or
      inherits from the built-in prototypes ([length], the characters of a
      string, methods) are not document content and read as [undefined].
      Methods that the scripts call on a sequence or a string ([map],
      [slice], [join], [split], ...) are functions on lists and strings here.
      The other names that the scripts read are fixed names that no built-in
      has, with two exceptions where the name comes from data.  The schema
      name that [schemaToMintlify] looks up is read with the members that a
      mapping inherits ([named_member]); the statements about it are made
      for schemas held in a mapping ([schemas_of_a_mapping]).  The segments
      of a reference, which [resolveRef] follows, are read as content; the
      statements about references that are followed are made for segments
      that name content ([names_content], [regular]).
    - Printing ([ToString]) gives [[object Object]] for a mapping.  In
      JavaScript a mapping with a key [toString] does not print but throws;
      the statements that say that the Renderer returns are made for trees
      without such a key ([printable]).
    - An exception ([TypeError], a failed write) is the outcome [Throw]; a
      function whose recursion follows references takes fuel and reports
      [OutOfFuel] when it runs out.
    - The file system is a parameter of the run of the Renderer
      ([file_system]): it decides which calls of [fs] succeed. *)

From Stdlib Require Import ZArith String Ascii List Bool Lia DecimalString.
From stdpp Require Import base list gmap strings.
Import ListNotations.
Open Scope string_scope.
Open Scope list_scope.

(* ================================================================== *)
(** * Document trees *)
(* ================================================================== *)

Unset Elimination Schemes.
Inductive tree : Type :=
| VNull
| VBool (b : bool)
| VNum (n : Z)
| VStr (s : string)
| VArr (elems : list tree)
| VObj (props : list (string * tree)).
Set Elimination Schemes.

(** Induction over a tree, with the hypothesis for every element of a
    sequence and every property of a mapping. *)
Section tree_induction.
Variable P : tree -> Prop.
Hypothesis Hnull : P VNull.
Hypothesis Hbool : forall b, P (VBool b).
Hypothesis Hnum : forall n, P (VNum n).
Hypothesis Hstr : forall s, P (VStr s).
Hypothesis Harr : forall elems, Forall P elems -> P (VArr elems).
Hypothesis Hobj : forall props, Forall (fun kv => P (snd kv)) props -> P (VObj props).

Fixpoint tree_ind (v : tree) : P v :=
  match v with
  | VNull => Hnull
  | VBool b => Hbool b
  | VNum n => Hnum n
  | VStr s => Hstr s
  | VArr elems =>
      Harr elems
        ((fix all (l : list tree) : Forall P l :=
            match l with
            | [] => List.Forall_nil P
            | x :: l' => List.Forall_cons P x l' (tree_ind x) (all l')
            end) elems)
  | VObj props =>
      Hobj props
        ((fix all (l : list (string * tree)) : Forall (fun kv => P (snd kv)) l :=
            match l with
            | [] => List.Forall_nil _
            | kv :: l' => List.Forall_cons _ kv l' (tree_ind (snd kv)) (all l')
            end) props)
  end.
End tree_induction.

(** Outcome of a computation that may throw or exhaust its fuel. *)
Inductive outcome (A : Type) : Type :=
| Ok (a : A)
| Throw
| OutOfFuel.
Arguments Ok {A} a.
Arguments Throw {A}.
Arguments OutOfFuel {A}.

Definition bind {A B : Type} (m : outcome A) (f : A -> outcome B) : outcome B :=
  match m with
  | Ok a => f a
  | Throw => Throw
  | OutOfFuel => OutOfFuel
  end.

Notation "'let*' x ':=' m 'in' k" := (bind m (fun x => k))
  (at level 10, x name, m at level 100, k at level 200).

Fixpoint map_outcome {A B : Type} (f : A -> outcome B) (l : list A) : outcome (list B) :=
  match l with
  | [] => Ok []
  | x :: l' => let* y := f x in let* ys := map_outcome f l' in Ok (y :: ys)
  end.

(* ------------------------------------------------------------------ *)
(** ** JavaScript primitives on document trees *)
(* ------------------------------------------------------------------ *)

(** [ToBoolean]. *)
Definition truthy (v : tree) : bool :=
  match v with
  | VNull => false
  | VBool b => b
  | VNum n => negb (n =? 0)%Z
  | VStr s => negb (s =? EmptyString)
  | VArr _ | VObj _ => true
  end.

(** Truthiness of what may be [undefined]. *)
Definition otruthy (o : option tree) : bool :=
  match o with
  | Some v => truthy v
  | None => false
  end.

(** [typeof v === 'object'] together with [v !== null]. *)
Definition is_object (v : tree) : bool :=
  match v with
  | VArr _ | VObj _ => true
  | _ => false
  end.

Definition is_mapping (v : tree) : bool :=
  match v with
  | VObj _ => true
  | _ => false
  end.

(** First property of that name. *)
Fixpoint assoc (k : string) (props : list (string * tree)) : option tree :=
  match props with
  | [] => None
  | (k', v) :: rest => if k =? k' then Some v else assoc k rest
  end.

(** The property name of a sequence index, and back: only the canonical
    decimal spelling of an index names an element. *)
Definition key_of_index (i : nat) : string :=
  NilZero.string_of_uint (Nat.to_uint i).

Definition index_of_key (k : string) : option nat :=
  match NilZero.uint_of_string k with
  | Some u =>
      let i := Nat.of_uint u in
      if key_of_index i =? k then Some i else None
  | None => None
  end.

(** [v[k]] and [v.k] where [v] is neither [null] nor [undefined]. *)
Definition get (v : tree) (k : string) : option tree :=
  match v with
  | VObj props => assoc k props
  | VArr elems =>
      match index_of_key k with
      | Some i => nth_error elems i
      | None => None
      end
  | _ => None
  end.

(** [o?.k]. *)
Definition oget (o : option tree) (k : string) : option tree :=
  match o with
  | Some VNull | None => None
  | Some v => get v k
  end.

Fixpoint indexed_from (i : nat) (elems : list tree) : list (string * tree) :=
  match elems with
  | [] => []
  | v :: rest => (key_of_index i, v) :: indexed_from (S i) rest
  end.

(** [Object.entries] of a mapping or a sequence. *)
Definition entries (v : tree) : list (string * tree) :=
  match v with
  | VObj props => props
  | VArr elems => indexed_from 0 elems
  | _ => []
  end.

(** [(k in props)] then [delete props.k]. *)
Definition remove_key (k : string) (props : list (string * tree)) : list (string * tree) :=
  List.filter (fun kv => negb (fst kv =? k)) props.

(** [props[k] = v]: an existing property keeps its place, a new one goes last. *)
Fixpoint set_key (k : string) (v : tree) (props : list (string * tree))
  : list (string * tree) :=
  match props with
  | [] => [(k, v)]
  | (k', v') :: rest =>
      if k =? k' then (k, v) :: rest else (k', v') :: set_key k v rest
  end.

Fixpoint distinct (ks : list string) : bool :=
  match ks with
  | [] => true
  | k :: rest => negb (existsb (String.eqb k) rest) && distinct rest
  end.

(** The documents that the embedding covers: no two properties of a mapping
    share a name, and no property is named [__proto__], anywhere in the tree.
    The first is an invariant of JavaScript objects.  The second is a
    restriction: [result[key] = ...] with that name sets the prototype of
    [result] and stores no property. *)
Fixpoint wfb (v : tree) : bool :=
  match v with
  | VArr elems => forallb wfb elems
  | VObj props =>
      distinct (map fst props)
      && negb (existsb (String.eqb "__proto__") (map fst props))
      && forallb (fun kv => wfb (snd kv)) props
  | _ => true
  end.

Definition wf (v : tree) : Prop := wfb v = true.

(** [o === 'text'] and [o === true]. *)
Definition is_string (o : option tree) (text : string) : bool :=
  match o with
  | Some (VStr s) => s =? text
  | _ => false
  end.

Definition is_true (o : option tree) : bool :=
  match o with
  | Some (VBool true) => true
  | _ => false
  end.

(** [target.k = x] for a name [k] that is not a sequence index.  On a
    sequence the new member is no element, so the document does not change;
    on a primitive the assignment is ignored (the scripts run in sloppy
    mode). *)
Definition put (target : tree) (k : string) (x : tree) : tree :=
  match target with
  | VObj props => VObj (set_key k x props)
  | _ => target
  end.

(** The members that every mapping inherits from [Object.prototype]. *)
Definition OBJECT_PROTOTYPE_MEMBERS : list string :=
  ["constructor"; "hasOwnProperty"; "isPrototypeOf"; "propertyIsEnumerable";
   "toLocaleString"; "toString"; "valueOf"; "__proto__";
   "__defineGetter__"; "__defineSetter__"; "__lookupGetter__"; "__lookupSetter__"].

Definition inherited (name : string) : bool :=
  existsb (String.eqb name) OBJECT_PROTOTYPE_MEMBERS.

(** [o?.[name]] for a name that comes from data and an [o] that is a
    mapping, [null] or [undefined]: a property of [o], or a member that the
    mapping [o] inherits.  An inherited member is a built-in function or
    object; it is truthy and has none of the names that the scripts read, as
    the empty mapping, which stands for it.  (Of a sequence or a scalar only
    the content is read: their built-in members are not in the embedding.) *)
Definition named_member (o : option tree) (name : string) : option tree :=
  match oget o name with
  | Some v => Some v
  | None =>
      match o with
      | Some (VObj _) => if inherited name then Some (VObj []) else None
      | _ => None
      end
  end.

(* ------------------------------------------------------------------ *)
(** ** The two regular expressions *)
(* ------------------------------------------------------------------ *)

(** A line terminator starts here: LF, CR, U+2028 or U+2029 (the last two
    in UTF-8). *)
Definition line_terminator_at (s : string) : bool :=
  match s with
  | String c rest =>
      Ascii.eqb c "010"%char || Ascii.eqb c "013"%char ||
      (Ascii.eqb c "226"%char &&
       match rest with
       | String c1 (String c2 _) =>
           Ascii.eqb c1 "128"%char &&
           (Ascii.eqb c2 "168"%char || Ascii.eqb c2 "169"%char)
       | _ => false
       end)
  | EmptyString => false
  end.

(** The text a greedy [.*] takes from the front of [s]: everything up to the
    first line terminator. *)
Fixpoint dot_star (s : string) : string :=
  match s with
  | EmptyString => EmptyString
  | String c rest =>
      if line_terminator_at s then EmptyString else String c (dot_star rest)
  end.

Fixpoint strip_prefix (p s : string) : option string :=
  match p, s with
  | EmptyString, _ => Some s
  | String a p', String b s' => if Ascii.eqb a b then strip_prefix p' s' else None
  | String _ _, EmptyString => None
  end.

Definition SCHEMAS_POINTER : string := "#/components/schemas/".

(** Group 1 of [/^#\/components\/schemas\/(.+)$/]: after the prefix, [.+]
    must take at least one character and reach the end of the input. *)
Definition match_anchored (ref : string) : option string :=
  match strip_prefix SCHEMAS_POINTER ref with
  | Some rest =>
      if negb (rest =? EmptyString) && (dot_star rest =? rest) then Some rest else None
  | None => None
  end.

(** Group 1 of [/#\/components\/schemas\/(.+)/]: the leftmost position where
    the prefix is followed by at least one character that [.] accepts; the
    group is the greedy run from there. *)
Fixpoint match_anywhere (ref : string) : option string :=
  let here :=
    match strip_prefix SCHEMAS_POINTER ref with
    | Some rest => if dot_star rest =? EmptyString then None else Some (dot_star rest)
    | None => None
    end in
  match here with
  | Some name => Some name
  | None =>
      match ref with
      | EmptyString => None
      | String _ ref' => match_anywhere ref'
      end
  end.

(* ================================================================== *)
(** * scripts/strip-deprecated.js *)
(* ================================================================== *)

Module StripDeprecated.

(** Returns schema name for #/components/schemas/Name or null. *)
Definition getSchemaNameFromRef (ref : option tree) : option string :=
  match ref with
  | Some (VStr s) => if s =? EmptyString then None else match_anchored s
  | _ => None
  end.

Definition has_name (names : gset string) (name : option string) : bool :=
  match name with
  | Some n => bool_decide (n ∈ names)
  | None => false
  end.

(** Returns true if the value is a ref (or array of ref) to a deprecated schema. *)
Definition isRefToDeprecatedSchema (val : tree) (deprecatedSchemaNames : gset string) : bool :=
  if negb (truthy val) || negb (is_mapping val)
     || bool_decide (size deprecatedSchemaNames = 0)
  then false
  else
    let directRef := getSchemaNameFromRef (get val "$ref") in
    if has_name deprecatedSchemaNames directRef then true
    else
      let items := get val "items" in
      if is_string (get val "type") "array" && otruthy items
         && match items with Some i => is_object i | None => false end
         && otruthy (oget items "$ref")
      then has_name deprecatedSchemaNames (getSchemaNameFromRef (oget items "$ref"))
      else false.

(** Build set of schema names that are deprecated (in components.schemas). *)
Definition buildDeprecatedSchemaNames (spec : tree) : gset string :=
  match oget (oget (Some spec) "components") "schemas" with
  | Some schemas =>
      if negb (truthy schemas) || negb (is_object schemas) then ∅
      else
        fold_left
          (fun (names : gset string) (entry : string * tree) =>
             let (name, schema) := entry in
             if truthy schema && is_object schema && is_true (get schema "deprecated")
             then {[name]} ∪ names
             else names)
          (entries schemas) ∅
  | None => ∅
  end.

(** [val && typeof val === 'object' && !Array.isArray(val) && val.deprecated === true] *)
Definition marked_deprecated (val : tree) : bool :=
  truthy val && is_object val && is_mapping val && is_true (get val "deprecated").

(** [if (r && typeof r === 'object' && 'deprecated' in r) delete r.deprecated],
    on the freshly built [r]; a sequence has no member of that name. *)
Definition delete_deprecated (r : tree) : tree :=
  match r with
  | VObj props => VObj (remove_key "deprecated" props)
  | _ => r
  end.

(** The [result] mapping starts empty and receives the kept keys in the
    order of [Object.keys(value)]; since those are distinct, each
    [result[key] = ...] adds a property at the end. *)
Fixpoint stripDeprecated (value : tree) (deprecatedSchemaNames : gset string) : tree :=
  match value with
  | VArr elems => VArr (map (fun v => stripDeprecated v deprecatedSchemaNames) elems)
  | VObj props =>
      VObj
        ((fix loop (todo : list (string * tree)) : list (string * tree) :=
            match todo with
            | [] => []
            | (key, val) :: todo' =>
                if marked_deprecated val then loop todo'
                else if isRefToDeprecatedSchema val deprecatedSchemaNames then loop todo'
                else
                  (key, delete_deprecated (stripDeprecated val deprecatedSchemaNames))
                    :: loop todo'
            end) props)
  | _ => value
  end.

Definition OPERATION_METHODS : list string :=
  ["get"; "put"; "post"; "delete"; "options"; "head"; "patch"; "trace"].

(** [md.mode = 'wide'] for the truthy [md] that [op['x-mint'].metadata] is. *)
Definition set_mode (md : tree) : tree := put md "mode" (VStr "wide").

(** The last two statements of the loop body, for the truthy [xm] that
    [op['x-mint']] is:
    [if (!xm.metadata) xm.metadata = {}; xm.metadata.mode = 'wide'].
    A sequence keeps both members outside its elements.  A truthy primitive
    ignores the first assignment, so that [xm.metadata] stays [undefined] and
    the second assignment throws. *)
Definition ensure_metadata (xm : tree) : outcome tree :=
  match xm with
  | VObj props =>
      let md :=
        match assoc "metadata" props with
        | Some md => if truthy md then md else VObj []
        | None => VObj []
        end in
      Ok (VObj (set_key "metadata" (set_mode md) props))
  | VArr _ => Ok xm
  | _ => Throw
  end.

(** The three assignments of the loop body, for an [op] that passed
    [op && typeof op === 'object']. *)
Definition wide_operation (op : tree) : outcome tree :=
  match op with
  | VObj props =>
      let xm :=
        match assoc "x-mint" props with
        | Some xm => if truthy xm then xm else VObj []
        | None => VObj []
        end in
      let* xm' := ensure_metadata xm in
      Ok (VObj (set_key "x-mint" xm' props))
  | _ => Ok op
  end.

(** The inner loop, over [Object.keys(pathItem)]. *)
Definition wide_entry (entry : string * tree) : outcome (string * tree) :=
  let (key, op) := entry in
  if negb (existsb (String.eqb key) OPERATION_METHODS) then Ok entry
  else if negb (truthy op) || negb (is_object op) then Ok entry
  else let* op' := wide_operation op in Ok (key, op').

(** One round of the outer loop.  The keys of a sequence are its indices,
    none of which is an operation method. *)
Definition wide_path_item (pathItem : tree) : outcome tree :=
  if negb (truthy pathItem) || negb (is_object pathItem) then Ok pathItem
  else
    match pathItem with
    | VObj props => let* props' := map_outcome wide_entry props in Ok (VObj props')
    | _ => Ok pathItem
    end.

(** One round of the outer loop for a path item held under a key of
    [spec.paths]. *)
Definition wide_path_property (kv : string * tree) : outcome (string * tree) :=
  let* item' := wide_path_item (snd kv) in Ok (fst kv, item').

(** [ensureWideMode] mutates [spec] in place; the embedding returns the
    mutated tree.  [main] calls it on what [stripDeprecated] built, in which
    every object is new and held at one place only, so that a tree describes
    it.  [spec.paths] on [null] throws. *)
Definition ensureWideMode (spec : tree) : outcome tree :=
  match spec with
  | VNull => Throw
  | _ =>
      match get spec "paths" with
      | Some paths =>
          if negb (truthy paths) || negb (is_object paths) then Ok spec
          else
            match paths with
            | VObj items =>
                let* items' := map_outcome wide_path_property items in
                Ok (put spec "paths" (VObj items'))
            | VArr items =>
                let* items' := map_outcome wide_path_item items in
                Ok (put spec "paths" (VArr items'))
            | _ => Ok spec
            end
      | None => Ok spec
      end
  end.

(** [main] between [yaml.parse] and [yaml.stringify]: the document that is
    written, or the exception that ends the run before anything is written.
    This is the Filter of the specification. *)
Definition main (spec : tree) : outcome tree :=
  let deprecatedSchemaNames := buildDeprecatedSchemaNames spec in
  let stripped := stripDeprecated spec deprecatedSchemaNames in
  ensureWideMode stripped.

End StripDeprecated.

(* ================================================================== *)
(** * Text *)
(* ================================================================== *)

Definition QUOTE : string := String "034"%char EmptyString.
Definition NEWLINE : string := String "010"%char EmptyString.

(** [parts.join(sep)] on strings. *)
Definition join (sep : string) (parts : list string) : string :=
  String.concat sep parts.

(** [text.split(sep)] for a separator of one character. *)
Fixpoint split (sep : ascii) (text : string) : list string :=
  match text with
  | EmptyString => [EmptyString]
  | String c rest =>
      if Ascii.eqb c sep then EmptyString :: split sep rest
      else
        match split sep rest with
        | first :: others => String c first :: others
        | [] => [String c EmptyString]
        end
  end.

(** [Number.prototype.toString] on an integer of magnitude below [2^53]. *)
Definition number_text (n : Z) : string := NilZero.string_of_int (Z.to_int n).

(** [ToString]: what a template literal, [String(v)] and [join] print. *)
Fixpoint ToString (v : tree) : string :=
  match v with
  | VNull => "null"
  | VBool true => "true"
  | VBool false => "false"
  | VNum n => number_text n
  | VStr s => s
  | VArr elems =>
      join ","
        (map (fun e => match e with VNull => EmptyString | _ => ToString e end) elems)
  | VObj _ => "[object Object]"
  end.

(** [elems.join(sep)]: [null] prints as the empty string. *)
Definition array_join (sep : string) (elems : list tree) : string :=
  join sep (map (fun e => match e with VNull => EmptyString | _ => ToString e end) elems).

Definition hex_digit (n : nat) : string :=
  String.substring n 1 "0123456789abcdef".

(** One character inside a JSON string. *)
Definition json_escape (c : ascii) : string :=
  let b := nat_of_ascii c in
  if Nat.eqb b 34 then "\" +:+ QUOTE
  else if Nat.eqb b 92 then "\\"
  else if Nat.eqb b 8 then "\b"
  else if Nat.eqb b 12 then "\f"
  else if Nat.eqb b 10 then "\n"
  else if Nat.eqb b 13 then "\r"
  else if Nat.eqb b 9 then "\t"
  else if Nat.ltb b 32 then "\u00" +:+ hex_digit (b / 16) +:+ hex_digit (b mod 16)
  else String c EmptyString.

Fixpoint json_escape_all (s : string) : string :=
  match s with
  | EmptyString => EmptyString
  | String c rest => json_escape c +:+ json_escape_all rest
  end.

Definition json_quote (s : string) : string := QUOTE +:+ json_escape_all s +:+ QUOTE.

(** [JSON.stringify] on a document tree. *)
Fixpoint JSON_stringify (v : tree) : string :=
  match v with
  | VNull => "null"
  | VBool true => "true"
  | VBool false => "false"
  | VNum n => number_text n
  | VStr s => json_quote s
  | VArr elems => "[" +:+ join "," (map JSON_stringify elems) +:+ "]"
  | VObj props =>
      "{" +:+
      join ","
        (map (fun kv => json_quote (fst kv) +:+ ":" +:+ JSON_stringify (snd kv)) props)
      +:+ "}"
  end.

(** [`${JSON.stringify(d)}`]: [JSON.stringify(undefined)] is [undefined]. *)
Definition stringify_text (d : option tree) : string :=
  match d with
  | Some v => JSON_stringify v
  | None => "undefined"
  end.

(** The number of bytes of the white-space character ([\s]) that [s] starts
    with, [0] when it starts with none: TAB, LF, VT, FF, CR, SP, U+00A0,
    U+1680, U+2000 to U+200A, U+2028, U+2029, U+202F, U+205F, U+3000,
    U+FEFF. *)
Definition whitespace_at (s : string) : nat :=
  match s with
  | String c rest =>
      let b := nat_of_ascii c in
      if (Nat.leb 9 b && Nat.leb b 13) || (Nat.eqb b 32) then 1
      else
        match rest with
        | String c1 rest1 =>
            let b1 := nat_of_ascii c1 in
            if (Nat.eqb b 194) && (Nat.eqb b1 160) then 2
            else
              match rest1 with
              | String c2 _ =>
                  let b2 := nat_of_ascii c2 in
                  if (Nat.eqb b 225) && (Nat.eqb b1 154) && (Nat.eqb b2 128) then 3
                  else if (Nat.eqb b 226) && (Nat.eqb b1 128) &&
                          ((Nat.leb 128 b2 && Nat.leb b2 138)
                           || (Nat.eqb b2 168) || (Nat.eqb b2 169) || (Nat.eqb b2 175)) then 3
                  else if (Nat.eqb b 226) && (Nat.eqb b1 129) && (Nat.eqb b2 159) then 3
                  else if (Nat.eqb b 227) && (Nat.eqb b1 128) && (Nat.eqb b2 128) then 3
                  else if (Nat.eqb b 239) && (Nat.eqb b1 187) && (Nat.eqb b2 191) then 3
                  else 0
              | EmptyString => 0
              end
        | EmptyString => 0
        end
  | EmptyString => 0
  end.

(** [text.replace(/\s+/g, ' ')]: [in_run] says that the run of white space
    being read has already produced its space, [skip] counts the bytes left
    of the white-space character being read. *)
Fixpoint collapse_whitespace (in_run : bool) (skip : nat) (s : string) : string :=
  match s with
  | EmptyString => EmptyString
  | String c rest =>
      match skip with
      | S skip' => collapse_whitespace in_run skip' rest
      | O =>
          match whitespace_at s with
          | O => String c (collapse_whitespace false 0 rest)
          | S more =>
              if in_run then collapse_whitespace true more rest
              else String " "%char (collapse_whitespace true more rest)
          end
      end
  end.

(** [trim] after that replacement, when a space is the only white space left. *)
Fixpoint trim_left (s : string) : string :=
  match s with
  | String c rest => if Ascii.eqb c " "%char then trim_left rest else s
  | EmptyString => EmptyString
  end.

Fixpoint trim_right (s : string) : string :=
  match s with
  | EmptyString => EmptyString
  | String c rest =>
      match trim_right rest with
      | EmptyString => if Ascii.eqb c " "%char then EmptyString else String c EmptyString
      | kept => String c kept
      end
  end.

Definition normalize_text (s : string) : string :=
  trim_right (trim_left (collapse_whitespace false 0 s)).

(** The code points of a string, each as a string: a byte [10xxxxxx]
    continues the code point before it. *)
Fixpoint code_points (s : string) : list string :=
  match s with
  | EmptyString => []
  | String c rest =>
      match code_points rest with
      | String d tail :: others =>
          if Nat.leb 128 (nat_of_ascii d) && Nat.ltb (nat_of_ascii d) 192
          then String c (String d tail) :: others
          else String c EmptyString :: String d tail :: others
      | others => String c EmptyString :: others
      end
  end.

(* ================================================================== *)
(** * scripts/schema-to-mintlify.js *)
(* ================================================================== *)

Module SchemaToMintlify.

Definition SCHEMAS_TO_CONVERT : list string :=
  ["employee"; "periods"; "shift"; "demand";
   "employeeAvailabilityConstraint"; "employeeUtilizationConstraint";
   "cooldownConstraint"; "consecutiveConstraint"; "patternConstraint";
   "periodicRestConstraint"; "periodDistributionConstraint"].

(** [v?.k] for a [v] that is defined. *)
Definition qget (v : tree) (k : string) : option tree := oget (Some v) k.

(** [a || b] and [a ?? b]. *)
Definition or_else (a b : option tree) : option tree :=
  if otruthy a then a else b.

Definition coalesce (a b : option tree) : option tree :=
  match a with
  | Some VNull | None => b
  | Some _ => a
  end.

(** The loop of [resolveRef]. *)
Fixpoint walk (current : tree) (parts : list string) : tree :=
  match parts with
  | [] => current
  | p :: parts' =>
      match qget current p with
      | Some next => walk next parts'
      | None => VNull
      end
  end.

Definition resolveRef (spec : tree) (ref : option tree) : tree :=
  match ref with
  | Some (VStr r) =>
      match strip_prefix "#/" r with
      | Some path => walk spec (split "/"%char path)
      | None => VNull
      end
  | _ => VNull
  end.

Definition getRefName (ref : option tree) : option string :=
  match ref with
  | Some (VStr s) => if s =? EmptyString then None else match_anywhere s
  | _ => None
  end.

(** [{ ...resolved, __refName: name }] for a truthy [resolved].  The spread
    of a string puts its characters under index names, which nothing reads;
    they are left out. *)
Definition with_refName (resolved : tree) (name : option string) : tree :=
  VObj
    (set_key "__refName"
       (match name with Some n => VStr n | None => VNull end)
       (entries resolved)).

(** Returns the schema after resolving $ref if present. *)
Definition resolveSchema (spec schema : tree) : tree :=
  if negb (truthy schema) then VNull
  else if otruthy (get schema "$ref") then
    let resolved := resolveRef spec (get schema "$ref") in
    if truthy resolved
    then with_refName resolved (getRefName (get schema "$ref"))
    else schema
  else schema.

(** [Array.isArray(schema.type) ? schema.type.filter((t) => t !== "null")[0] : schema.type] *)
Definition rawType_of (schema : tree) : option tree :=
  match get schema "type" with
  | Some (VArr types) =>
      head (List.filter (fun t => negb (is_string (Some t) "null")) types)
  | other => other
  end.

Definition format_suffix (format : option tree) : string :=
  match format with
  | Some f => if truthy f then " (" +:+ ToString f +:+ ")" else EmptyString
  | None => EmptyString
  end.

(** The branch [if (schema.enum)]: [slice] and [join] exist on a sequence only. *)
Definition enum_type_string (enum : tree) : outcome tree :=
  match enum with
  | VArr values =>
      let enumStr := array_join " | " (firstn 5 values) in
      let more := if Nat.ltb 5 (length values) then " | ..." else EmptyString in
      Ok (VStr ("string (enum: " +:+ enumStr +:+ more +:+ ")"))
  | _ => Throw
  end.

(** The branch [if (rawType === "array")]. *)
Definition array_type_string (spec schema : tree) : tree :=
  let items :=
    match get schema "items" with
    | Some i => if truthy i then i else VObj []
    | None => VObj []
    end in
  let itemRef :=
    if otruthy (get items "$ref") then getRefName (get items "$ref") else None in
  let itemResolved :=
    if otruthy (get items "$ref") then resolveRef spec (get items "$ref") else items in
  let isItemObject :=
    is_string (qget itemResolved "type") "object"
    && otruthy (qget itemResolved "properties") in
  if isItemObject then VStr "array of object"
  else
    let itemType :=
      match itemRef with
      | Some name => name
      | None =>
          match qget itemResolved "type" with
          | Some (VStr t) => t
          | _ => "object"
          end
      end in
    VStr ("array of " +:+ itemType +:+ format_suffix (qget itemResolved "format")).

(** [getTypeString] below the [enum] branch. *)
Definition plain_type_string (spec schema : tree) (refName : option tree) : tree :=
  let rawType := rawType_of schema in
  if is_string rawType "array" then array_type_string spec schema
  else if is_string rawType "object" then VStr "object"
  else if is_string rawType "string" || is_string rawType "integer"
          || is_string rawType "number" || is_string rawType "boolean"
  then
    VStr (match rawType with Some t => ToString t | None => EmptyString end
          +:+ format_suffix (get schema "format"))
  else
    let fallback :=
      match rawType with
      | Some t => if truthy t then t else VStr "unknown"
      | None => VStr "unknown"
      end in
    match refName with
    | Some r => if truthy r then r else fallback
    | None => fallback
    end.

(** Get display type string for a schema (no $ref, already resolved or inline). *)
Definition getTypeString (spec schema : tree) (refName : option tree) : outcome tree :=
  if negb (truthy schema) then Ok (VStr "unknown")
  else
    match get schema "enum" with
    | Some enum =>
        if truthy enum then enum_type_string enum
        else Ok (plain_type_string spec schema refName)
    | None => Ok (plain_type_string spec schema refName)
    end.

(** Normalize description to a single line for use inside tags. *)
Definition normalizeDescription (desc : option tree) : string :=
  match desc with
  | Some VNull | None => EmptyString
  | Some v => normalize_text (ToString v)
  end.

(** Build type attribute for ResponseField (always show type). *)
Definition typeAttr (typeStr : tree) : string :=
  if truthy typeStr then " type=" +:+ QUOTE +:+ ToString typeStr +:+ QUOTE
  else EmptyString.

(** Build required attribute for ResponseField when true. *)
Definition requiredAttr (required : bool) : string :=
  if required then " required" else EmptyString.

Definition INDENT : string := "  ".

(** [new Set(resolved.required || [])]: the elements of a sequence, the code
    points of a string; any other truthy value is not iterable. *)
Definition required_set (required : option tree) : outcome (list tree) :=
  match required with
  | Some r =>
      if truthy r then
        match r with
        | VArr elems => Ok elems
        | VStr s => Ok (map VStr (code_points s))
        | _ => Throw
        end
      else Ok []
  | None => Ok []
  end.

(** [required.has(propName)] *)
Definition set_has (elems : list tree) (propName : string) : bool :=
  existsb (fun e => is_string (Some e) propName) elems.

(** The three lines every property gets. *)
Definition field_open (indent propName : string) (typeStr : tree) (isRequired : bool) : string :=
  indent +:+ "<ResponseField name=" +:+ QUOTE +:+ propName +:+ QUOTE
  +:+ typeAttr typeStr +:+ requiredAttr isRequired +:+ ">".

Definition field_close (indent : string) : string := indent +:+ "</ResponseField>".

Definition expandable_open (indent title : string) : string :=
  indent +:+ "<Expandable title=" +:+ QUOTE +:+ title +:+ QUOTE +:+ ">".

Definition expandable_close (indent : string) : string := indent +:+ "</Expandable>".

Definition or_null (o : option tree) : tree :=
  match o with
  | Some v => v
  | None => VNull
  end.

(** The description of a property, with its default appended. *)
Definition property_description (propResolved propSchema : tree) : string :=
  let propDesc :=
    normalizeDescription
      (or_else (qget propResolved "description") (qget propSchema "description")) in
  let hasDefault :=
    match qget propResolved "default", qget propSchema "default" with
    | None, None => false
    | _, _ => true
    end in
  let d := coalesce (qget propResolved "default") (qget propSchema "default") in
  if negb (propDesc =? EmptyString) && hasDefault
  then propDesc +:+ " Default: " +:+ stringify_text d +:+ "."
  else if (propDesc =? EmptyString) && hasDefault
  then "Default: " +:+ stringify_text d +:+ "."
  else propDesc.

(** The body of the loop over [Object.entries(props)]: the lines pushed for
    one property.  [recur] is the recursive call of
    [schemaToExpandableContent] on the same [spec]. *)
Definition property_lines
    (recur : tree -> string -> string -> outcome string)
    (spec : tree) (required : list tree) (indent : string)
    (entry : string * tree) : outcome (list string) :=
  let (propName, propSchema) := entry in
  let propResolved := resolveSchema spec propSchema in
  let propDesc := property_description propResolved propSchema in
  let isRequired := set_has required propName in
  let* typeStr :=
    getTypeString spec
      (if truthy propResolved then propResolved else propSchema)
      (qget propResolved "__refName") in
  let refProperties :=
    otruthy (qget propSchema "$ref")
    && otruthy (qget (resolveRef spec (qget propSchema "$ref")) "properties") in
  let propIsObject :=
    (is_string (qget propResolved "type") "object" || otruthy (qget propSchema "$ref"))
    && (otruthy (qget propResolved "properties") || refProperties) in
  let propItems := or_else (qget propResolved "items") (qget propSchema "items") in
  let itemSchema :=
    if otruthy (oget propItems "$ref")
    then Some (resolveRef spec (oget propItems "$ref"))
    else propItems in
  let propIsArrayOfObject :=
    is_string (qget propResolved "type") "array"
    && otruthy (oget itemSchema "properties") in
  if propIsObject && (otruthy (qget propResolved "properties") || refProperties) then
    let innerSchema :=
      if otruthy (qget propResolved "properties") then propResolved
      else resolveRef spec (qget propSchema "$ref") in
    let* inner := recur innerSchema propName (indent +:+ INDENT) in
    Ok ([ field_open indent propName typeStr isRequired;
          indent +:+ "  " +:+ normalize_text propDesc;
          field_close indent;
          expandable_open indent (propName +:+ " – properties") ]
        ++ split "010"%char inner
        ++ [ expandable_close indent ])
  else if propIsArrayOfObject then
    let* arrTypeStr := getTypeString spec propResolved None in
    let* inner := recur (or_null itemSchema) "item" (indent +:+ INDENT) in
    Ok ([ field_open indent propName arrTypeStr isRequired;
          indent +:+ "  " +:+ propDesc;
          field_close indent;
          expandable_open indent (propName +:+ " – item structure") ]
        ++ List.filter (fun line => negb (line =? EmptyString)) (split "010"%char inner)
        ++ [ expandable_close indent ])
  else
    Ok [ field_open indent propName typeStr isRequired;
         indent +:+ "  " +:+ propDesc;
         field_close indent ].

(** Generate Mintlify markdown for one schema (object with properties).
    Returns the inner content only (Expandable body); root ResponseField is
    added by caller.  The recursion follows references of the document and
    need not end; [fuel] bounds its depth. *)
Fixpoint schemaToExpandableContent (fuel : nat) (spec schema : tree)
    (schemaName indent : string) : outcome string :=
  match fuel with
  | O => OutOfFuel
  | S fuel' =>
      let resolved := resolveSchema spec schema in
      if negb (truthy resolved) then Ok EmptyString
      else
        let type := get resolved "type" in
        let isObject :=
          is_string type "object"
          || match type with
             | Some (VArr types) => existsb (fun t => is_string (Some t) "object") types
             | _ => false
             end in
        match get resolved "properties" with
        | Some props =>
            if isObject && truthy props && is_object props then
              let* required := required_set (get resolved "required") in
              let* blocks :=
                map_outcome
                  (property_lines (schemaToExpandableContent fuel' spec) spec required indent)
                  (entries props) in
              Ok (join NEWLINE (concat blocks))
            else Ok EmptyString
        | None => Ok EmptyString
        end
  end.

(** [Object.keys(properties).length > 0] for a truthy [properties]. *)
Definition has_keys (properties : tree) : bool :=
  match properties with
  | VObj props => negb (Nat.eqb (length props) 0)
  | VArr elems => negb (Nat.eqb (length elems) 0)
  | VStr s => negb (s =? EmptyString)
  | _ => false
  end.

Definition not_found (schemaName : string) : string :=
  "<!-- Schema not found: " +:+ schemaName +:+ " -->" +:+ NEWLINE.

(** Generate full Mintlify snippet for one named schema (root ResponseField +
    optional Expandable).  [spec.components] on [null] throws. *)
Definition schemaToMintlify (fuel : nat) (spec : tree) (schemaName : string) : outcome string :=
  match spec with
  | VNull => Throw
  | _ =>
      match named_member (oget (get spec "components") "schemas") schemaName with
      | Some schema =>
          if negb (truthy schema) then Ok (not_found schemaName)
          else
            let resolved := resolveSchema spec schema in
            let desc :=
              normalizeDescription
                (or_else (qget resolved "description") (qget schema "description")) in
            let* typeStr := getTypeString spec resolved (Some (VStr schemaName)) in
            let hasProperties :=
              is_string (qget resolved "type") "object"
              && match qget resolved "properties" with
                 | Some properties => truthy properties && has_keys properties
                 | None => false
                 end in
            let* expandable :=
              if hasProperties then
                let* inner := schemaToExpandableContent fuel spec resolved schemaName "    " in
                Ok [ "  <Expandable title=" +:+ QUOTE +:+ "properties" +:+ QUOTE +:+ ">";
                     inner;
                     "  </Expandable>" ]
              else Ok [] in
            Ok (join NEWLINE
                  ([ "<ResponseField name=" +:+ QUOTE +:+ schemaName +:+ QUOTE
                     +:+ typeAttr typeStr +:+ ">" ]
                   ++ (if desc =? EmptyString then [] else [ "  " +:+ desc ])
                   ++ expandable
                   ++ [ "</ResponseField>" ])
                +:+ NEWLINE)
      | None => Ok (not_found schemaName)
      end
  end.

(** The file system, as far as a run depends on it: whether
    [fs.mkdirSync] creates the directory of the snippets, and for which file
    names [fs.writeFileSync] succeeds.  A file name is the text that
    [path.join] receives as its second argument.  A call that does not
    succeed throws (a name with a slash leads into a directory that
    [main] does not create). *)
Record file_system : Type := {
  mkdirSync : bool;
  writeFileSync : string -> bool
}.

(** The loop of [main]: one file per name, written as soon as its content is
    computed; an exception of [schemaToMintlify] or of [fs.writeFileSync]
    ends the run and leaves the files written so far. *)
Fixpoint write_snippets (fs : file_system) (fuel : nat) (spec : tree)
    (schemaNames : list string) : list (string * string) * outcome unit :=
  match schemaNames with
  | [] => ([], Ok tt)
  | name :: rest =>
      match schemaToMintlify fuel spec name with
      | Ok mdx =>
          if writeFileSync fs (name +:+ ".mdx") then
            let (files, status) := write_snippets fs fuel spec rest in
            ((name +:+ ".mdx", mdx) :: files, status)
          else ([], Throw)
      | Throw => ([], Throw)
      | OutOfFuel => ([], OutOfFuel)
      end
  end.

(** [main] after [loadSpec]: the files written under [snippets/api], in
    order, and how the run ended. *)
Definition main (fs : file_system) (fuel : nat) (argv : list string) (spec : tree)
  : list (string * string) * outcome unit :=
  let schemaNames := if Nat.ltb 0 (length argv) then argv else SCHEMAS_TO_CONVERT in
  if mkdirSync fs then write_snippets fs fuel spec schemaNames else ([], Throw).

End SchemaToMintlify.

(* ================================================================== *)
(** * stripDeprecated on the heap *)
(* ================================================================== *)

(** The same function with objects as JavaScript has them: a mapping or a
    sequence is a location of the heap, a property holds a primitive or a
    location, [result[key] = ...] and [delete] update the object at a
    location, and two properties may hold the same location.  Location [l]
    is the [l]-th object that was allocated.  On a heap that holds a tree
    the function returns the tree that [StripDeprecated.stripDeprecated]
    computes ([stripDeprecated_on_the_heap]). *)
Module Heap.

Abbreviation loc := nat.

Inductive hval : Type :=
| HNull
| HBool (b : bool)
| HNum (n : Z)
| HStr (s : string)
| HRef (l : loc).

Inductive hobj : Type :=
| HArr (elems : list hval)
| HObj (props : list (string * hval)).

Abbreviation heap := (list hobj).

(** [{}], [[]]: a new object gets the next location. *)
Definition alloc (h : heap) (o : hobj) : loc * heap := (length h, h ++ [o]).

Definition htruthy (v : hval) : bool :=
  match v with
  | HNull => false
  | HBool b => b
  | HNum n => negb (n =? 0)%Z
  | HStr s => negb (s =? EmptyString)
  | HRef _ => true
  end.

Fixpoint hassoc (k : string) (props : list (string * hval)) : option hval :=
  match props with
  | [] => None
  | (k', v) :: rest => if k =? k' then Some v else hassoc k rest
  end.

(** [v[k]] on the heap [h]. *)
Definition hget (h : heap) (v : hval) (k : string) : option hval :=
  match v with
  | HRef l =>
      match h !! l with
      | Some (HObj props) => hassoc k props
      | Some (HArr elems) =>
          match index_of_key k with
          | Some i => elems !! i
          | None => None
          end
      | None => None
      end
  | _ => None
  end.

Definition hoget (h : heap) (o : option hval) (k : string) : option hval :=
  match o with
  | Some v => hget h v k
  | None => None
  end.

(** [typeof v === 'object' && !Array.isArray(v)] for a [v] that is not [null]. *)
Definition is_hmapping (h : heap) (v : hval) : bool :=
  match v with
  | HRef l => match h !! l with Some (HObj _) => true | _ => false end
  | _ => false
  end.

Definition is_hobject (v : hval) : bool :=
  match v with
  | HRef _ => true
  | _ => false
  end.

Definition is_hstring (o : option hval) (text : string) : bool :=
  match o with
  | Some (HStr s) => s =? text
  | _ => false
  end.

Definition is_htrue (o : option hval) : bool :=
  match o with
  | Some (HBool true) => true
  | _ => false
  end.

Definition ohtruthy (o : option hval) : bool :=
  match o with
  | Some v => htruthy v
  | None => false
  end.

Definition getSchemaNameFromRef (ref : option hval) : option string :=
  match ref with
  | Some (HStr s) => if s =? EmptyString then None else match_anchored s
  | _ => None
  end.

Definition isRefToDeprecatedSchema (h : heap) (val : hval)
    (deprecatedSchemaNames : gset string) : bool :=
  if negb (htruthy val) || negb (is_hmapping h val)
     || bool_decide (size deprecatedSchemaNames = 0)
  then false
  else
    let directRef := getSchemaNameFromRef (hget h val "$ref") in
    if StripDeprecated.has_name deprecatedSchemaNames directRef then true
    else
      let items := hget h val "items" in
      if is_hstring (hget h val "type") "array" && ohtruthy items
         && match items with Some i => is_hobject i | None => false end
         && ohtruthy (hoget h items "$ref")
      then StripDeprecated.has_name deprecatedSchemaNames
             (getSchemaNameFromRef (hoget h items "$ref"))
      else false.

Definition marked_deprecated (h : heap) (val : hval) : bool :=
  htruthy val && is_hobject val && is_hmapping h val
  && is_htrue (hget h val "deprecated").

Fixpoint hset_key (k : string) (v : hval) (props : list (string * hval))
  : list (string * hval) :=
  match props with
  | [] => [(k, v)]
  | (k', v') :: rest =>
      if k =? k' then (k, v) :: rest else (k', v') :: hset_key k v rest
  end.

(** [result[key] = r] where [result] is the mapping at [l]. *)
Definition set_prop (h : heap) (l : loc) (key : string) (r : hval) : heap :=
  match h !! l with
  | Some (HObj props) => <[l := HObj (hset_key key r props)]> h
  | _ => h
  end.

(** The callback result stored by [map] in the new sequence at [l]. *)
Definition push_elem (h : heap) (l : loc) (r : hval) : heap :=
  match h !! l with
  | Some (HArr elems) => <[l := HArr (elems ++ [r])]> h
  | _ => h
  end.

(** [if ('deprecated' in o) delete o.deprecated] for the object at [l]; a
    sequence has no member of that name. *)
Definition delete_prop (h : heap) (l : loc) (key : string) : heap :=
  match h !! l with
  | Some (HObj props) =>
      <[l := HObj (List.filter (fun kv => negb (fst kv =? key)) props)]> h
  | _ => h
  end.

(** The loop over [Object.keys(value)], for the remaining keys.  [value] is
    the mapping at [l], the new mapping is at [result]; [value[key]] is read
    from the heap when the turn of [key] comes. *)
Fixpoint strip_props (recur : hval -> heap -> outcome (hval * heap))
    (deprecatedSchemaNames : gset string) (l result : loc)
    (keys : list string) (h : heap) : outcome heap :=
  match keys with
  | [] => Ok h
  | key :: keys' =>
      match hget h (HRef l) key with
      | Some val =>
          if marked_deprecated h val
          then strip_props recur deprecatedSchemaNames l result keys' h
          else if isRefToDeprecatedSchema h val deprecatedSchemaNames
          then strip_props recur deprecatedSchemaNames l result keys' h
          else
            let* stripped := recur val h in
            let h1 := set_prop (snd stripped) result key (fst stripped) in
            let h2 :=
              match hget h1 (HRef result) key with
              | Some (HRef kept) => delete_prop h1 kept "deprecated"
              | _ => h1
              end in
            strip_props recur deprecatedSchemaNames l result keys' h2
      | None => Throw
      end
  end.

(** [value.map((v) => stripDeprecated(v, deprecatedSchemaNames))], for the
    remaining indices; element [k] is read when its turn comes. *)
Fixpoint strip_elems (recur : hval -> heap -> outcome (hval * heap))
    (l result : loc) (indices : list nat) (h : heap) : outcome heap :=
  match indices with
  | [] => Ok h
  | k :: indices' =>
      match h !! l with
      | Some (HArr elems) =>
          match elems !! k with
          | Some v =>
              let* stripped := recur v h in
              strip_elems recur l result indices'
                (push_elem (snd stripped) result (fst stripped))
          | None => Throw
          end
      | _ => Throw
      end
  end.

(** The heap may hold a cycle, on which the recursion does not end; [fuel]
    bounds its depth.  A location outside the heap does not occur. *)
Fixpoint stripDeprecated (fuel : nat) (value : hval)
    (deprecatedSchemaNames : gset string) (h : heap) : outcome (hval * heap) :=
  match fuel with
  | O => OutOfFuel
  | S fuel' =>
      match value with
      | HRef l =>
          match h !! l with
          | Some (HArr elems) =>
              let (result, h0) := alloc h (HArr []) in
              let* h' :=
                strip_elems (fun v => stripDeprecated fuel' v deprecatedSchemaNames)
                  l result (seq 0 (length elems)) h0 in
              Ok (HRef result, h')
          | Some (HObj props) =>
              let (result, h0) := alloc h (HObj []) in
              let* h' :=
                strip_props (fun v => stripDeprecated fuel' v deprecatedSchemaNames)
                  deprecatedSchemaNames l result (map fst props) h0 in
              Ok (HRef result, h')
          | None => Throw
          end
      | _ => Ok (value, h)
      end
  end.

(** The tree that a heap value stands for. *)
Unset Elimination Schemes.
Inductive repr (h : heap) : hval -> tree -> Prop :=
| repr_null : repr h HNull VNull
| repr_bool (b : bool) : repr h (HBool b) (VBool b)
| repr_num (n : Z) : repr h (HNum n) (VNum n)
| repr_str (s : string) : repr h (HStr s) (VStr s)
| repr_arr (l : loc) (helems : list hval) (elems : list tree) :
    h !! l = Some (HArr helems) ->
    Forall2 (repr h) helems elems ->
    repr h (HRef l) (VArr elems)
| repr_obj (l : loc) (hprops : list (string * hval)) (props : list (string * tree)) :
    h !! l = Some (HObj hprops) ->
    Forall2 (fun hp p => fst hp = fst p /\ repr h (snd hp) (snd p)) hprops props ->
    repr h (HRef l) (VObj props).
Set Elimination Schemes.

End Heap.

(* ================================================================== *)
(** * Notions used in the statements *)
(* ================================================================== *)

(** The node at a path of property names and indices. *)
Fixpoint lookup_path (t : tree) (path : list string) : option tree :=
  match path with
  | [] => Some t
  | k :: path' =>
      match oget (Some t) k with
      | Some t' => lookup_path t' path'
      | None => None
      end
  end.

(** [pair_in k v t]: some mapping inside [t], at any depth, has the
    property [k] with value [v]. *)
Inductive pair_in (k : string) (v : tree) : tree -> Prop :=
| pair_here (props : list (string * tree)) :
    In (k, v) props -> pair_in k v (VObj props)
| pair_under_property (props : list (string * tree)) (k' : string) (v' : tree) :
    In (k', v') props -> pair_in k v v' -> pair_in k v (VObj props)
| pair_under_element (elems : list tree) (v' : tree) :
    In v' elems -> pair_in k v v' -> pair_in k v (VArr elems).

(** [v] is a mapping with a direct [$ref] to the schema [name], or with type
    [array] and items that carry a [$ref] to it.  A reference names a schema
    as [getSchemaNameFromRef] reads it. *)
Definition refers_to (name : string) (v : tree) : Prop :=
  is_mapping v = true /\
  (StripDeprecated.getSchemaNameFromRef (get v "$ref") = Some name
   \/ (get v "type" = Some (VStr "array")
       /\ exists items,
            get v "items" = Some items
            /\ StripDeprecated.getSchemaNameFromRef (get items "$ref") = Some name)).

(** Some mapping of the tree, the root included, has a [deprecated] key. *)
Fixpoint has_deprecated_key (t : tree) : bool :=
  match t with
  | VArr elems => existsb has_deprecated_key elems
  | VObj props =>
      existsb (fun kv => fst kv =? "deprecated") props
      || existsb (fun kv => has_deprecated_key (snd kv)) props
  | _ => false
  end.

(** A mapping has no [deprecated] key. *)
Definition no_deprecated_key (v : tree) : bool :=
  match v with
  | VObj props => negb (existsb (fun kv => fst kv =? "deprecated") props)
  | _ => true
  end.

(** A property value that [stripDeprecated] keeps as it is: it is not
    dropped, and it holds no [deprecated] key to delete. *)
Definition kept (names : gset string) (v : tree) : bool :=
  negb (StripDeprecated.marked_deprecated v)
  && negb (StripDeprecated.isRefToDeprecatedSchema v names)
  && no_deprecated_key v.

(** A tree on which [stripDeprecated] has nothing to do. *)
Fixpoint stable (names : gset string) (t : tree) : bool :=
  match t with
  | VArr elems => forallb (stable names) elems
  | VObj props =>
      forallb (fun kv => kept names (snd kv) && stable names (snd kv)) props
  | _ => true
  end.





Definition enum_two : tree := VObj [("enum", VArr [VNum 1; VNum 2])].

Definition shifts_spec : tree :=
  VObj [("components", VObj [("schemas", VObj [
    ("shift", VObj [("type", VStr "object");
                    ("properties", VObj [("start", VObj [("type", VStr "string")])])]);
    ("id", VObj [("type", VStr "string"); ("format", VStr "uuid")])])])].



Definition deprecated_parameter_doc : tree :=
  VObj [("paths", VObj [("/a", VObj [("get", VObj [
    ("parameters", VArr [VObj [("name", VStr "x"); ("deprecated", VBool true)]])])])])].

Definition deprecated_parameter_out : tree :=
  VObj [("paths", VObj [("/a", VObj [("get", VObj [
    ("parameters", VArr [VObj [("name", VStr "x"); ("deprecated", VBool true)]]);
    ("x-mint", VObj [("metadata", VObj [("mode", VStr "wide")])])])])])].

(** The [x-mint] an operation already has is falsy or a mapping, and so is
    the [metadata] inside such a mapping: the shapes on which the three
    assignments of [ensureWideMode] take effect. *)
Definition stampable (op : list (string * tree)) : bool :=
  match assoc "x-mint" op with
  | Some xm =>
      negb (truthy xm)
      || match xm with
         | VObj xprops =>
             match assoc "metadata" xprops with
             | Some md => negb (truthy md) || is_mapping md
             | None => true
             end
         | _ => false
         end
  | None => true
  end.

Definition linked_operation_doc : tree :=
  VObj [("paths", VObj [("/a", VObj [("get", VObj [
    ("summary", VStr "list");
    ("x-mint", VObj [("href", VStr "/list")])])])])].

Definition linked_operation_out : tree :=
  VObj [("paths", VObj [("/a", VObj [("get", VObj [
    ("summary", VStr "list");
    ("x-mint", VObj [("href", VStr "/list");
                     ("metadata", VObj [("mode", VStr "wide")])])])])])].

Definition text_metadata_doc : tree :=
  VObj [("paths", VObj [("/a", VObj [("get", VObj [
    ("x-mint", VObj [("metadata", VStr "full")])])])])].

(** The lines of one Render Node at a level of indentation: the field with
    its name, its type and, for a required property, the word [required];
    the description line and the closing line; after them, for a property
    that expands, an Expandable section that holds the lines of the nested
    fields. *)
Inductive node_block (indent name : string) (required : bool) : list string -> Prop :=
| plain_node (type desc : string) :
    node_block indent name required
      [ indent +:+ "<ResponseField name=" +:+ QUOTE +:+ name +:+ QUOTE
        +:+ " type=" +:+ QUOTE +:+ type +:+ QUOTE
        +:+ (if required then " required" else EmptyString) +:+ ">";
        indent +:+ "  " +:+ desc;
        indent +:+ "</ResponseField>" ]
| expanded_node (type desc title : string) (nested : list string) :
    title = name +:+ " – properties" \/ title = name +:+ " – item structure" ->
    node_block indent name required
      ([ indent +:+ "<ResponseField name=" +:+ QUOTE +:+ name +:+ QUOTE
         +:+ " type=" +:+ QUOTE +:+ type +:+ QUOTE
         +:+ (if required then " required" else EmptyString) +:+ ">";
         indent +:+ "  " +:+ desc;
         indent +:+ "</ResponseField>";
         indent +:+ "<Expandable title=" +:+ QUOTE +:+ title +:+ QUOTE +:+ ">" ]
       ++ nested
       ++ [ indent +:+ "</Expandable>" ]).

Definition abc_schema : tree :=
  VObj [("type", VStr "object");
        ("required", VArr [VStr "a"; VStr "c"]);
        ("properties", VObj [("a", VObj [("type", VStr "string")]);
                             ("b", VObj [("type", VStr "integer")]);
                             ("c", VObj [("type", VStr "boolean")])])].

Definition abc_lines : list string :=
  [ "<ResponseField name=" +:+ QUOTE +:+ "a" +:+ QUOTE +:+ " type="
    +:+ QUOTE +:+ "string" +:+ QUOTE +:+ " required>";
    "  "; "</ResponseField>";
    "<ResponseField name=" +:+ QUOTE +:+ "b" +:+ QUOTE +:+ " type="
    +:+ QUOTE +:+ "integer" +:+ QUOTE +:+ ">";
    "  "; "</ResponseField>";
    "<ResponseField name=" +:+ QUOTE +:+ "c" +:+ QUOTE +:+ " type="
    +:+ QUOTE +:+ "boolean" +:+ QUOTE +:+ " required>";
    "  "; "</ResponseField>" ].

(** The loop of [stripDeprecated] over the properties of a mapping. *)
Fixpoint kept_props (names : gset string) (todo : list (string * tree))
  : list (string * tree) :=
  match todo with
  | [] => []
  | (key, val) :: todo' =>
      if StripDeprecated.marked_deprecated val then kept_props names todo'
      else if StripDeprecated.isRefToDeprecatedSchema val names then kept_props names todo'
      else
        (key, StripDeprecated.delete_deprecated (StripDeprecated.stripDeprecated val names))
          :: kept_props names todo'
  end.

(** Every reference that [w] shows to [isRefToDeprecatedSchema] is one that
    [v] shows. *)
Definition refines (w v : tree) : Prop :=
  (forall s, get w "$ref" = Some (VStr s) -> get v "$ref" = Some (VStr s))
  /\ (forall s, get w "type" = Some (VStr s) -> get v "type" = Some (VStr s))
  /\ (forall i' s,
        get w "items" = Some i' -> get i' "$ref" = Some (VStr s) ->
        exists i, get v "items" = Some i /\ get i "$ref" = Some (VStr s)).

(** [schema && typeof schema === 'object' && schema.deprecated === true] *)
Definition is_deprecated_schema (schema : tree) : bool :=
  truthy schema && is_object schema && is_true (get schema "deprecated").

Definition catalog_doc : tree :=
  VObj [("components", VObj [("schemas", VObj [
          ("Old", VObj [("deprecated", VBool true)]);
          ("New", VObj [("type", VStr "object");
                        ("properties", VObj [
                           ("a", VObj [("$ref", VStr "#/components/schemas/Old")]);
                           ("b", VObj [("type", VStr "array");
                                       ("items", VObj [("$ref", VStr "#/components/schemas/Old")])]);
                           ("c", VObj [("type", VStr "string"); ("deprecated", VBool false)])])])])]);
        ("paths", VObj [("/a", VObj [("get", VObj [("summary", VStr "list")])])])].

Definition catalog_out : tree :=
  VObj [("components", VObj [("schemas", VObj [
          ("New", VObj [("type", VStr "object");
                        ("properties", VObj [
                           ("c", VObj [("type", VStr "string")])])])])]);
        ("paths", VObj [("/a", VObj [("get", VObj [
           ("summary", VStr "list");
           ("x-mint", VObj [("metadata", VObj [("mode", VStr "wide")])])])])])].

(** Every object of the heap [h] is in [h'], unchanged. *)
Definition preserves (h h' : Heap.heap) : Prop :=
  forall l o, h !! l = Some o -> h' !! l = Some o.

(** A location that [r] holds was allocated after [h] and is in [h']. *)
Definition fresh_in (h h' : Heap.heap) (r : Heap.hval) : Prop :=
  match r with
  | Heap.HRef l => length h <= l < length h'
  | _ => True
  end.

Fixpoint height (t : tree) : nat :=
  match t with
  | VArr elems => S (list_max (map height elems))
  | VObj props => S (list_max (map (fun kv => height (snd kv)) props))
  | _ => 0
  end.

(** The state of a loop of [Heap.stripDeprecated]: the heap [h0] of the call
    is intact, and the object under construction is at the location after
    it. *)
Definition building (h0 h : Heap.heap) (is_map : bool) : Prop :=
  preserves h0 h
  /\ match h !! length h0 with
     | Some (Heap.HObj _) => is_map = true
     | Some (Heap.HArr _) => is_map = false
     | None => False
     end.

(** What a call of [Heap.stripDeprecated] guarantees to its caller. *)
Definition frame (h : Heap.heap) (res : Heap.hval * Heap.heap) : Prop :=
  preserves h (snd res) /\ length h <= length (snd res) /\ fresh_in h (snd res) (fst res).

(** A heap in which two properties hold the same mapping, as a YAML alias
    produces it, and the tree it stands for. *)
Definition aliased_heap : Heap.heap :=
  [ Heap.HObj [("type", Heap.HStr "string"); ("deprecated", Heap.HBool false)];
    Heap.HObj [("a", Heap.HRef 0); ("b", Heap.HRef 0)] ].

Definition aliased_tree : tree :=
  VObj [("a", VObj [("type", VStr "string"); ("deprecated", VBool false)]);
        ("b", VObj [("type", VStr "string"); ("deprecated", VBool false)])].

(** [built h hi lo hv v]: the heap value [hv] stands for the tree [v], its
    locations lie in [[lo, hi)], and the contents of an object lie after the
    object: the layout of what [Heap.stripDeprecated] builds. *)
Unset Elimination Schemes.
Inductive built (h : Heap.heap) (hi : nat) : nat -> Heap.hval -> tree -> Prop :=
| built_null (lo : nat) : built h hi lo Heap.HNull VNull
| built_bool (lo : nat) (b : bool) : built h hi lo (Heap.HBool b) (VBool b)
| built_num (lo : nat) (n : Z) : built h hi lo (Heap.HNum n) (VNum n)
| built_str (lo : nat) (s : string) : built h hi lo (Heap.HStr s) (VStr s)
| built_arr (lo l : nat) (helems : list Heap.hval) (elems : list tree) :
    lo <= l < hi ->
    h !! l = Some (Heap.HArr helems) ->
    Forall2 (built h hi (S l)) helems elems ->
    built h hi lo (Heap.HRef l) (VArr elems)
| built_obj (lo l : nat) (hprops : list (string * Heap.hval)) (props : list (string * tree)) :
    lo <= l < hi ->
    h !! l = Some (Heap.HObj hprops) ->
    Forall2 (fun hp p => fst hp = fst p /\ built h hi (S l) (snd hp) (snd p)) hprops props ->
    built h hi lo (Heap.HRef l) (VObj props).
Set Elimination Schemes.

(** Two results of a read that stand for each other. *)
Definition same_read (h : Heap.heap) (o : option Heap.hval) (o' : option tree) : Prop :=
  match o, o' with
  | Some x, Some y => Heap.repr h x y
  | None, None => True
  | _, _ => False
  end.

(** The heap after [if (...) delete result[key].deprecated], where
    [result[key]] is [r]. *)
Definition after_delete (h : Heap.heap) (r : Heap.hval) : Heap.heap :=
  match r with
  | Heap.HRef kept => Heap.delete_prop h kept "deprecated"
  | _ => h
  end.

(** The computation ends, with a result or an exception, on the fuel it has. *)
Definition ends {A : Type} (m : outcome A) : bool :=
  match m with
  | OutOfFuel => false
  | _ => true
  end.

(** No mapping inside [t] has a truthy [$ref]. *)
Fixpoint ref_free (t : tree) : bool :=
  match t with
  | VObj props =>
      negb (otruthy (assoc "$ref" props)) && forallb (fun kv => ref_free (snd kv)) props
  | VArr elems => forallb ref_free elems
  | _ => true
  end.

(* ================================================================== *)
(** * The earlier versions of strip-deprecated.js *)
(* ================================================================== *)

(** The script as it was before it looked at references: [stripDeprecated]
    takes the value only, and drops the properties whose value is marked
    deprecated.  The second of the two earlier versions stamps wide mode
    with the [ensureWideMode] of today. *)
Module Earlier.

Fixpoint stripDeprecated (value : tree) : tree :=
  match value with
  | VArr elems => VArr (map stripDeprecated elems)
  | VObj props =>
      VObj
        ((fix loop (todo : list (string * tree)) : list (string * tree) :=
            match todo with
            | [] => []
            | (key, val) :: todo' =>
                if StripDeprecated.marked_deprecated val then loop todo'
                else
                  (key, StripDeprecated.delete_deprecated (stripDeprecated val))
                    :: loop todo'
            end) props)
  | _ => value
  end.

(** [main] of the first version, between [yaml.parse] and [yaml.stringify]. *)
Definition main (spec : tree) : tree := stripDeprecated spec.

(** [main] of the second version. *)
Definition main_wide (spec : tree) : outcome tree :=
  StripDeprecated.ensureWideMode (stripDeprecated spec).

End Earlier.

(* ================================================================== *)
(** * The file names of strip-deprecated.js *)
(* ================================================================== *)

Module Files.

(** Case is ignored on the letters of ASCII only. *)
Definition lower (c : ascii) : ascii :=
  let n := nat_of_ascii c in
  if Nat.leb 65 n && Nat.leb n 90 then ascii_of_nat (n + 32) else c.

Fixpoint lowercase (s : string) : string :=
  match s with
  | EmptyString => EmptyString
  | String c rest => String (lower c) (lowercase rest)
  end.

(** [(yml|yaml)$] with the flag [i], on all that is left of the input. *)
Definition is_yaml_extension (ext : string) : bool :=
  (lowercase ext =? "yml") || (lowercase ext =? "yaml").

(** Group 1 of [/\.(yml|yaml)$/i] for a match that starts where [s] starts. *)
Definition extension_here (s : string) : option string :=
  match s with
  | String c ext =>
      if Ascii.eqb c "."%char && is_yaml_extension ext then Some ext else None
  | EmptyString => None
  end.

(** [inputFile.replace(/\.(yml|yaml)$/i, '.no-deprecated.$1')]: the leftmost
    match is replaced, the text before it stays. *)
Fixpoint replace_extension (name : string) : string :=
  match extension_here name with
  | Some ext => ".no-deprecated." +:+ ext
  | None =>
      match name with
      | EmptyString => EmptyString
      | String c rest => String c (replace_extension rest)
      end
  end.

(** [args[0] || path.join(apiRefDir, 'openapi.yml')], for the default path
    [openapi] that [path.join] gives. *)
Definition inputFile (args : list string) (openapi : string) : string :=
  match args with
  | a :: _ => if a =? EmptyString then openapi else a
  | [] => openapi
  end.

(** [args[1] || inputFile.replace(...)] *)
Definition outputFile (args : list string) (openapi : string) : string :=
  match args with
  | _ :: b :: _ =>
      if b =? EmptyString then replace_extension (inputFile args openapi) else b
  | _ => replace_extension (inputFile args openapi)
  end.

End Files.

(** The name ends in [.yml] or [.yaml], in any case of the letters. *)
Definition has_yaml_extension (name : string) : Prop :=
  exists stem ext, name = stem +:+ "." +:+ ext /\ Files.is_yaml_extension ext = true.

(** The [x-mint] of an operation is truthy and no object: the value on which
    [op['x-mint'].metadata.mode = 'wide'] throws. *)
Definition primitive_x_mint (op : tree) : bool :=
  match op with
  | VObj props =>
      match assoc "x-mint" props with
      | Some xm => truthy xm && negb (is_object xm)
      | None => false
      end
  | _ => false
  end.

Definition flagged_operation_doc : tree :=
  VObj [("paths", VObj [("/a", VObj [("get", VObj [("x-mint", VBool true)])])])].

(** The character [c] occurs in [s]. *)
Fixpoint contains (c : ascii) (s : string) : bool :=
  match s with
  | EmptyString => false
  | String c' rest => Ascii.eqb c' c || contains c rest
  end.

(** A schema that a property of its own refers to: the object schema that
    the reference [r] resolves to has, as its first property, a mapping that
    holds nothing but the reference [r]. *)
Definition refers_to_itself (spec : tree) (r : string) (target : list (string * tree)) : Prop :=
  SchemaToMintlify.resolveRef spec (Some (VStr r)) = VObj target
  /\ r <> EmptyString
  /\ assoc "$ref" target = None
  /\ assoc "type" target = Some (VStr "object")
  /\ assoc "enum" target = None
  /\ assoc "required" target = None
  /\ exists p rest,
       assoc "properties" target = Some (VObj ((p, VObj [("$ref", VStr r)]) :: rest)).

(** A schema of nodes, each with a parent that is a node. *)
Definition node_spec : tree :=
  VObj [("components", VObj [("schemas", VObj [
    ("node", VObj [("type", VStr "object");
                   ("properties", VObj [
                      ("parent", VObj [("$ref", VStr "#/components/schemas/node")]);
                      ("label", VObj [("type", VStr "string")])])])])])].

(** The bytes TAB, LF, VT, FF and CR. *)
Definition is_control_space (c : ascii) : bool :=
  Nat.leb 9 (nat_of_ascii c) && Nat.leb (nat_of_ascii c) 13.

Fixpoint bytes (s : string) : list ascii :=
  match s with
  | EmptyString => []
  | String c rest => c :: bytes rest
  end.


(** Every mapping inside [t] has an [enum] that is falsy or a sequence and a
    [required] that is falsy, a sequence or a string: the values on which
    [getTypeString] and [new Set(...)] do not throw. *)
Fixpoint well_listed (t : tree) : bool :=
  match t with
  | VObj props =>
      match assoc "enum" props with
      | Some e => negb (truthy e) || match e with VArr _ => true | _ => false end
      | None => true
      end
      && match assoc "required" props with
         | Some r =>
             negb (truthy r)
             || match r with VArr _ | VStr _ => true | _ => false end
         | None => true
         end
      && forallb (fun kv => well_listed (snd kv)) props
  | VArr elems => forallb well_listed elems
  | _ => true
  end.

(** The first two bytes of [out] are those of [text], as far as [out] does
    not end or hold a space there. *)
Definition similar (text out : string) : Prop :=
  match out with
  | EmptyString => True
  | String d out' =>
      d = " "%char
      \/ exists text',
           text = String d text'
           /\ match out' with
              | EmptyString => True
              | String e _ => e = " "%char \/ exists text'', text' = String e text''
              end
  end.

(** [\s] on a character of ASCII: TAB, LF, VT, FF, CR and the space. *)
Definition ascii_space_test (c : ascii) : bool :=
  (Nat.leb 9 (nat_of_ascii c) && Nat.leb (nat_of_ascii c) 13) || Nat.eqb (nat_of_ascii c) 32.


(** The text holds no tabulator and no line break of ASCII. *)
Definition plain (s : string) : Prop :=
  forall c, In c (bytes s) -> is_control_space c = false.

(** [spec.components?.schemas] is a mapping, [null] or [undefined]: the
    values on which a name finds an entry, a member that every mapping
    inherits, or nothing. *)
Definition schemas_of_a_mapping (spec : tree) : bool :=
  match oget (get spec "components") "schemas" with
  | Some (VObj _) | Some VNull | None => true
  | Some _ => false
  end.

(** A file system on which every call succeeds, and one whose snippet
    directory has no directory inside, so that a write succeeds for the
    names without a slash. *)
Definition working_file_system : SchemaToMintlify.file_system :=
  {| SchemaToMintlify.mkdirSync := true;
     SchemaToMintlify.writeFileSync := fun _ => true |}.

Definition flat_directory : SchemaToMintlify.file_system :=
  {| SchemaToMintlify.mkdirSync := true;
     SchemaToMintlify.writeFileSync := fun name => negb (contains "/"%char name) |}.

(** A path item with a summary of its own, beside its operation. *)
Definition described_path_doc : tree :=
  VObj [("info", VObj [("title", VStr "API")]);
        ("paths", VObj [("/a", VObj [("summary", VStr "things");
                                     ("get", VObj [("operationId", VStr "list")])])])].

Definition described_path_out : tree :=
  VObj [("info", VObj [("title", VStr "API")]);
        ("paths", VObj [("/a", VObj [
           ("summary", VStr "things");
           ("get", VObj [("operationId", VStr "list");
                         ("x-mint", VObj [("metadata", VObj [("mode", VStr "wide")])])])])])].

(** The segments name document content all along the walk of [resolveRef]:
    each is read from [null], from a mapping that has it as a key or
    inherits no member of that name, or from a sequence by an index.
    Elsewhere [current?.[p]] finds a member that is no content (the length
    of a sequence, a character of a string, an inherited method), which the
    embedding does not have; the statements about references that are
    followed are made for segments that name content. *)
Fixpoint names_content (current : tree) (parts : list string) : bool :=
  match parts with
  | [] => true
  | p :: parts' =>
      match current with
      | VNull => true
      | VObj props =>
          match assoc p props with
          | Some next => names_content next parts'
          | None => negb (inherited p)
          end
      | VArr elems =>
          match index_of_key p with
          | Some i =>
              match nth_error elems i with
              | Some next => names_content next parts'
              | None => true
              end
          | None => false
          end
      | _ => false
      end
  end.


(** No mapping inside [t] has a key [toString].  [String(v)], a template
    literal and [join] throw a [TypeError] on a mapping with such a key: its
    value is no function, and [valueOf] gives no primitive.  Every other
    value of a document prints, as [ToString] says. *)
Fixpoint printable (t : tree) : bool :=
  match t with
  | VObj props =>
      negb (existsb (String.eqb "toString") (map fst props))
      && forallb (fun kv => printable (snd kv)) props
  | VArr elems => forallb printable elems
  | _ => true
  end.

(** [v] is a mapping with a [$ref] that is the pointer to the schema [name],
    or with type [array] and items that carry such a [$ref]. *)
Definition points_to (name : string) (v : tree) : Prop :=
  is_mapping v = true /\
  (get v "$ref" = Some (VStr (SCHEMAS_POINTER +:+ name))
   \/ (get v "type" = Some (VStr "array")
       /\ exists items,
            get v "items" = Some items
            /\ get items "$ref" = Some (VStr (SCHEMAS_POINTER +:+ name)))).

(** What a place of the output holds when the stripped tree holds nothing
    there: nothing, or one of the values that [ensureWideMode] creates: the
    mode, a [metadata] with the mode, an [x-mint] with such a [metadata]. *)
Definition nothing_or_stamp (o : option tree) : Prop :=
  o = None
  \/ o = Some (VStr "wide")
  \/ o = Some (VObj [("mode", VStr "wide")])
  \/ o = Some (VObj [("metadata", VObj [("mode", VStr "wide")])]).

(** A deprecated schema whose name holds a line feed, and a property that
    refers to it. *)
Definition two_line_name : string := "Old" +:+ NEWLINE +:+ "er".

Definition two_line_doc : tree :=
  VObj [("components", VObj [("schemas", VObj [
          (two_line_name, VObj [("deprecated", VBool true)]);
          ("New", VObj [("type", VStr "object");
                        ("properties", VObj [
                           ("a", VObj [("$ref", VStr (SCHEMAS_POINTER +:+ two_line_name))])])])])])].

Definition two_line_out : tree :=
  VObj [("components", VObj [("schemas", VObj [
          ("New", VObj [("type", VStr "object");
                        ("properties", VObj [
                           ("a", VObj [("$ref", VStr (SCHEMAS_POINTER +:+ two_line_name))])])])])])].

(** [x'] holds what [x] holds and, where [x] holds nothing, nothing or a
    stamp of [ensureWideMode]. *)
Definition adds_stamps_only (x x' : tree) : Prop :=
  forall q, lookup_path x q = None -> nothing_or_stamp (lookup_path x' q).



















(* ================================================================== *)
(** * Properties *)
(* ================================================================== *)

Import SchemaToMintlify.

(* ------------------------------------------------------------------ *)
(** ** Text and lookups *)
(* ------------------------------------------------------------------ *)

Lemma append_cons a s r : String a s +:+ r = String a (s +:+ r).
Proof. reflexivity. Qed.

Lemma append_nil s : EmptyString +:+ s = s.
Proof. reflexivity. Qed.

Lemma append_assoc_string (a b c : string) : (a +:+ b) +:+ c = a +:+ (b +:+ c).
Proof.
  induction a as [|x a IH]; [reflexivity|]. rewrite !append_cons, IH. reflexivity.
Qed.

Lemma strip_prefix_app p s : strip_prefix p (p +:+ s) = Some s.
Proof.
  induction p as [|a p IH]; [reflexivity|].
  rewrite append_cons. simpl. rewrite Ascii.eqb_refl. exact IH.
Qed.

Lemma strip_prefix_Some p : forall s r, strip_prefix p s = Some r -> s = p +:+ r.
Proof.
  induction p as [|a p IH]; simpl; intros s r H.
  - injection H as <-. reflexivity.
  - destruct s as [|b s]; [discriminate|].
    destruct (Ascii.eqb a b) eqn:E; [|discriminate].
    apply Ascii.eqb_eq in E. subst b. rewrite append_cons. f_equal. auto.
Qed.

Lemma get_Some_truthy schema k v : get schema k = Some v -> truthy schema = true.
Proof. destruct schema; simpl; try discriminate; auto. Qed.

(* ------------------------------------------------------------------ *)
(** ** The schema-name helpers (C5) *)
(* ------------------------------------------------------------------ *)

(** The anchored expression of [getSchemaNameFromRef] accepts exactly the
    strings [#/components/schemas/<Name>] whose name is not empty and holds
    no line terminator. *)
Lemma match_anchored_spec s name :
  match_anchored s = Some name <->
  s = SCHEMAS_POINTER +:+ name /\ name <> EmptyString /\ dot_star name = name.
Proof.
  unfold match_anchored. split.
  - destruct (strip_prefix SCHEMAS_POINTER s) as [rest|] eqn:E; [|discriminate].
    destruct (negb (rest =? EmptyString) && (dot_star rest =? rest)) eqn:C; [|discriminate].
    intros [= <-]. apply andb_true_iff in C as [C1 C2].
    apply negb_true_iff, String.eqb_neq in C1. apply String.eqb_eq in C2.
    split; [|split]; auto using strip_prefix_Some.
  - intros (-> & Hne & Hdot). rewrite strip_prefix_app.
    apply String.eqb_neq in Hne. rewrite Hne, Hdot, String.eqb_refl. reflexivity.
Qed.

Lemma getSchemaNameFromRef_spec s name :
  StripDeprecated.getSchemaNameFromRef (Some (VStr s)) = Some name <->
  s = SCHEMAS_POINTER +:+ name /\ name <> EmptyString /\ dot_star name = name.
Proof.
  unfold StripDeprecated.getSchemaNameFromRef.
  destruct (s =? EmptyString) eqn:E.
  - apply String.eqb_eq in E. subst s. split; [discriminate|].
    intros (H & _). discriminate H.
  - apply match_anchored_spec.
Qed.

(** C5, at an input where the code departs from the claim: [getRefName]
    searches its pattern anywhere in the string, so a reference into another
    file, which is not of the form [#/components/schemas/<Name>], yields a
    name; the sibling [getSchemaNameFromRef] rejects the same string. *)
Theorem getRefName_matches_inside_a_string :
  getRefName (Some (VStr "common.yaml#/components/schemas/Pet")) = Some "Pet"
  /\ strip_prefix SCHEMAS_POINTER "common.yaml#/components/schemas/Pet" = None
  /\ StripDeprecated.getSchemaNameFromRef
       (Some (VStr "common.yaml#/components/schemas/Pet")) = None.
Proof. repeat split; vm_compute; reflexivity. Qed.

(* ------------------------------------------------------------------ *)
(** ** Type strings (C7, C3) *)
(* ------------------------------------------------------------------ *)



Example enum_type_string_two :
  getTypeString VNull enum_two None = Ok (VStr "string (enum: 1 | 2)").
Proof. reflexivity. Qed.




(* ------------------------------------------------------------------ *)
(** ** The deprecated key in the output (C2) *)
(* ------------------------------------------------------------------ *)

(** C2, at an input where the code departs from the claim: a mapping that is
    an element of a sequence keeps its [deprecated] key, since only the
    mapping that holds a value as a property deletes the key from it. *)
Theorem deprecated_key_survives_in_a_sequence :
  StripDeprecated.main deprecated_parameter_doc = Ok deprecated_parameter_out
  /\ has_deprecated_key deprecated_parameter_out = true.
Proof. split; vm_compute; reflexivity. Qed.

(* ------------------------------------------------------------------ *)
(** ** Wide mode (C9) *)
(* ------------------------------------------------------------------ *)

Import StripDeprecated.

Lemma assoc_set_key_eq k v props : assoc k (set_key k v props) = Some v.
Proof.
  induction props as [|[k' v'] rest IH]; simpl.
  - rewrite String.eqb_refl. reflexivity.
  - destruct (k =? k') eqn:E; simpl; rewrite ?String.eqb_refl, ?E; auto.
Qed.

Lemma assoc_set_key_ne k k' v props :
  k <> k' -> assoc k' (set_key k v props) = assoc k' props.
Proof.
  intros Hne. induction props as [|[k0 v0] rest IH]; simpl.
  - apply not_eq_sym, String.eqb_neq in Hne. rewrite Hne. reflexivity.
  - destruct (k =? k0) eqn:E; simpl.
    + apply String.eqb_eq in E. subst k0.
      apply not_eq_sym, String.eqb_neq in Hne. rewrite Hne. reflexivity.
    + destruct (k' =? k0); auto.
Qed.

Lemma bind_Ok {A B} (m : outcome A) (f : A -> outcome B) b :
  bind m f = Ok b -> exists a, m = Ok a /\ f a = Ok b.
Proof. destruct m; simpl; try discriminate; eauto. Qed.

Lemma map_outcome_assoc (f : string * tree -> outcome (string * tree)) :
  (forall kv kv', f kv = Ok kv' -> fst kv' = fst kv) ->
  forall props props' k v,
    map_outcome f props = Ok props' ->
    assoc k props = Some v ->
    exists v', f (k, v) = Ok (k, v') /\ assoc k props' = Some v'.
Proof.
  intros Hkey. induction props as [|[k0 v0] rest IH]; intros props' k v Hmap Hassoc.
  - discriminate.
  - simpl in Hmap. apply bind_Ok in Hmap as ([k1 v1] & Hf & Hmap).
    apply bind_Ok in Hmap as (rest' & Hrest & [= <-]).
    pose proof (Hkey _ _ Hf) as Hk. simpl in Hk. subst k1.
    simpl in Hassoc |- *. destruct (k =? k0) eqn:E.
    + apply String.eqb_eq in E. subst k0. injection Hassoc as <-. eauto.
    + eauto.
Qed.

Lemma map_outcome_nth {A B} (f : A -> outcome B) :
  forall l l' i x,
    map_outcome f l = Ok l' ->
    nth_error l i = Some x ->
    exists x', f x = Ok x' /\ nth_error l' i = Some x'.
Proof.
  induction l as [|a l IH]; intros l' i x Hmap Hnth.
  - destruct i; discriminate.
  - simpl in Hmap. apply bind_Ok in Hmap as (b & Hf & Hmap).
    apply bind_Ok in Hmap as (rest' & Hrest & [= <-]).
    destruct i as [|i]; simpl in *.
    + injection Hnth as <-. eauto.
    + eauto.
Qed.

Lemma method_is_no_index m : In m OPERATION_METHODS -> index_of_key m = None.
Proof.
  unfold OPERATION_METHODS. simpl.
  intros H. repeat (destruct H as [<-|H]; [vm_compute; reflexivity|]). destruct H.
Qed.

Lemma method_existsb m : In m OPERATION_METHODS -> existsb (String.eqb m) OPERATION_METHODS = true.
Proof.
  intros H. apply existsb_exists. exists m. split; [exact H|apply String.eqb_refl].
Qed.

Lemma wide_entry_key kv kv' : wide_entry kv = Ok kv' -> fst kv' = fst kv.
Proof.
  destruct kv as [k v]. unfold wide_entry.
  destruct (negb (existsb (String.eqb k) OPERATION_METHODS)); [intros [= <-]; reflexivity|].
  destruct (negb (truthy v) || negb (is_object v)); [intros [= <-]; reflexivity|].
  intros H. apply bind_Ok in H as (op' & _ & [= <-]). reflexivity.
Qed.

Lemma wide_path_property_key kv kv' :
  wide_path_property kv = Ok kv' -> fst kv' = fst kv.
Proof.
  unfold wide_path_property. intros H. apply bind_Ok in H as (? & _ & [= <-]). reflexivity.
Qed.

(** What the three assignments do to an operation that is a mapping. *)
Lemma wide_operation_stamps op op1 :
  stampable op = true ->
  wide_operation (VObj op) = Ok op1 ->
  exists op',
    op1 = VObj op'
    /\ lookup_path (VObj op') ["x-mint"; "metadata"; "mode"] = Some (VStr "wide")
    /\ (forall k, k <> "x-mint" -> assoc k op' = assoc k op)
    /\ (forall xprops,
          assoc "x-mint" op = Some (VObj xprops) ->
          exists xprops',
            assoc "x-mint" op' = Some (VObj xprops')
            /\ (forall k, k <> "metadata" -> assoc k xprops' = assoc k xprops)
            /\ (forall mprops,
                  assoc "metadata" xprops = Some (VObj mprops) ->
                  exists mprops',
                    assoc "metadata" xprops' = Some (VObj mprops')
                    /\ forall k, k <> "mode" -> assoc k mprops' = assoc k mprops)).
Proof.
  unfold stampable, wide_operation. intros Hst H.
  set (xm := match assoc "x-mint" op with
             | Some xm => if truthy xm then xm else VObj []
             | None => VObj []
             end) in *.
  assert (Hxm : exists xp, xm = VObj xp /\
            (forall xprops, assoc "x-mint" op = Some (VObj xprops) -> xp = xprops) /\
            match assoc "metadata" xp with
            | Some md => negb (truthy md) || is_mapping md = true
            | None => True
            end).
  { subst xm. destruct (assoc "x-mint" op) as [x|].
    - destruct (truthy x) eqn:T; simpl in Hst.
      + destruct x; try discriminate. exists props. split; [reflexivity|].
        split; [intros ? [= ->]; reflexivity|].
        destruct (assoc "metadata" props); auto.
      + exists []. split; [reflexivity|]. split; [|exact I].
        intros xprops [= ->]. discriminate.
    - exists []. split; [reflexivity|]. split; [discriminate|exact I]. }
  destruct Hxm as (xp & -> & Hpre & Hmd).
  simpl in H. injection H as <-.
  set (md := match assoc "metadata" xp with
             | Some md => if truthy md then md else VObj []
             | None => VObj []
             end).
  assert (Hmd' : exists mp, md = VObj mp /\
            (forall mprops, assoc "metadata" xp = Some (VObj mprops) -> mp = mprops)).
  { subst md. destruct (assoc "metadata" xp) as [m|].
    - destruct (truthy m) eqn:T; simpl in Hmd.
      + destruct m; try discriminate. exists props. split; [reflexivity|].
        intros ? [= ->]; reflexivity.
      + exists []. split; [reflexivity|]. intros ? [= ->]. discriminate.
    - exists []. split; [reflexivity|]. discriminate. }
  destruct Hmd' as (mp & -> & Hprem).
  eexists. split; [reflexivity|]. split; [|split].
  - unfold lookup_path, oget, get. rewrite assoc_set_key_eq.
    rewrite assoc_set_key_eq. unfold set_mode, put. rewrite assoc_set_key_eq. reflexivity.
  - intros k Hk. apply assoc_set_key_ne. congruence.
  - intros xprops Hx. rewrite assoc_set_key_eq. eexists. split; [reflexivity|].
    rewrite (Hpre _ Hx). split.
    + intros k Hk. apply assoc_set_key_ne. congruence.
    + intros mprops Hm. rewrite assoc_set_key_eq. unfold set_mode, put.
      eexists. split; [reflexivity|].
      rewrite <- (Hpre _ Hx) in Hm. rewrite (Hprem _ Hm).
      intros k Hk. apply assoc_set_key_ne. congruence.
Qed.

Lemma stamped_operation spec spec' paths p item m op :
  ensureWideMode spec = Ok spec' ->
  get spec "paths" = Some paths ->
  get paths p = Some item ->
  In m OPERATION_METHODS ->
  get item m = Some (VObj op) ->
  stampable op = true ->
  exists op',
    lookup_path spec' ["paths"; p; m] = Some (VObj op')
    /\ lookup_path (VObj op') ["x-mint"; "metadata"; "mode"] = Some (VStr "wide")
    /\ (forall k, k <> "x-mint" -> assoc k op' = assoc k op)
    /\ (forall xprops,
          assoc "x-mint" op = Some (VObj xprops) ->
          exists xprops',
            assoc "x-mint" op' = Some (VObj xprops')
            /\ (forall k, k <> "metadata" -> assoc k xprops' = assoc k xprops)
            /\ (forall mprops,
                  assoc "metadata" xprops = Some (VObj mprops) ->
                  exists mprops',
                    assoc "metadata" xprops' = Some (VObj mprops')
                    /\ forall k, k <> "mode" -> assoc k mprops' = assoc k mprops)).
Proof.
  intros Hrun Hpaths Hitem Hm Hop Hst.
  (* the path item is a mapping, and stamping it stamps [op] *)
  assert (Hitem' : forall item',
            wide_path_item item = Ok item' ->
            exists op1, wide_operation (VObj op) = Ok op1 /\ get item' m = Some op1).
  { intros item' Hw. destruct item as [| | | |elems|iprops]; try discriminate.
    - simpl in Hop. rewrite (method_is_no_index _ Hm) in Hop. discriminate.
    - simpl in Hw. apply bind_Ok in Hw as (props' & Hmap & [= <-]).
      destruct (map_outcome_assoc _ wide_entry_key _ _ _ _ Hmap Hop) as (v' & Hf & Hv').
      unfold wide_entry in Hf. rewrite (method_existsb _ Hm) in Hf. simpl in Hf.
      apply bind_Ok in Hf as (op1 & Hwide & [= <-]). eauto. }
  destruct spec as [| | | |selems|sprops]; try discriminate.
  unfold ensureWideMode in Hrun. rewrite Hpaths in Hrun.
  assert (Hobj : negb (truthy paths) || negb (is_object paths) = false).
  { destruct paths; try discriminate; reflexivity. }
  rewrite Hobj in Hrun.
  assert (Hgoal : exists item', wide_path_item item = Ok item'
                    /\ lookup_path spec' ["paths"; p] = Some item').
  { destruct paths as [| | | |items|items]; try discriminate.
    - apply bind_Ok in Hrun as (items' & Hmap & [= <-]).
      simpl in Hitem. destruct (index_of_key p) as [i|] eqn:Ei; [|discriminate].
      destruct (map_outcome_nth _ _ _ _ _ Hmap Hitem) as (item' & Hw & Hn).
      exists item'. split; [exact Hw|].
      simpl. rewrite assoc_set_key_eq. simpl. rewrite Ei, Hn. reflexivity.
    - apply bind_Ok in Hrun as (items' & Hmap & [= <-]).
      simpl in Hitem.
      destruct (map_outcome_assoc _ wide_path_property_key _ _ _ _ Hmap Hitem)
        as (item' & Hf & Hn).
      unfold wide_path_property in Hf. simpl in Hf.
      apply bind_Ok in Hf as (item1 & Hw & [= <-]).
      exists item1. split; [exact Hw|].
      simpl. rewrite assoc_set_key_eq. simpl. rewrite Hn. reflexivity. }
  destruct Hgoal as (item' & Hw & Hlook).
  destruct (Hitem' _ Hw) as (op1 & Hwide & Hget).
  destruct (wide_operation_stamps _ _ Hst Hwide) as (op' & -> & Hmode & Hrest).
  exists op'. split; [|split; [exact Hmode|exact Hrest]].
  change ["paths"; p; m] with (["paths"; p] ++ [m]).
  assert (Happ : forall t a b, lookup_path t (a ++ b) =
            match lookup_path t a with Some t' => lookup_path t' b | None => None end).
  { intros t a. revert t. induction a as [|k a IH]; intros t b; [reflexivity|].
    cbn [lookup_path app]. destruct (oget (Some t) k); auto. }
  rewrite Happ, Hlook. simpl.
  assert (item' <> VNull) by (destruct item'; simpl in Hget; congruence).
  destruct item'; try congruence; rewrite Hget; reflexivity.
Qed.

(** C9 as the code has it: after [ensureWideMode], every operation of a path
    item that is a mapping, and whose [x-mint] and [x-mint.metadata] are
    falsy or mappings, has [x-mint.metadata.mode] equal to [wide]; its other
    keys, the other keys of an [x-mint] mapping it had and the other keys of a
    [metadata] mapping inside that are as before. *)
Theorem ensureWideMode_stamps_operations spec spec' paths p item m op :
  ensureWideMode spec = Ok spec' ->
  get spec "paths" = Some paths ->
  get paths p = Some item ->
  In m OPERATION_METHODS ->
  get item m = Some (VObj op) ->
  stampable op = true ->
  exists op',
    lookup_path spec' ["paths"; p; m] = Some (VObj op')
    /\ lookup_path (VObj op') ["x-mint"; "metadata"; "mode"] = Some (VStr "wide")
    /\ (forall k, k <> "x-mint" -> assoc k op' = assoc k op)
    /\ (forall xprops,
          assoc "x-mint" op = Some (VObj xprops) ->
          exists xprops',
            assoc "x-mint" op' = Some (VObj xprops')
            /\ (forall k, k <> "metadata" -> assoc k xprops' = assoc k xprops)
            /\ (forall mprops,
                  assoc "metadata" xprops = Some (VObj mprops) ->
                  exists mprops',
                    assoc "metadata" xprops' = Some (VObj mprops')
                    /\ forall k, k <> "mode" -> assoc k mprops' = assoc k mprops)).
Proof.
  apply stamped_operation.
Qed.

Lemma ensureWideMode_stamps_linked_operation :
  ensureWideMode linked_operation_doc = Ok linked_operation_out
  /\ stampable [("summary", VStr "list"); ("x-mint", VObj [("href", VStr "/list")])] = true
  /\ exists op',
       lookup_path linked_operation_out ["paths"; "/a"; "get"] = Some (VObj op')
       /\ lookup_path (VObj op') ["x-mint"; "metadata"; "mode"] = Some (VStr "wide").
Proof.
  split; [reflexivity|]. split; [reflexivity|].
  destruct (ensureWideMode_stamps_operations
              linked_operation_doc linked_operation_out
              (VObj [("/a", VObj [("get", VObj [
                 ("summary", VStr "list");
                 ("x-mint", VObj [("href", VStr "/list")])])])])
              "/a"
              (VObj [("get", VObj [
                 ("summary", VStr "list");
                 ("x-mint", VObj [("href", VStr "/list")])])])
              "get"
              [("summary", VStr "list"); ("x-mint", VObj [("href", VStr "/list")])]
              eq_refl eq_refl eq_refl (or_introl eq_refl) eq_refl eq_refl)
    as (op' & H1 & H2 & _).
  exists op'. split; assumption.
Defined.

(** C9 as stated fails when [x-mint.metadata] is a string: the assignment of
    [mode] to a primitive is ignored, and the operation is written without it. *)
Lemma mode_is_not_set_on_text_metadata :
  main text_metadata_doc = Ok text_metadata_doc
  /\ lookup_path text_metadata_doc ["paths"; "/a"; "get"]
     = Some (VObj [("x-mint", VObj [("metadata", VStr "full")])])
  /\ lookup_path text_metadata_doc ["paths"; "/a"; "get"; "x-mint"; "metadata"]
     = Some (VStr "full")
  /\ lookup_path text_metadata_doc ["paths"; "/a"; "get"; "x-mint"; "metadata"; "mode"]
     = None.
Proof. repeat split; vm_compute; reflexivity. Qed.

(* ------------------------------------------------------------------ *)
(** ** Missing schema names (C8) *)
(* ------------------------------------------------------------------ *)

Lemma length_append s1 s2 :
  String.length (s1 +:+ s2) = String.length s1 + String.length s2.
Proof.
  induction s1 as [|a s1 IH]; [reflexivity|].
  rewrite append_cons. simpl. rewrite IH. reflexivity.
Qed.

Lemma append_inj_r t : forall s1 s2, s1 +:+ t = s2 +:+ t -> s1 = s2.
Proof.
  induction s1 as [|a s1 IH]; intros [|b s2] H.
  - reflexivity.
  - exfalso. apply (f_equal String.length) in H.
    rewrite !length_append in H. simpl in H. lia.
  - exfalso. apply (f_equal String.length) in H.
    rewrite !length_append in H. simpl in H. lia.
  - rewrite !append_cons in H. injection H as -> H. f_equal. auto.
Qed.

Lemma file_name_eqb n name :
  (n +:+ ".mdx" =? name +:+ ".mdx") = (n =? name).
Proof.
  destruct (n =? name) eqn:E.
  - apply String.eqb_eq in E. subst. apply String.eqb_refl.
  - apply String.eqb_neq. apply String.eqb_neq in E.
    intros H. apply E. eapply append_inj_r. exact H.
Qed.

Lemma lookup_path3 spec a b c :
  lookup_path spec [a; b; c] = oget (oget (oget (Some spec) a) b) c.
Proof.
  cbn [lookup_path]. destruct (oget (Some spec) a) as [x|]; [|reflexivity].
  destruct (oget (Some x) b) as [y|]; [|reflexivity].
  destruct (oget (Some y) c); reflexivity.
Qed.

(** C8 as the code has it: on a document that is not [null] and whose
    [components.schemas], if there is one, is a mapping, a requested name
    with no entry there, other than the name of a member that every mapping
    inherits, and whose file can be written, gets the not-found marker, and
    the files written for the other names, and the way the run ends, are
    those of the run without that name. *)
Theorem missing_schema_yields_marker fs fuel spec schemaNames name :
  spec <> VNull ->
  schemas_of_a_mapping spec = true ->
  lookup_path spec ["components"; "schemas"; name] = None ->
  inherited name = false ->
  writeFileSync fs (name +:+ ".mdx") = true ->
  schemaToMintlify fuel spec name = Ok (not_found name)
  /\ write_snippets fs fuel spec (List.filter (fun n => negb (n =? name)) schemaNames)
     = (List.filter (fun file => negb (fst file =? name +:+ ".mdx"))
          (fst (write_snippets fs fuel spec schemaNames)),
        snd (write_snippets fs fuel spec schemaNames)).
Proof.
  intros Hspec _ Hmissing Hname Hwrite.
  assert (Hmarker : schemaToMintlify fuel spec name = Ok (not_found name)).
  { rewrite lookup_path3 in Hmissing. unfold schemaToMintlify, named_member.
    assert (Hc : oget (Some spec) "components" = get spec "components")
      by (destruct spec; try reflexivity; congruence).
    rewrite Hc in Hmissing. rewrite Hmissing, Hname.
    destruct spec; try congruence;
      destruct (oget _ "schemas") as [[| | | | |]|]; reflexivity. }
  split; [exact Hmarker|].
  induction schemaNames as [|n rest IH]; [reflexivity|].
  cbn [List.filter write_snippets].
  destruct (n =? name) eqn:E.
  - apply String.eqb_eq in E. subst n. rewrite Hmarker, Hwrite. cbn [negb].
    destruct (write_snippets fs fuel spec rest) as [files status] eqn:Hrest.
    cbn [fst snd List.filter]. rewrite String.eqb_refl. cbn [negb]. exact IH.
  - cbn [negb write_snippets].
    destruct (schemaToMintlify fuel spec n) as [mdx| |]; try reflexivity.
    destruct (writeFileSync fs (n +:+ ".mdx")); [|reflexivity].
    rewrite IH.
    destruct (write_snippets fs fuel spec rest) as [files status].
    cbn [fst snd List.filter]. rewrite file_name_eqb, E. reflexivity.
Qed.

Lemma missing_schema_among_others :
  shifts_spec <> VNull
  /\ schemas_of_a_mapping shifts_spec = true
  /\ lookup_path shifts_spec ["components"; "schemas"; "nope"] = None
  /\ inherited "nope" = false
  /\ writeFileSync flat_directory ("nope" +:+ ".mdx") = true
  /\ schemaToMintlify 3 shifts_spec "nope" = Ok (not_found "nope")
  /\ fst (write_snippets flat_directory 3 shifts_spec ["id"; "nope"; "shift"])
     = [("id.mdx", "<ResponseField name=" +:+ QUOTE +:+ "id" +:+ QUOTE
                   +:+ " type=" +:+ QUOTE +:+ "string (uuid)" +:+ QUOTE +:+ ">"
                   +:+ NEWLINE +:+ "</ResponseField>" +:+ NEWLINE);
        ("nope.mdx", not_found "nope");
        ("shift.mdx", "<ResponseField name=" +:+ QUOTE +:+ "shift" +:+ QUOTE
                      +:+ " type=" +:+ QUOTE +:+ "object" +:+ QUOTE +:+ ">"
                      +:+ NEWLINE
                      +:+ "  <Expandable title=" +:+ QUOTE +:+ "properties" +:+ QUOTE +:+ ">"
                      +:+ NEWLINE
                      +:+ "    <ResponseField name=" +:+ QUOTE +:+ "start" +:+ QUOTE
                      +:+ " type=" +:+ QUOTE +:+ "string" +:+ QUOTE +:+ ">"
                      +:+ NEWLINE +:+ "      " +:+ NEWLINE
                      +:+ "    </ResponseField>" +:+ NEWLINE
                      +:+ "  </Expandable>" +:+ NEWLINE
                      +:+ "</ResponseField>" +:+ NEWLINE)]
  /\ write_snippets flat_directory 3 shifts_spec ["id"; "shift"]
     = (List.filter (fun file => negb (fst file =? "nope" +:+ ".mdx"))
          (fst (write_snippets flat_directory 3 shifts_spec ["id"; "nope"; "shift"])),
        snd (write_snippets flat_directory 3 shifts_spec ["id"; "nope"; "shift"])).
Proof.
  split; [discriminate|]. split; [reflexivity|]. split; [reflexivity|].
  split; [reflexivity|]. split; [reflexivity|].
  destruct (missing_schema_yields_marker flat_directory 3 shifts_spec
              ["id"; "nope"; "shift"] "nope"
              ltac:(discriminate) eq_refl eq_refl eq_refl eq_refl)
    as [Hmarker Hothers].
  split; [exact Hmarker|]. split; [vm_compute; reflexivity|exact Hothers].
Defined.

(** A name that the mapping of schemas inherits is found, though the document
    has no entry for it: the snippet is a node without description. *)
Example inherited_name_is_found :
  lookup_path shifts_spec ["components"; "schemas"; "toString"] = None
  /\ schemaToMintlify 3 shifts_spec "toString"
     = Ok ("<ResponseField name=" +:+ QUOTE +:+ "toString" +:+ QUOTE
           +:+ " type=" +:+ QUOTE +:+ "toString" +:+ QUOTE +:+ ">" +:+ NEWLINE
           +:+ "</ResponseField>" +:+ NEWLINE).
Proof. split; reflexivity. Qed.

(** C8 as stated fails on the empty document: [yaml.parse] gives [null],
    no name has an entry, and the first lookup throws before any file is
    written. *)
Lemma missing_schema_in_empty_document :
  lookup_path VNull ["components"; "schemas"; "employee"] = None
  /\ schemaToMintlify 1 VNull "employee" = Throw
  /\ SchemaToMintlify.main working_file_system 1 ["employee"; "shift"] VNull
     = ([], Throw).
Proof. repeat split. Qed.

(* ------------------------------------------------------------------ *)
(** ** Render Nodes of an object schema (C6) *)
(* ------------------------------------------------------------------ *)

Lemma set_has_In required name :
  set_has required name = true <-> In (VStr name) required.
Proof.
  unfold set_has. rewrite existsb_exists. split.
  - intros (e & Hin & He). destruct e; try discriminate.
    simpl in He. apply String.eqb_eq in He. subst. exact Hin.
  - intros Hin. exists (VStr name). split; [exact Hin|]. simpl. apply String.eqb_refl.
Qed.

Lemma array_type_string_truthy spec schema : truthy (array_type_string spec schema) = true.
Proof.
  unfold array_type_string.
  match goal with |- truthy (if ?c then _ else _) = true => destruct c end; reflexivity.
Qed.

Lemma plain_type_string_truthy spec schema refName :
  truthy (plain_type_string spec schema refName) = true.
Proof.
  unfold plain_type_string.
  destruct (is_string (rawType_of schema) "array"); [apply array_type_string_truthy|].
  destruct (is_string (rawType_of schema) "object"); [reflexivity|].
  destruct (rawType_of schema) as [t|] eqn:Hraw.
  - destruct (is_string (Some t) "string" || is_string (Some t) "integer"
              || is_string (Some t) "number" || is_string (Some t) "boolean") eqn:E.
    + destruct t as [| | |s| |]; try discriminate E. simpl in E.
      repeat (apply orb_true_iff in E as [E|E]);
        apply String.eqb_eq in E; subst s; reflexivity.
    + destruct refName as [r|]; [destruct (truthy r) eqn:Hr; [exact Hr|]|];
        destruct (truthy t) eqn:Ht; auto.
  - cbn [is_string orb]. destruct refName as [r|]; [|reflexivity].
    destruct (truthy r) eqn:Hr; [exact Hr|reflexivity].
Qed.

Lemma type_string_is_truthy spec schema refName typeStr :
  getTypeString spec schema refName = Ok typeStr -> truthy typeStr = true.
Proof.
  unfold getTypeString. intros H.
  destruct (negb (truthy schema)); [injection H as <-; reflexivity|].
  destruct (get schema "enum") as [e|].
  - destruct (truthy e).
    + destruct e; try discriminate H. injection H as <-. reflexivity.
    + injection H as <-. apply plain_type_string_truthy.
  - injection H as <-. apply plain_type_string_truthy.
Qed.

(** The first line of a field, for a type string that is not empty. *)
Lemma field_open_text indent name typeStr required :
  truthy typeStr = true ->
  field_open indent name typeStr required
  = indent +:+ "<ResponseField name=" +:+ QUOTE +:+ name +:+ QUOTE
    +:+ " type=" +:+ QUOTE +:+ ToString typeStr +:+ QUOTE
    +:+ (if required then " required" else EmptyString) +:+ ">".
Proof.
  intros H. unfold field_open, typeAttr, requiredAttr. rewrite H.
  rewrite !append_assoc_string. reflexivity.
Qed.

Lemma property_lines_block recur spec required indent name propSchema block :
  property_lines recur spec required indent (name, propSchema) = Ok block ->
  node_block indent name (set_has required name) block.
Proof.
  unfold property_lines. intros H.
  apply bind_Ok in H as (typeStr & Htype & H).
  apply type_string_is_truthy in Htype.
  match type of H with
  | (if ?c then _ else _) = _ => destruct c
  end.
  - apply bind_Ok in H as (inner & _ & [= <-]).
    rewrite (field_open_text _ _ _ _ Htype).
    apply expanded_node. left. reflexivity.
  - match type of H with
    | (if ?c then _ else _) = _ => destruct c
    end.
    + apply bind_Ok in H as (arrTypeStr & Harr & H).
      apply type_string_is_truthy in Harr.
      apply bind_Ok in H as (inner & _ & [= <-]).
      rewrite (field_open_text _ _ _ _ Harr).
      apply expanded_node. right. reflexivity.
    + injection H as <-. rewrite (field_open_text _ _ _ _ Htype). apply plain_node.
Qed.

Lemma map_outcome_Forall2 {A B} (f : A -> outcome B) (R : A -> B -> Prop) :
  (forall a b, f a = Ok b -> R a b) ->
  forall l l', map_outcome f l = Ok l' -> Forall2 R l l'.
Proof.
  intros HR. induction l as [|a l IH]; intros l' H; simpl in H.
  - injection H as <-. constructor.
  - apply bind_Ok in H as (b & Hf & H).
    apply bind_Ok in H as (bs & Hmap & [= <-]).
    constructor; auto.
Qed.

(** The text that [schemaToExpandableContent] returns for an object schema
    joins one block of lines per property, in the order of [Object.entries]. *)
Lemma blocks_of_properties fuel spec schema schemaName indent out props required :
  let resolved := resolveSchema spec schema in
  (is_string (get resolved "type") "object" = true
   \/ exists types, get resolved "type" = Some (VArr types) /\ In (VStr "object") types) ->
  get resolved "properties" = Some (VObj props) ->
  (get resolved "required" = Some (VArr required)
   \/ (get resolved "required" = None /\ required = [])) ->
  schemaToExpandableContent fuel spec schema schemaName indent = Ok out ->
  exists blocks,
    out = join NEWLINE (concat blocks)
    /\ Forall2
         (fun prop block =>
            exists flag,
              node_block indent (fst prop) flag block
              /\ (flag = true <-> In (VStr (fst prop)) required))
         props blocks.
Proof.
  intros resolved Hobject Hprops Hrequired Hrun.
  destruct fuel as [|fuel]; [discriminate|].
  cbn [schemaToExpandableContent] in Hrun. fold resolved in Hrun.
  rewrite (get_Some_truthy _ _ _ Hprops), Hprops in Hrun. cbn [negb] in Hrun.
  assert (HisObject :
            is_string (get resolved "type") "object"
            || match get resolved "type" with
               | Some (VArr types) => existsb (fun t => is_string (Some t) "object") types
               | _ => false
               end = true).
  { destruct Hobject as [->|(types & -> & Hin)]; [reflexivity|].
    apply orb_true_iff. right. apply existsb_exists.
    exists (VStr "object"). split; [exact Hin|reflexivity]. }
  rewrite HisObject in Hrun. cbn in Hrun.
  assert (Hset : required_set (get resolved "required") = Ok required).
  { destruct Hrequired as [->|[-> ->]]; reflexivity. }
  rewrite Hset in Hrun. cbn [bind] in Hrun.
  apply bind_Ok in Hrun as (blocks & Hmap & [= <-]).
  exists blocks. split; [reflexivity|].
  eapply map_outcome_Forall2; [|exact Hmap].
  intros [name propSchema] block Hblock. cbn [fst].
  exists (set_has required name). split.
  - eapply property_lines_block. exact Hblock.
  - apply set_has_In.
Qed.




(** The example of the specification: properties [a], [b], [c] declared in
    that order, of which [a] and [c] are required. *)
Lemma nodes_of_a_b_c fuel spec a b c sa sb sc schemaName indent out :
  a <> b -> b <> c ->
  schemaToExpandableContent fuel spec
    (VObj [("type", VStr "object");
           ("required", VArr [VStr a; VStr c]);
           ("properties", VObj [(a, sa); (b, sb); (c, sc)])])
    schemaName indent = Ok out ->
  exists block_a block_b block_c,
    out = join NEWLINE (block_a ++ block_b ++ block_c)
    /\ node_block indent a true block_a
    /\ node_block indent b false block_b
    /\ node_block indent c true block_c.
Proof.
  intros Hab Hbc Hrun.
  destruct (blocks_of_properties fuel spec
              (VObj [("type", VStr "object");
                     ("required", VArr [VStr a; VStr c]);
                     ("properties", VObj [(a, sa); (b, sb); (c, sc)])])
              schemaName indent out
              [(a, sa); (b, sb); (c, sc)] [VStr a; VStr c]
              (or_introl eq_refl) eq_refl (or_introl eq_refl) Hrun)
    as (blocks & -> & Hall).
  inversion Hall as [|? block_a ? rest1 (fa & Ha & Hfa) Hall1]; subst.
  inversion Hall1 as [|? block_b ? rest2 (fb & Hb & Hfb) Hall2]; subst.
  inversion Hall2 as [|? block_c ? rest3 (fc & Hc & Hfc) Hall3]; subst.
  inversion Hall3; subst.
  exists block_a, block_b, block_c. cbn [concat fst] in *.
  rewrite app_nil_r. split; [reflexivity|].
  assert (fa = true) as -> by (apply Hfa; left; reflexivity).
  assert (fc = true) as -> by (apply Hfc; right; left; reflexivity).
  assert (fb = false) as ->.
  { destruct fb; [|reflexivity]. exfalso.
    destruct (proj1 Hfb eq_refl) as [E|[E|[]]]; injection E; congruence. }
  auto.
Qed.


(* ------------------------------------------------------------------ *)
(** ** The Filter: what it keeps (C1, C4) *)
(* ------------------------------------------------------------------ *)

(* ------------------------------------------------------------------ *)
(** ** Lookups in mappings *)
(* ------------------------------------------------------------------ *)

Lemma assoc_In k v props : assoc k props = Some v -> In (k, v) props.
Proof.
  induction props as [|[k' v'] rest IH]; simpl; [discriminate|].
  destruct (k =? k') eqn:E.
  - apply String.eqb_eq in E. intros [= ->]. left. congruence.
  - auto.
Qed.

Lemma assoc_None_keys k props :
  existsb (String.eqb k) (map fst props) = false -> assoc k props = None.
Proof.
  induction props as [|[k' v'] rest IH]; simpl; [reflexivity|].
  intros H. apply orb_false_iff in H as [-> H]. auto.
Qed.

Lemma assoc_remove_key_eq d props : assoc d (remove_key d props) = None.
Proof.
  induction props as [|[k v] rest IH]; simpl; [reflexivity|].
  destruct (k =? d) eqn:E; simpl; [exact IH|].
  rewrite String.eqb_sym, E. exact IH.
Qed.

Lemma assoc_remove_key_ne d k props :
  k <> d -> assoc k (remove_key d props) = assoc k props.
Proof.
  intros Hne. induction props as [|[k' v] rest IH]; simpl; [reflexivity|].
  destruct (k' =? d) eqn:E; simpl.
  - apply String.eqb_eq in E. subst k'.
    apply String.eqb_neq in Hne. rewrite Hne. exact IH.
  - destruct (k =? k'); auto.
Qed.

Lemma no_key_assoc d props :
  existsb (fun kv : string * tree => fst kv =? d) props = false <-> assoc d props = None.
Proof.
  induction props as [|[k v] rest IH]; simpl; [tauto|].
  rewrite (String.eqb_sym k d). destruct (d =? k); simpl; [split; discriminate|exact IH].
Qed.

Lemma remove_key_absent d props :
  existsb (fun kv : string * tree => fst kv =? d) props = false -> remove_key d props = props.
Proof.
  induction props as [|[k v] rest IH]; simpl; [reflexivity|].
  intros H. apply orb_false_iff in H as [-> H]. simpl. f_equal. auto.
Qed.

Lemma remove_key_no_key d props :
  existsb (fun kv : string * tree => fst kv =? d) (remove_key d props) = false.
Proof.
  induction props as [|[k v] rest IH]; simpl; [reflexivity|].
  destruct (k =? d) eqn:E; simpl; [exact IH|]. rewrite E. exact IH.
Qed.

(* ------------------------------------------------------------------ *)
(** ** The shape of what stripDeprecated returns *)
(* ------------------------------------------------------------------ *)

Lemma stripDeprecated_mapping props names :
  stripDeprecated (VObj props) names = VObj (kept_props names props).
Proof.
  simpl. f_equal. induction props as [|[k v] rest IH]; simpl; [reflexivity|].
  destruct (marked_deprecated v); [exact IH|].
  destruct (isRefToDeprecatedSchema v names); [exact IH|].
  f_equal. exact IH.
Qed.

Lemma stripped_string v names s :
  delete_deprecated (stripDeprecated v names) = VStr s -> v = VStr s.
Proof. destruct v; simpl; intros H; try discriminate; exact H. Qed.

Lemma stripped_true v names :
  delete_deprecated (stripDeprecated v names) = VBool true -> v = VBool true.
Proof. destruct v; simpl; intros H; try discriminate; exact H. Qed.

Lemma stripped_mapping v names props' :
  delete_deprecated (stripDeprecated v names) = VObj props' ->
  exists props, v = VObj props.
Proof. destruct v; simpl; intros H; try discriminate; eauto. Qed.

(** With distinct keys, a property of the result is the stripped property
    of the input, when that one was kept. *)
Lemma assoc_kept_props names k props :
  distinct (map fst props) = true ->
  assoc k (kept_props names props) =
    match assoc k props with
    | Some v =>
        if marked_deprecated v || isRefToDeprecatedSchema v names then None
        else Some (delete_deprecated (stripDeprecated v names))
    | None => None
    end.
Proof.
  induction props as [|[k0 v0] rest IH]; simpl; [reflexivity|].
  intros Hd. apply andb_true_iff in Hd as [Hfresh Hd].
  apply negb_true_iff in Hfresh. specialize (IH Hd).
  destruct (k =? k0) eqn:E.
  - apply String.eqb_eq in E. subst k0.
    rewrite (assoc_None_keys _ _ Hfresh) in IH.
    destruct (marked_deprecated v0); simpl; [exact IH|].
    destruct (isRefToDeprecatedSchema v0 names); simpl; [exact IH|].
    rewrite String.eqb_refl. reflexivity.
  - destruct (marked_deprecated v0); simpl; [exact IH|].
    destruct (isRefToDeprecatedSchema v0 names); simpl; [exact IH|].
    rewrite E. exact IH.
Qed.

Lemma wf_mapping props : wf (VObj props) -> distinct (map fst props) = true.
Proof.
  unfold wf. simpl. intros H. apply andb_true_iff in H as [H _].
  apply andb_true_iff in H. tauto.
Qed.

Lemma wf_property props k v : wf (VObj props) -> In (k, v) props -> wf v.
Proof.
  unfold wf. simpl. intros H Hin. apply andb_true_iff in H as [_ H].
  rewrite forallb_forall in H. exact (H _ Hin).
Qed.

Lemma wf_element elems v : wf (VArr elems) -> In v elems -> wf v.
Proof. unfold wf. simpl. intros H Hin. rewrite forallb_forall in H. auto. Qed.

(** A string under a key of the stripped mapping is that string in the input. *)
Lemma get_stripped_string names v k s :
  wf v ->
  get (delete_deprecated (stripDeprecated v names)) k = Some (VStr s) ->
  get v k = Some (VStr s).
Proof.
  intros Hwf. destruct v as [| | | |elems|props]; try discriminate.
  - simpl. destruct (index_of_key k) as [i|]; [|discriminate].
    rewrite nth_error_map. destruct (nth_error elems i) as [e|]; [|discriminate].
    simpl. intros [= H]. f_equal. destruct e; simpl in H; try discriminate; exact H.
  - rewrite stripDeprecated_mapping. simpl.
    destruct (String.eqb_spec k "deprecated") as [->|Hne].
    + rewrite assoc_remove_key_eq. discriminate.
    + rewrite (assoc_remove_key_ne _ _ _ Hne).
      rewrite (assoc_kept_props _ _ _ (wf_mapping _ Hwf)).
      destruct (assoc k props) as [v|]; [|discriminate].
      destruct (marked_deprecated v || isRefToDeprecatedSchema v names); [discriminate|].
      intros [= H]. f_equal. eapply stripped_string. exact H.
Qed.

(* ------------------------------------------------------------------ *)
(** ** What isRefToDeprecatedSchema reads *)
(* ------------------------------------------------------------------ *)

Lemma getSchemaNameFromRef_string ref name :
  getSchemaNameFromRef ref = Some name ->
  exists s, ref = Some (VStr s) /\ truthy (VStr s) = true.
Proof.
  destruct ref as [[| | |s| |]|]; simpl; try discriminate.
  destruct (s =? EmptyString) eqn:E; [discriminate|].
  intros _. exists s. simpl. rewrite E. auto.
Qed.

Lemma has_name_Some names o :
  has_name names o = true -> exists n, o = Some n /\ n ∈ names.
Proof.
  destruct o as [n|]; simpl; [|discriminate].
  intros H. apply bool_decide_eq_true in H. eauto.
Qed.

Lemma has_name_intro names n : n ∈ names -> has_name names (Some n) = true.
Proof. intros H. simpl. apply bool_decide_eq_true. exact H. Qed.

Lemma names_not_empty (names : gset string) n :
  n ∈ names -> bool_decide (size names = 0) = false.
Proof.
  intros Hin. apply bool_decide_eq_false. intros Hsize.
  apply size_empty_inv in Hsize. set_solver.
Qed.

(** The two ways in which a value refers to a deprecated schema. *)
Lemma isRefToDeprecatedSchema_true val names :
  isRefToDeprecatedSchema val names = true <->
  is_mapping val = true /\
  exists n, n ∈ names /\
    (getSchemaNameFromRef (get val "$ref") = Some n
     \/ (get val "type" = Some (VStr "array")
         /\ exists items,
              get val "items" = Some items
              /\ getSchemaNameFromRef (get items "$ref") = Some n)).
Proof.
  unfold isRefToDeprecatedSchema. split.
  - destruct (is_mapping val) eqn:Hm;
      [|cbn [negb]; rewrite orb_true_r; cbn [orb]; discriminate].
    destruct val as [| | | | |props]; try discriminate Hm.
    cbn [truthy is_mapping negb orb].
    destruct (bool_decide (size names = 0)); [discriminate|].
    destruct (has_name names (getSchemaNameFromRef (get (VObj props) "$ref"))) eqn:Hd.
    + intros _. split; [reflexivity|].
      apply has_name_Some in Hd as (n & Hn & Hin). eauto.
    + destruct (is_string (get (VObj props) "type") "array") eqn:Ht; [|discriminate].
      destruct (get (VObj props) "items") as [items|] eqn:Hi; [|discriminate].
      cbn [otruthy andb].
      destruct (truthy items) eqn:Htr; [|discriminate].
      destruct (is_object items) eqn:Hob; [|discriminate]. cbn [andb].
      destruct (otruthy (oget (Some items) "$ref")); [|discriminate].
      intros H. split; [reflexivity|].
      apply has_name_Some in H as (n & Hn & Hin). exists n. split; [exact Hin|].
      right. split.
      * destruct (get (VObj props) "type") as [[| | |s| |]|]; try discriminate.
        simpl in Ht. apply String.eqb_eq in Ht. congruence.
      * exists items. split; [reflexivity|].
        destruct items; try discriminate; exact Hn.
  - intros (Hm & n & Hin & H).
    destruct val as [| | | | |props]; try discriminate.
    cbn [truthy is_mapping negb orb].
    rewrite (names_not_empty _ _ Hin).
    destruct (has_name names (getSchemaNameFromRef (get (VObj props) "$ref"))) eqn:Hd;
      [reflexivity|].
    destruct H as [H|(Ht & items & Hi & H)].
    + rewrite H, (has_name_intro _ _ Hin) in Hd. discriminate.
    + rewrite Ht, Hi. cbn [is_string]. rewrite String.eqb_refl. cbn [otruthy andb].
      destruct (getSchemaNameFromRef_string _ _ H) as (s & Hs & Htr).
      assert (Hobj : exists ip, items = VObj ip).
      { destruct items; simpl in Hs; try discriminate; eauto. }
      destruct Hobj as (ip & ->). cbn [truthy is_object andb oget].
      rewrite Hs. cbn [otruthy]. rewrite Htr.
      rewrite <- Hs, H. apply has_name_intro. exact Hin.
Qed.

Lemma get_string_mapping v k s :
  index_of_key k = None -> get v k = Some (VStr s) -> is_mapping v = true.
Proof.
  intros Hk. destruct v; simpl; try discriminate; [|reflexivity].
  rewrite Hk. discriminate.
Qed.

Lemma isRefToDeprecatedSchema_refines w v names :
  refines w v ->
  isRefToDeprecatedSchema w names = true ->
  isRefToDeprecatedSchema v names = true.
Proof.
  intros (Href & Htype & Hitems) H.
  apply isRefToDeprecatedSchema_true in H as (_ & n & Hin & H).
  apply isRefToDeprecatedSchema_true.
  destruct H as [H|(Ht & items & Hi & H)].
  - destruct (getSchemaNameFromRef_string _ _ H) as (s & Hs & _).
    pose proof (Href _ Hs) as Hv. split.
    + eapply get_string_mapping; [|exact Hv]. reflexivity.
    + exists n. split; [exact Hin|]. left. rewrite Hv, <- Hs. exact H.
  - pose proof (Htype _ Ht) as Hv.
    destruct (getSchemaNameFromRef_string _ _ H) as (s & Hs & _).
    destruct (Hitems _ _ Hi Hs) as (i & Hvi & His). split.
    + eapply get_string_mapping; [|exact Hv]. reflexivity.
    + exists n. split; [exact Hin|]. right. split; [exact Hv|].
      exists i. split; [exact Hvi|]. rewrite His, <- Hs. exact H.
Qed.

Lemma isRefToDeprecatedSchema_mono val (names names' : gset string) :
  names' ⊆ names ->
  isRefToDeprecatedSchema val names' = true ->
  isRefToDeprecatedSchema val names = true.
Proof.
  intros Hsub H. apply isRefToDeprecatedSchema_true in H as (Hm & n & Hin & H).
  apply isRefToDeprecatedSchema_true. split; [exact Hm|].
  exists n. split; [exact (Hsub _ Hin)|exact H].
Qed.

Lemma refines_refl v : refines v v.
Proof. repeat split; eauto. Qed.

(** What stripDeprecated leaves of a value shows no reference that the value
    did not show. *)
Lemma stripped_refines names v :
  wf v -> refines (delete_deprecated (stripDeprecated v names)) v.
Proof.
  intros Hwf. split; [|split].
  - intros s. apply get_stripped_string. exact Hwf.
  - intros s. apply get_stripped_string. exact Hwf.
  - intros i' s Hi' Hs.
    destruct v as [| | | |elems|props]; try discriminate.
    rewrite stripDeprecated_mapping in Hi'. simpl in Hi'.
    rewrite assoc_remove_key_ne in Hi' by discriminate.
    rewrite (assoc_kept_props _ _ _ (wf_mapping _ Hwf)) in Hi'.
    destruct (assoc "items" props) as [i|] eqn:Hi; [|discriminate].
    destruct (marked_deprecated i || isRefToDeprecatedSchema i names); [discriminate|].
    injection Hi' as <-. exists i. split; [exact Hi|].
    eapply get_stripped_string; [|exact Hs].
    eapply wf_property; [exact Hwf|]. eapply assoc_In. exact Hi.
Qed.

(* ------------------------------------------------------------------ *)
(** ** Trees on which stripDeprecated has nothing to do *)
(* ------------------------------------------------------------------ *)

Lemma no_deprecated_key_not_marked v :
  no_deprecated_key v = true -> marked_deprecated v = false.
Proof.
  unfold marked_deprecated. destruct v as [| | | | |props]; simpl; try reflexivity.
  - intros _. destruct b; reflexivity.
  - intros _. destruct (negb (n =? 0)%Z); reflexivity.
  - intros _. destruct (negb (s =? EmptyString)); reflexivity.
  - intros H. apply negb_true_iff, no_key_assoc in H. rewrite H. reflexivity.
Qed.

Lemma kept_intro names v :
  no_deprecated_key v = true ->
  isRefToDeprecatedSchema v names = false ->
  kept names v = true.
Proof.
  intros Hno Href. unfold kept.
  rewrite (no_deprecated_key_not_marked _ Hno), Href, Hno. reflexivity.
Qed.

Lemma kept_elim names v :
  kept names v = true ->
  marked_deprecated v = false
  /\ isRefToDeprecatedSchema v names = false
  /\ no_deprecated_key v = true.
Proof.
  unfold kept. intros H. apply andb_true_iff in H as [H H3].
  apply andb_true_iff in H as [H1 H2].
  apply negb_true_iff in H1, H2. auto.
Qed.

(** A value stays kept under a change that shows no new reference and adds
    no [deprecated] key. *)
Lemma kept_refines names w v :
  refines w v ->
  (no_deprecated_key v = true -> no_deprecated_key w = true) ->
  kept names v = true -> kept names w = true.
Proof.
  intros Href Hno Hk. apply kept_elim in Hk as (_ & Hr & Hn).
  apply kept_intro; [auto|].
  destruct (isRefToDeprecatedSchema w names) eqn:E; [|reflexivity].
  rewrite (isRefToDeprecatedSchema_refines _ _ _ Href E) in Hr. discriminate.
Qed.

Lemma stable_delete_deprecated names v :
  stable names v = true -> stable names (delete_deprecated v) = true.
Proof.
  destruct v as [| | | | |props]; simpl; auto.
  unfold remove_key. induction props as [|[k x] rest IH]; simpl; [reflexivity|].
  intros H. apply andb_true_iff in H as [Hx H].
  destruct (negb (k =? "deprecated")); simpl; [rewrite Hx|]; auto.
Qed.

Lemma no_deprecated_key_delete v : no_deprecated_key (delete_deprecated v) = true.
Proof.
  destruct v as [| | | | |props]; simpl; try reflexivity.
  rewrite remove_key_no_key. reflexivity.
Qed.

(** What [stripDeprecated] returns is stable. *)
Lemma stripDeprecated_stable names t :
  wf t -> stable names (stripDeprecated t names) = true.
Proof.
  induction t as [| | | |elems IH|props IH] using tree_ind; intros Hwf; try reflexivity.
  - simpl. apply forallb_forall. intros x Hx.
    apply in_map_iff in Hx as (e & <- & Hin).
    rewrite List.Forall_forall in IH. apply IH; [exact Hin|].
    eapply wf_element; eauto.
  - rewrite stripDeprecated_mapping. simpl.
    assert (Hall : forall k v, In (k, v) props -> wf v)
      by (intros; eapply wf_property; eauto).
    clear Hwf. induction props as [|[k v] rest IHrest]; simpl; [reflexivity|].
    inversion IH as [|? ? Hv Hrest]; subst. simpl in Hv.
    assert (Hwfv : wf v) by (eapply Hall; left; reflexivity).
    assert (Htail : forallb (fun kv => kept names (snd kv) && stable names (snd kv))
                      (kept_props names rest) = true).
    { apply IHrest; [exact Hrest|]. intros k' v' Hin. eapply Hall. right. exact Hin. }
    destruct (marked_deprecated v) eqn:Hm; [exact Htail|].
    destruct (isRefToDeprecatedSchema v names) eqn:Hr; [exact Htail|].
    simpl. rewrite Htail, andb_true_r. apply andb_true_iff. split.
    + apply kept_intro; [apply no_deprecated_key_delete|].
      destruct (isRefToDeprecatedSchema (delete_deprecated (stripDeprecated v names)) names)
        eqn:E; [|reflexivity].
      rewrite (isRefToDeprecatedSchema_refines _ _ _ (stripped_refines names v Hwfv) E) in Hr.
      discriminate.
    + apply stable_delete_deprecated. auto.
Qed.

(** On a stable tree [stripDeprecated] is the identity. *)
Lemma stripDeprecated_stable_id names t :
  stable names t = true -> stripDeprecated t names = t.
Proof.
  induction t as [| | | |elems IH|props IH] using tree_ind; intros Hst; try reflexivity.
  - simpl in *. f_equal. rewrite forallb_forall in Hst. rewrite List.Forall_forall in IH.
    rewrite <- (map_id elems) at 2. apply map_ext_in. intros e Hin. auto.
  - rewrite stripDeprecated_mapping. f_equal. simpl in Hst.
    induction props as [|[k v] rest IHrest]; simpl; [reflexivity|].
    inversion IH as [|? ? Hv Hrest]; subst. simpl in Hv, Hst.
    apply andb_true_iff in Hst as [Hkv Hst].
    apply andb_true_iff in Hkv as [Hk Hs].
    apply kept_elim in Hk as (-> & -> & Hno).
    rewrite (Hv Hs), (IHrest Hrest Hst). f_equal. f_equal.
    destruct v as [| | | | |vp]; try reflexivity. simpl.
    f_equal. apply remove_key_absent. simpl in Hno. apply negb_true_iff in Hno. exact Hno.
Qed.

Lemma kept_mono (names names' : gset string) v :
  names' ⊆ names -> kept names v = true -> kept names' v = true.
Proof.
  intros Hsub Hk. apply kept_elim in Hk as (_ & Hr & Hno).
  apply kept_intro; [exact Hno|].
  destruct (isRefToDeprecatedSchema v names') eqn:E; [|reflexivity].
  rewrite (isRefToDeprecatedSchema_mono _ _ _ Hsub E) in Hr. discriminate.
Qed.

Lemma stable_mono (names names' : gset string) t :
  names' ⊆ names -> stable names t = true -> stable names' t = true.
Proof.
  intros Hsub. induction t as [| | | |elems IH|props IH] using tree_ind; intros Hst; try reflexivity.
  - simpl in *. rewrite forallb_forall in *. rewrite List.Forall_forall in IH. auto.
  - simpl in *. rewrite forallb_forall in *. rewrite List.Forall_forall in IH.
    intros kv Hin. specialize (Hst _ Hin). apply andb_true_iff in Hst as [Hk Hs].
    rewrite (kept_mono _ _ _ Hsub Hk). simpl. auto.
Qed.

(** Every property value inside a stable tree is kept. *)
Lemma stable_pair_kept names k v t :
  pair_in k v t -> stable names t = true -> kept names v = true.
Proof.
  induction 1 as [props Hin|props k' v' Hin Hp IH|elems v' Hin Hp IH]; simpl; intros Hst.
  - rewrite forallb_forall in Hst. specialize (Hst _ Hin).
    apply andb_true_iff in Hst. tauto.
  - rewrite forallb_forall in Hst. specialize (Hst _ Hin).
    apply andb_true_iff in Hst as [_ Hs]. auto.
  - rewrite forallb_forall in Hst. auto.
Qed.

(* ------------------------------------------------------------------ *)
(** ** ensureWideMode keeps a stable tree stable *)
(* ------------------------------------------------------------------ *)

Lemma stable_set_key names k x props :
  stable names (VObj props) = true ->
  kept names x = true -> stable names x = true ->
  stable names (VObj (set_key k x props)) = true.
Proof.
  intros Hst Hk Hs. simpl in *.
  induction props as [|[k' v'] rest IH]; simpl.
  - rewrite Hk, Hs. reflexivity.
  - simpl in Hst. apply andb_true_iff in Hst as [Hv Hrest].
    destruct (k =? k'); simpl.
    + rewrite Hk, Hs, Hrest. reflexivity.
    + rewrite Hv. simpl. auto.
Qed.

Lemma kept_set_key names k x props :
  k <> "$ref" -> k <> "type" -> k <> "items" -> k <> "deprecated" ->
  kept names (VObj props) = true ->
  kept names (VObj (set_key k x props)) = true.
Proof.
  intros H1 H2 H3 H4. apply kept_refines.
  - repeat split; simpl.
    + intros s. rewrite assoc_set_key_ne by exact H1. auto.
    + intros s. rewrite assoc_set_key_ne by exact H2. auto.
    + intros i' s. rewrite assoc_set_key_ne by exact H3. eauto.
  - simpl. intros H. apply negb_true_iff, no_key_assoc in H.
    apply negb_true_iff, no_key_assoc. rewrite assoc_set_key_ne by exact H4. exact H.
Qed.

Lemma kept_empty_mapping names : kept names (VObj []) = true.
Proof.
  apply kept_intro; [reflexivity|].
  unfold isRefToDeprecatedSchema. simpl.
  destruct (bool_decide (size names = 0)); reflexivity.
Qed.

Lemma kept_sequence names elems : kept names (VArr elems) = true.
Proof. reflexivity. Qed.

Lemma stable_property names props k v :
  stable names (VObj props) = true -> assoc k props = Some v ->
  kept names v = true /\ stable names v = true.
Proof.
  simpl. intros Hst Hv. apply assoc_In in Hv.
  rewrite forallb_forall in Hst. specialize (Hst _ Hv).
  apply andb_true_iff in Hst. exact Hst.
Qed.

(** The value that [o || {}] yields is kept and stable when [o] is. *)
Lemma or_empty_good names props k :
  stable names (VObj props) = true ->
  let x := match assoc k props with
           | Some x => if truthy x then x else VObj []
           | None => VObj []
           end in
  kept names x = true /\ stable names x = true.
Proof.
  intros Hst. destruct (assoc k props) as [x|] eqn:E; simpl.
  - destruct (truthy x); [eapply stable_property; eauto|].
    split; [apply kept_empty_mapping|reflexivity].
  - split; [apply kept_empty_mapping|reflexivity].
Qed.

Lemma set_mode_good names md :
  (kept names md = true -> kept names (set_mode md) = true)
  /\ (stable names md = true -> stable names (set_mode md) = true).
Proof.
  destruct md as [| | | | |mp]; try (split; intros H; exact H).
  unfold set_mode, put. split.
  - apply kept_set_key; discriminate.
  - intros Hs. apply stable_set_key; auto.
Qed.

Lemma ensure_metadata_good names xm xm' :
  ensure_metadata xm = Ok xm' ->
  (kept names xm = true -> kept names xm' = true)
  /\ (stable names xm = true -> stable names xm' = true).
Proof.
  intros H. destruct xm as [| | | |elems|xp]; try discriminate.
  - injection H as <-. auto.
  - simpl in H. injection H as <-. split.
    + apply kept_set_key; discriminate.
    + intros Hs.
      destruct (or_empty_good names xp "metadata" Hs) as [Hmk Hms].
      apply stable_set_key; [exact Hs| |]; apply set_mode_good; assumption.
Qed.

Lemma wide_operation_good names op op' :
  wide_operation op = Ok op' ->
  (kept names op = true -> kept names op' = true)
  /\ (stable names op = true -> stable names op' = true).
Proof.
  intros H. destruct op as [| | | | |props]; try (simpl in H; injection H as <-; auto; fail).
  simpl in H. apply bind_Ok in H as (xm' & Hxm & [= <-]). split.
  - apply kept_set_key; discriminate.
  - intros Hs.
    destruct (or_empty_good names props "x-mint" Hs) as [Hxk Hxs].
    destruct (ensure_metadata_good names _ _ Hxm) as [Hk' Hs'].
    apply stable_set_key; auto.
Qed.

Lemma wide_entry_good names entry entry' :
  wide_entry entry = Ok entry' ->
  kept names (snd entry) = true -> stable names (snd entry) = true ->
  fst entry' = fst entry
  /\ kept names (snd entry') = true /\ stable names (snd entry') = true.
Proof.
  destruct entry as [k v]. unfold wide_entry. cbn [fst snd]. intros H Hk Hs.
  destruct (negb (existsb (String.eqb k) OPERATION_METHODS)); [injection H as <-; auto|].
  destruct (negb (truthy v) || negb (is_object v)); [injection H as <-; auto|].
  apply bind_Ok in H as (op' & Hop & [= <-]). simpl.
  split; [reflexivity|].
  destruct (wide_operation_good names _ _ Hop) as [Hk' Hs']. auto.
Qed.

Lemma wide_entry_other_key k v :
  existsb (String.eqb k) OPERATION_METHODS = false -> wide_entry (k, v) = Ok (k, v).
Proof. intros H. unfold wide_entry. rewrite H. reflexivity. Qed.

(** How a property of the result of a key-preserving loop arises. *)
Lemma map_outcome_assoc_back (f : string * tree -> outcome (string * tree)) :
  (forall kv kv', f kv = Ok kv' -> fst kv' = fst kv) ->
  forall props props' k v',
    map_outcome f props = Ok props' ->
    assoc k props' = Some v' ->
    exists v, assoc k props = Some v /\ f (k, v) = Ok (k, v').
Proof.
  intros Hkey. induction props as [|[k0 v0] rest IH]; intros props' k v' Hmap Hassoc.
  - injection Hmap as <-. discriminate.
  - simpl in Hmap. apply bind_Ok in Hmap as ([k1 v1] & Hf & Hmap).
    apply bind_Ok in Hmap as (rest' & Hrest & [= <-]).
    pose proof (Hkey _ _ Hf) as Hk. simpl in Hk. subst k1.
    simpl in Hassoc |- *. destruct (k =? k0) eqn:E.
    + apply String.eqb_eq in E. subst k0. injection Hassoc as <-. eauto.
    + eauto.
Qed.

Lemma map_outcome_keys (f : string * tree -> outcome (string * tree)) :
  (forall kv kv', f kv = Ok kv' -> fst kv' = fst kv) ->
  forall props props', map_outcome f props = Ok props' -> map fst props' = map fst props.
Proof.
  intros Hkey. induction props as [|kv rest IH]; intros props' Hmap; simpl in Hmap.
  - injection Hmap as <-. reflexivity.
  - apply bind_Ok in Hmap as (kv' & Hf & Hmap).
    apply bind_Ok in Hmap as (rest' & Hrest & [= <-]).
    simpl. f_equal; auto.
Qed.

Lemma map_outcome_In {A B} (f : A -> outcome B) :
  forall l l' y, map_outcome f l = Ok l' -> In y l' -> exists x, In x l /\ f x = Ok y.
Proof.
  induction l as [|a l IH]; intros l' y Hmap Hin; simpl in Hmap.
  - injection Hmap as <-. destruct Hin.
  - apply bind_Ok in Hmap as (b & Hf & Hmap).
    apply bind_Ok in Hmap as (bs & Hmap & [= <-]).
    destruct Hin as [<-|Hin].
    + exists a. split; [left; reflexivity|exact Hf].
    + destruct (IH _ _ Hmap Hin) as (x & Hx & Hfx). exists x. split; [right|]; auto.
Qed.

Lemma no_deprecated_key_keys props props' :
  map fst props' = map fst props ->
  no_deprecated_key (VObj props) = true -> no_deprecated_key (VObj props') = true.
Proof.
  simpl. intros Hkeys.
  assert (H : forall l : list (string * tree),
            existsb (fun kv => fst kv =? "deprecated") l
            = existsb (fun k => k =? "deprecated") (map fst l)).
  { induction l as [|kv l IH]; simpl; [reflexivity|]. rewrite IH. reflexivity. }
  rewrite (H props), (H props'), Hkeys. auto.
Qed.

Lemma wide_path_item_good names item item' :
  wide_path_item item = Ok item' ->
  (kept names item = true -> kept names item' = true)
  /\ (stable names item = true -> stable names item' = true).
Proof.
  unfold wide_path_item. intros H.
  destruct (negb (truthy item) || negb (is_object item)); [injection H as <-; auto|].
  destruct item as [| | | | |props]; try (simpl in H; injection H as <-; auto; fail).
  apply bind_Ok in H as (props' & Hmap & [= <-]).
  assert (Hsame : forall k, existsb (String.eqb k) OPERATION_METHODS = false ->
                            assoc k props' = assoc k props).
  { intros k Hk0. destruct (assoc k props') as [v'|] eqn:E'.
    - destruct (map_outcome_assoc_back _ wide_entry_key _ _ _ _ Hmap E') as (v & Hv & Hf).
      rewrite (wide_entry_other_key _ _ Hk0) in Hf. injection Hf as <-. congruence.
    - destruct (assoc k props) as [v|] eqn:E; [|reflexivity].
      destruct (map_outcome_assoc _ wide_entry_key _ _ _ _ Hmap E) as (v' & _ & Hv').
      congruence. }
  split.
  - apply kept_refines.
    + repeat split; simpl.
      * intros s. rewrite Hsame by reflexivity. auto.
      * intros s. rewrite Hsame by reflexivity. auto.
      * intros i' s. rewrite Hsame by reflexivity. eauto.
    + apply no_deprecated_key_keys. eapply map_outcome_keys; [|exact Hmap].
      apply wide_entry_key.
  - intros Hs. simpl. apply forallb_forall. intros entry' Hin.
    destruct (map_outcome_In _ _ _ _ Hmap Hin) as (entry & Hin0 & Hf).
    simpl in Hs. rewrite forallb_forall in Hs. specialize (Hs _ Hin0).
    apply andb_true_iff in Hs as [Hek Hes].
    destruct (wide_entry_good names _ _ Hf Hek Hes) as (_ & -> & ->). reflexivity.
Qed.

Lemma wide_path_item_string item s :
  wide_path_item item = Ok (VStr s) -> item = VStr s.
Proof.
  unfold wide_path_item.
  destruct (negb (truthy item) || negb (is_object item)); [intros [= ->]; reflexivity|].
  destruct item; try (intros [= ->]; reflexivity).
  intros H. apply bind_Ok in H as (props' & _ & [=]).
Qed.

Lemma wide_path_item_ref item item' s :
  wide_path_item item = Ok item' ->
  get item' "$ref" = Some (VStr s) -> get item "$ref" = Some (VStr s).
Proof.
  unfold wide_path_item.
  destruct (negb (truthy item) || negb (is_object item)); [intros [= ->]; auto|].
  destruct item as [| | | | |props]; try (intros [= ->]; auto; fail).
  intros H. apply bind_Ok in H as (props' & Hmap & [= <-]). simpl. intros Hget.
  destruct (map_outcome_assoc_back _ wide_entry_key _ _ _ _ Hmap Hget) as (v & Hv & Hf).
  rewrite wide_entry_other_key in Hf by reflexivity. congruence.
Qed.

Lemma wide_paths_good names paths paths' :
  match paths with
  | VObj items =>
      let* items' := map_outcome wide_path_property items in Ok (VObj items')
  | VArr items =>
      let* items' := map_outcome wide_path_item items in Ok (VArr items')
  | _ => Ok paths
  end = Ok paths' ->
  kept names paths = true -> stable names paths = true ->
  kept names paths' = true /\ stable names paths' = true.
Proof.
  intros H Hk Hs. destruct paths as [| | | |items|items]; try (injection H as <-; auto; fail).
  - apply bind_Ok in H as (items' & Hmap & [= <-]). split; [reflexivity|].
    simpl. apply forallb_forall. intros item' Hin.
    destruct (map_outcome_In _ _ _ _ Hmap Hin) as (item & Hin0 & Hf).
    simpl in Hs. rewrite forallb_forall in Hs.
    apply (wide_path_item_good names _ _ Hf). auto.
  - apply bind_Ok in H as (items' & Hmap & [= <-]). split.
    + revert Hk. apply kept_refines.
      * assert (Hstr : forall k s, assoc k items' = Some (VStr s) ->
                                   assoc k items = Some (VStr s)).
        { intros k s Hget.
          destruct (map_outcome_assoc_back _ wide_path_property_key _ _ _ _ Hmap Hget)
            as (v & Hv & Hf).
          unfold wide_path_property in Hf. apply bind_Ok in Hf as (x & Hx & [= ->]).
          apply wide_path_item_string in Hx. simpl in Hx. congruence. }
        repeat split; simpl; auto.
        intros i' s Hget Href.
        destruct (map_outcome_assoc_back _ wide_path_property_key _ _ _ _ Hmap Hget)
          as (v & Hv & Hf).
        unfold wide_path_property in Hf. apply bind_Ok in Hf as (x & Hx & [= ->]).
        exists v. split; [exact Hv|]. simpl in Hx. eapply wide_path_item_ref; eauto.
      * apply no_deprecated_key_keys. eapply map_outcome_keys; [|exact Hmap].
        apply wide_path_property_key.
    + simpl. apply forallb_forall. intros [k item'] Hin.
      destruct (map_outcome_In _ _ _ _ Hmap Hin) as ([k0 item] & Hin0 & Hf).
      unfold wide_path_property in Hf. apply bind_Ok in Hf as (x & Hx & [= <- <-]).
      simpl in Hs. rewrite forallb_forall in Hs. specialize (Hs _ Hin0).
      apply andb_true_iff in Hs as [Hik His]. cbn [snd] in *.
      destruct (wide_path_item_good names _ _ Hx) as (Hk' & Hs').
      rewrite (Hk' Hik), (Hs' His). reflexivity.
Qed.

Lemma ensureWideMode_unfold spec :
  ensureWideMode spec =
    match spec with
    | VNull => Throw
    | _ =>
        match get spec "paths" with
        | Some paths =>
            if negb (truthy paths) || negb (is_object paths) then Ok spec
            else
              let* paths' :=
                match paths with
                | VObj items =>
                    let* items' := map_outcome wide_path_property items in Ok (VObj items')
                | VArr items =>
                    let* items' := map_outcome wide_path_item items in Ok (VArr items')
                | _ => Ok paths
                end in
              Ok (put spec "paths" paths')
        | None => Ok spec
        end
    end.
Proof.
  unfold ensureWideMode. destruct spec as [| | | |elems|props]; try reflexivity.
  destruct (get (VObj props) "paths") as [paths|]; [|reflexivity].
  destruct paths as [| | | |items|items];
    cbn [truthy is_object negb orb]; rewrite ?orb_true_r; try reflexivity.
  - simpl. destruct (map_outcome wide_path_item items); reflexivity.
  - simpl. unfold wide_path_property.
    destruct (map_outcome _ items); reflexivity.
Qed.

(** [ensureWideMode] keeps a stable tree stable. *)
Lemma ensureWideMode_stable names spec spec' :
  ensureWideMode spec = Ok spec' ->
  stable names spec = true -> stable names spec' = true.
Proof.
  rewrite ensureWideMode_unfold. intros H Hs.
  destruct spec as [| | | |elems|props]; try discriminate;
    try (injection H as <-; exact Hs).
  destruct (get (VObj props) "paths") as [paths|] eqn:Hp;
    [|injection H as <-; exact Hs].
  destruct (negb (truthy paths) || negb (is_object paths));
    [injection H as <-; exact Hs|].
  apply bind_Ok in H as (paths' & Hw & [= <-]).
  destruct (stable_property names _ _ _ Hs Hp) as [Hpk Hps].
  destruct (wide_paths_good names _ _ Hw Hpk Hps) as [Hk' Hs'].
  apply stable_set_key; auto.
Qed.

(* ------------------------------------------------------------------ *)
(** ** ensureWideMode is idempotent *)
(* ------------------------------------------------------------------ *)

Lemma set_key_again k v props :
  set_key k v (set_key k v props) = set_key k v props.
Proof.
  induction props as [|[k' v'] rest IH]; simpl.
  - rewrite String.eqb_refl. reflexivity.
  - destruct (k =? k') eqn:E; simpl.
    + rewrite String.eqb_refl. reflexivity.
    + rewrite E. f_equal. exact IH.
Qed.

Lemma map_outcome_again {A} (f : A -> outcome A) :
  (forall x y, f x = Ok y -> f y = Ok y) ->
  forall l l', map_outcome f l = Ok l' -> map_outcome f l' = Ok l'.
Proof.
  intros Hf. induction l as [|a l IH]; intros l' H; simpl in H.
  - injection H as <-. reflexivity.
  - apply bind_Ok in H as (b & Hb & H).
    apply bind_Ok in H as (bs & Hbs & [= <-]).
    simpl. rewrite (Hf _ _ Hb). simpl. rewrite (IH _ Hbs). reflexivity.
Qed.

Lemma set_mode_again md : set_mode (set_mode md) = set_mode md.
Proof.
  destruct md; try reflexivity. unfold set_mode, put. rewrite set_key_again. reflexivity.
Qed.

Lemma set_mode_truthy md : truthy md = true -> truthy (set_mode md) = true.
Proof. destruct md; auto. Qed.

Lemma ensure_metadata_again xm xm' :
  ensure_metadata xm = Ok xm' -> ensure_metadata xm' = Ok xm' /\ truthy xm' = true.
Proof.
  destruct xm as [| | | |elems|xp]; try discriminate; intros [= <-].
  - auto.
  - split; [|reflexivity]. simpl. rewrite assoc_set_key_eq.
    set (md := match assoc "metadata" xp with
               | Some md => if truthy md then md else VObj []
               | None => VObj []
               end).
    assert (Hmd : truthy md = true).
    { subst md. destruct (assoc "metadata" xp) as [m|]; [|reflexivity].
      destruct (truthy m) eqn:E; [exact E|reflexivity]. }
    rewrite (set_mode_truthy _ Hmd), set_mode_again, set_key_again. reflexivity.
Qed.

Lemma wide_operation_again op op' :
  wide_operation op = Ok op' ->
  wide_operation op' = Ok op'
  /\ truthy op' = truthy op /\ is_object op' = is_object op.
Proof.
  destruct op as [| | | | |props]; try (intros [= <-]; auto; fail).
  simpl. intros H. apply bind_Ok in H as (xm' & Hxm & [= <-]).
  split; [|auto]. simpl. rewrite assoc_set_key_eq.
  destruct (ensure_metadata_again _ _ Hxm) as [Hagain Htr].
  rewrite Htr, Hagain. simpl. rewrite set_key_again. reflexivity.
Qed.

Lemma wide_entry_again entry entry' :
  wide_entry entry = Ok entry' -> wide_entry entry' = Ok entry'.
Proof.
  destruct entry as [k v]. unfold wide_entry.
  destruct (negb (existsb (String.eqb k) OPERATION_METHODS)) eqn:Hk;
    [intros [= <-]; rewrite Hk; reflexivity|].
  destruct (negb (truthy v) || negb (is_object v)) eqn:Hv;
    [intros [= <-]; rewrite Hk, Hv; reflexivity|].
  intros H. apply bind_Ok in H as (op' & Hop & [= <-]).
  destruct (wide_operation_again _ _ Hop) as (Hagain & Htr & Hob).
  rewrite Hk, Htr, Hob, Hv, Hagain. reflexivity.
Qed.

Lemma wide_path_item_again item item' :
  wide_path_item item = Ok item' ->
  wide_path_item item' = Ok item'.
Proof.
  unfold wide_path_item.
  destruct (negb (truthy item) || negb (is_object item)) eqn:E;
    [intros [= <-]; rewrite E; reflexivity|].
  destruct item as [| | | |elems|props];
    try (simpl in E; rewrite ?orb_true_r in E; discriminate E).
  - intros [= <-]. reflexivity.
  - intros H. apply bind_Ok in H as (props' & Hmap & [= <-]). simpl.
    rewrite (map_outcome_again _ wide_entry_again _ _ Hmap). reflexivity.
Qed.

Lemma wide_path_property_again kv kv' :
  wide_path_property kv = Ok kv' -> wide_path_property kv' = Ok kv'.
Proof.
  unfold wide_path_property. intros H. apply bind_Ok in H as (item' & Hitem & [= <-]).
  simpl. rewrite (wide_path_item_again _ _ Hitem). reflexivity.
Qed.

(** Stamping a stamped document changes nothing. *)
Lemma ensureWideMode_again spec spec' :
  ensureWideMode spec = Ok spec' -> ensureWideMode spec' = Ok spec'.
Proof.
  rewrite !ensureWideMode_unfold. intros H.
  destruct spec as [| | | |elems|props]; try discriminate;
    try (injection H as <-; reflexivity).
  destruct (get (VObj props) "paths") as [paths|] eqn:Hp.
  2: { injection H as <-. rewrite Hp. reflexivity. }
  destruct (negb (truthy paths) || negb (is_object paths)) eqn:E.
  { injection H as <-. rewrite Hp, E. reflexivity. }
  apply bind_Ok in H as (paths' & Hw & [= <-]).
  unfold put. simpl. rewrite assoc_set_key_eq.
  destruct paths as [| | | |items|items];
    try (simpl in E; rewrite ?orb_true_r in E; discriminate E).
  - apply bind_Ok in Hw as (items' & Hmap & [= <-]). simpl.
    rewrite (map_outcome_again _ wide_path_item_again _ _ Hmap). simpl.
    rewrite set_key_again. reflexivity.
  - apply bind_Ok in Hw as (items' & Hmap & [= <-]). simpl.
    rewrite (map_outcome_again _ wide_path_property_again _ _ Hmap). simpl.
    rewrite set_key_again. reflexivity.
Qed.

(* ------------------------------------------------------------------ *)
(** ** The deprecated schema names of a document and of its filtered copy *)
(* ------------------------------------------------------------------ *)

Lemma collect_names (l : list (string * tree)) :
  forall (acc : gset string) n,
    n ∈ fold_left
          (fun (names : gset string) (entry : string * tree) =>
             let (name, schema) := entry in
             if truthy schema && is_object schema && is_true (get schema "deprecated")
             then {[name]} ∪ names
             else names)
          l acc
    <-> n ∈ acc \/ exists schema, In (n, schema) l /\ is_deprecated_schema schema = true.
Proof.
  unfold is_deprecated_schema.
  induction l as [|[k v] rest IH]; intros acc n; simpl.
  - split; [auto|]. intros [H|(? & [] & _)]; exact H.
  - rewrite IH. split.
    + intros [H|(schema & Hin & Hc)].
      * destruct (truthy v && is_object v && is_true (get v "deprecated")) eqn:E; [|auto].
        apply elem_of_union in H as [H|H]; [|auto].
        apply elem_of_singleton in H. subst k. right. exists v. auto.
      * right. exists schema. auto.
    + intros [H|(schema & [Heq|Hin] & Hc)].
      * left. destruct (truthy v && is_object v && is_true (get v "deprecated"));
          [apply elem_of_union; right|]; exact H.
      * injection Heq as -> ->. left. rewrite Hc. apply elem_of_union. left.
        apply elem_of_singleton. reflexivity.
      * right. exists schema. auto.
Qed.

Lemma buildDeprecatedSchemaNames_spec spec n :
  n ∈ buildDeprecatedSchemaNames spec <->
  exists schemas schema,
    oget (oget (Some spec) "components") "schemas" = Some schemas
    /\ is_object schemas = true
    /\ In (n, schema) (entries schemas)
    /\ is_deprecated_schema schema = true.
Proof.
  unfold buildDeprecatedSchemaNames.
  destruct (oget (oget (Some spec) "components") "schemas") as [schemas|].
  - destruct (is_object schemas) eqn:Hob.
    + assert (Htr : truthy schemas = true) by (destruct schemas; try discriminate Hob; reflexivity).
      rewrite Htr. cbn [negb orb]. rewrite collect_names. split.
      * intros [H|(schema & Hin & Hc)]; [set_solver|]. exists schemas, schema. auto.
      * intros (s' & schema & [= <-] & _ & Hin & Hc). right. eauto.
    + rewrite orb_true_r. split; [set_solver|].
      intros (s' & schema & [= <-] & H & _). congruence.
  - split; [set_solver|]. intros (s' & schema & H & _). discriminate H.
Qed.

Lemma In_kept_props names k w props :
  In (k, w) (kept_props names props) ->
  exists v, In (k, v) props /\ w = delete_deprecated (stripDeprecated v names).
Proof.
  induction props as [|[k0 v0] rest IH]; simpl; [tauto|].
  destruct (marked_deprecated v0); [intros H; destruct (IH H) as (v & ? & ?); eauto|].
  destruct (isRefToDeprecatedSchema v0 names);
    [intros H; destruct (IH H) as (v & ? & ?); eauto|].
  intros [[= <- <-]|H]; [eauto|]. destruct (IH H) as (v & ? & ?); eauto.
Qed.

Lemma In_remove_key d kv props : In kv (remove_key d props) -> In kv props.
Proof. unfold remove_key. intros H. apply filter_In in H. tauto. Qed.

Lemma In_indexed_map (f : tree -> tree) n x elems :
  forall i, In (n, x) (indexed_from i (map f elems)) ->
            exists e, In (n, e) (indexed_from i elems) /\ x = f e.
Proof.
  induction elems as [|e rest IH]; simpl; intros i; [tauto|].
  intros [[= <- <-]|H]; [eauto|]. destruct (IH _ H) as (e' & ? & ?). eauto.
Qed.

Lemma deleted_is_not_deprecated x :
  is_true (get (delete_deprecated x) "deprecated") = false.
Proof.
  destruct x as [| | | |elems|props]; try reflexivity.
  simpl. rewrite assoc_remove_key_eq. reflexivity.
Qed.

Lemma stripped_is_deprecated names e :
  wf e ->
  is_deprecated_schema (stripDeprecated e names) = true -> is_deprecated_schema e = true.
Proof.
  unfold is_deprecated_schema. intros Hwf H.
  destruct e as [| | | |elems|props]; try exact H.
  rewrite stripDeprecated_mapping in H. simpl in *.
  rewrite (assoc_kept_props _ _ _ (wf_mapping _ Hwf)) in H.
  destruct (assoc "deprecated" props) as [v|]; [|discriminate].
  destruct (marked_deprecated v || isRefToDeprecatedSchema v names); [discriminate|].
  destruct (delete_deprecated (stripDeprecated v names)) as [|[]| | | |] eqn:E;
    try discriminate.
  apply stripped_true in E. subst v. reflexivity.
Qed.

(** A property of the stripped copy of a mapping comes from the same
    property of the mapping. *)
Lemma get_stripped names v k w :
  wf v ->
  get (delete_deprecated (stripDeprecated v names)) k = Some w ->
  is_mapping v = true ->
  exists x, get v k = Some x /\ wf x /\ w = delete_deprecated (stripDeprecated x names).
Proof.
  intros Hwf H Hm. destruct v as [| | | | |props]; try discriminate.
  rewrite stripDeprecated_mapping in H. simpl in H.
  destruct (String.eqb_spec k "deprecated") as [->|Hne].
  { rewrite assoc_remove_key_eq in H. discriminate. }
  rewrite (assoc_remove_key_ne _ _ _ Hne) in H.
  rewrite (assoc_kept_props _ _ _ (wf_mapping _ Hwf)) in H.
  simpl. destruct (assoc k props) as [x|] eqn:E; [|discriminate].
  destruct (marked_deprecated x || isRefToDeprecatedSchema x names); [discriminate|].
  injection H as <-. exists x. split; [reflexivity|]. split; [|reflexivity].
  eapply wf_property; [exact Hwf|]. eapply assoc_In. exact E.
Qed.

Lemma ensureWideMode_other_key spec spec' k :
  ensureWideMode spec = Ok spec' -> k <> "paths" ->
  oget (Some spec') k = oget (Some spec) k.
Proof.
  rewrite ensureWideMode_unfold. intros H Hk.
  destruct spec as [| | | |elems|props]; try discriminate;
    try (injection H as <-; reflexivity).
  destruct (get (VObj props) "paths") as [paths|]; [|injection H as <-; reflexivity].
  destruct (negb (truthy paths) || negb (is_object paths));
    [injection H as <-; reflexivity|].
  apply bind_Ok in H as (paths' & _ & [= <-]). simpl.
  apply assoc_set_key_ne. congruence.
Qed.

(** The filtered document has no deprecated schema name that the document
    did not have. *)
Lemma names_of_output names doc out :
  wf doc ->
  ensureWideMode (stripDeprecated doc names) = Ok out ->
  buildDeprecatedSchemaNames out ⊆ buildDeprecatedSchemaNames doc.
Proof.
  intros Hwf Hrun n Hn.
  apply buildDeprecatedSchemaNames_spec in Hn as (schemas' & schema' & Hs' & Hob & Hin & Hc).
  apply buildDeprecatedSchemaNames_spec.
  rewrite (ensureWideMode_other_key _ _ "components" Hrun) in Hs' by discriminate.
  destruct (oget (Some (stripDeprecated doc names)) "components") as [c'|] eqn:Hc';
    [|discriminate].
  assert (Hdoc : exists props, doc = VObj props).
  { destruct doc as [| | | |elems|props]; try discriminate; eauto. }
  destruct Hdoc as (props & ->).
  rewrite stripDeprecated_mapping in Hc'. simpl in Hc'.
  rewrite (assoc_kept_props _ _ _ (wf_mapping _ Hwf)) in Hc'.
  destruct (assoc "components" props) as [c|] eqn:Ec; [|discriminate].
  destruct (marked_deprecated c || isRefToDeprecatedSchema c names); [discriminate|].
  injection Hc' as <-.
  assert (Hwfc : wf c) by (eapply wf_property; [exact Hwf|]; eapply assoc_In; exact Ec).
  assert (Hcm : is_mapping c = true).
  { destruct c as [| | | |elems|cp]; try reflexivity; discriminate Hs'. }
  assert (Hs'' : get (delete_deprecated (stripDeprecated c names)) "schemas" = Some schemas').
  { destruct c; try discriminate; exact Hs'. }
  destruct (get_stripped names c "schemas" schemas' Hwfc Hs'' Hcm) as (sch & Hsch & Hwfs & ->).
  destruct sch as [| | | |elems|sp]; try discriminate.
  - (* the schemas are a sequence: a stripped element is deprecated when the element is *)
    simpl in Hin. destruct (In_indexed_map _ _ _ _ _ Hin) as (e & Hine & ->).
    exists (VArr elems), e. split; [|split; [reflexivity|split; [exact Hine|]]].
    + simpl. rewrite Ec. destruct c; try discriminate; exact Hsch.
    + eapply stripped_is_deprecated; [|exact Hc].
      eapply wf_element; [exact Hwfs|].
      clear -Hine. revert Hine. generalize 0.
      induction elems as [|x rest IH]; simpl; intros i; [tauto|].
      intros [[= _ ->]|H]; [left; reflexivity|right; eauto].
  - (* the schemas are a mapping: a kept schema has lost its deprecated key *)
    rewrite stripDeprecated_mapping in Hin. simpl in Hin.
    apply In_remove_key, In_kept_props in Hin as (v & _ & ->).
    unfold is_deprecated_schema in Hc.
    rewrite deleted_is_not_deprecated, andb_false_r in Hc. discriminate.
Qed.

(* ------------------------------------------------------------------ *)
(** ** Idempotence of the Filter (C4) *)
(* ------------------------------------------------------------------ *)

(** C4 as the code has it: the Filter is idempotent.  On its own output the
    stripping removes nothing, the stamping changes nothing, and the run
    yields that output again; an operation of the output whose [x-mint] and
    [x-mint.metadata] are falsy or mappings has the mode [wide]. *)
Theorem filter_is_idempotent doc out :
  wf doc ->
  main doc = Ok out ->
  stripDeprecated out (buildDeprecatedSchemaNames out) = out
  /\ ensureWideMode out = Ok out
  /\ main out = Ok out
  /\ forall paths p item m op,
       get out "paths" = Some paths ->
       get paths p = Some item ->
       In m OPERATION_METHODS ->
       get item m = Some (VObj op) ->
       stampable op = true ->
       lookup_path (VObj op) ["x-mint"; "metadata"; "mode"] = Some (VStr "wide").
Proof.
  unfold main. intros Hwf Hrun.
  set (names := buildDeprecatedSchemaNames doc) in *.
  assert (Hstable : stable (buildDeprecatedSchemaNames out) out = true).
  { apply (stable_mono names); [eapply names_of_output; eauto|].
    eapply ensureWideMode_stable; [exact Hrun|].
    apply stripDeprecated_stable. exact Hwf. }
  pose proof (stripDeprecated_stable_id _ _ Hstable) as Hstrip.
  pose proof (ensureWideMode_again _ _ Hrun) as Hwide.
  split; [exact Hstrip|]. split; [exact Hwide|].
  split; [rewrite Hstrip; exact Hwide|].
  intros paths p item m op Hpaths Hitem Hm Hop Hst.
  destruct (stamped_operation out out paths p item m op Hwide Hpaths Hitem Hm Hop Hst)
    as (op' & Hlook & Hmode & _).
  assert (Hsame : lookup_path out ["paths"; p; m] = Some (VObj op)).
  { cbn [lookup_path].
    assert (Ho : forall t k v, get t k = Some v -> oget (Some t) k = Some v).
    { intros t k v H. destruct t; try discriminate H; exact H. }
    rewrite (Ho _ _ _ Hpaths), (Ho _ _ _ Hitem), (Ho _ _ _ Hop). reflexivity. }
  rewrite Hsame in Hlook. injection Hlook as <-. exact Hmode.
Qed.

(* ------------------------------------------------------------------ *)
(** ** References to deprecated schemas (C1) *)
(* ------------------------------------------------------------------ *)

Lemma indexed_from_nth elems x :
  forall i j, nth_error elems i = Some x -> In (key_of_index (j + i), x) (indexed_from j elems).
Proof.
  induction elems as [|e rest IH]; intros i j H; [destruct i; discriminate|].
  destruct i as [|i]; simpl in *.
  - injection H as <-. left. rewrite Nat.add_0_r. reflexivity.
  - right. replace (j + S i) with (S j + i) by lia. apply IH. exact H.
Qed.

Lemma get_In_entries t k v : get t k = Some v -> In (k, v) (entries t).
Proof.
  destruct t as [| | | |elems|props]; try discriminate; simpl.
  - unfold index_of_key. destruct (NilZero.uint_of_string k) as [u|]; [|discriminate].
    destruct (key_of_index (Nat.of_uint u) =? k) eqn:E; [|discriminate].
    apply String.eqb_eq in E. intros H. rewrite <- E.
    apply (indexed_from_nth elems v _ 0). exact H.
  - apply assoc_In.
Qed.

(** A schema found at [components.schemas.<name>] with [deprecated: true] is
    in the set that [buildDeprecatedSchemaNames] builds. *)
Lemma deprecated_schema_is_collected doc name schema :
  lookup_path doc ["components"; "schemas"; name] = Some schema ->
  get schema "deprecated" = Some (VBool true) ->
  name ∈ buildDeprecatedSchemaNames doc.
Proof.
  intros Hpath Hdep. apply buildDeprecatedSchemaNames_spec.
  cbn [lookup_path] in Hpath.
  destruct (oget (Some doc) "components") as [c|]; [|discriminate].
  destruct (oget (Some c) "schemas") as [schemas|] eqn:Hs; [|discriminate].
  destruct (oget (Some schemas) name) as [x|] eqn:Hx; [|discriminate].
  injection Hpath as ->.
  exists schemas, schema. split; [reflexivity|].
  assert (Hget : get schemas name = Some schema) by (destruct schemas; try discriminate; exact Hx).
  split; [destruct schemas; try discriminate; reflexivity|].
  split; [apply get_In_entries; exact Hget|].
  unfold is_deprecated_schema. rewrite Hdep.
  destruct schema; try discriminate; reflexivity.
Qed.

Lemma refers_to_flagged (names : gset string) name v :
  name ∈ names -> refers_to name v -> isRefToDeprecatedSchema v names = true.
Proof.
  intros Hin (Hm & H). apply isRefToDeprecatedSchema_true. split; [exact Hm|].
  exists name. split; [exact Hin|exact H].
Qed.

Lemma filter_twice_on_catalog :
  wf catalog_doc
  /\ main catalog_doc = Ok catalog_out
  /\ stripDeprecated catalog_out (buildDeprecatedSchemaNames catalog_out) = catalog_out
  /\ ensureWideMode catalog_out = Ok catalog_out
  /\ main catalog_out = Ok catalog_out
  /\ lookup_path catalog_out ["paths"; "/a"; "get"; "x-mint"; "metadata"; "mode"]
     = Some (VStr "wide").
Proof.
  split; [reflexivity|]. split; [vm_compute; reflexivity|].
  destruct (filter_is_idempotent catalog_doc catalog_out eq_refl
              ltac:(vm_compute; reflexivity))
    as (Hstrip & Hwide & Hmain & Hmode).
  split; [exact Hstrip|]. split; [exact Hwide|]. split; [exact Hmain|].
  exact (Hmode (VObj [("/a", VObj [("get", VObj [
                   ("summary", VStr "list");
                   ("x-mint", VObj [("metadata", VObj [("mode", VStr "wide")])])])])])
               "/a"
               (VObj [("get", VObj [
                   ("summary", VStr "list");
                   ("x-mint", VObj [("metadata", VObj [("mode", VStr "wide")])])])])
               "get"
               [("summary", VStr "list");
                ("x-mint", VObj [("metadata", VObj [("mode", VStr "wide")])])]
               eq_refl eq_refl (or_introl eq_refl) eq_refl eq_refl).
Defined.

(** C4 as stated fails where it says that the mode is set: the document
    below is the output of the Filter on itself, and its operation has a
    [metadata] that is a string, and no mode. *)
Lemma filtered_document_without_wide_mode :
  wf text_metadata_doc
  /\ main text_metadata_doc = Ok text_metadata_doc
  /\ lookup_path text_metadata_doc ["paths"; "/a"; "get"]
     = Some (VObj [("x-mint", VObj [("metadata", VStr "full")])])
  /\ stampable [("x-mint", VObj [("metadata", VStr "full")])] = false
  /\ lookup_path text_metadata_doc ["paths"; "/a"; "get"; "x-mint"; "metadata"; "mode"]
     = None.
Proof. repeat split; vm_compute; reflexivity. Qed.

(** What the Filter guarantees about the [deprecated] key: a mapping that is
    the value of a property of the output has none.  The root and the
    elements of a sequence are not values of a property. *)
Lemma property_values_have_no_deprecated_key doc out k v :
  wf doc ->
  main doc = Ok out ->
  pair_in k v out ->
  no_deprecated_key v = true.
Proof.
  unfold main. intros Hwf Hrun Hpair.
  assert (Hstable : stable (buildDeprecatedSchemaNames doc) out = true).
  { eapply ensureWideMode_stable; [exact Hrun|]. apply stripDeprecated_stable. exact Hwf. }
  pose proof (stable_pair_kept _ _ _ _ Hpair Hstable) as Hkept.
  apply kept_elim in Hkept as (_ & _ & Hno). exact Hno.
Qed.

(* ------------------------------------------------------------------ *)
(** ** stripDeprecated does not mutate its input (C10) *)
(* ------------------------------------------------------------------ *)

Import Heap.

Lemma preserves_refl h : preserves h h.
Proof. intros l o H. exact H. Qed.

Lemma preserves_trans h1 h2 h3 : preserves h1 h2 -> preserves h2 h3 -> preserves h1 h3.
Proof. intros H12 H23 l o H. auto. Qed.

Lemma preserves_alloc h o : preserves h (h ++ [o]).
Proof. intros l x H. rewrite lookup_app_l; [exact H|]. eapply lookup_lt_Some. exact H. Qed.

(** An update at a location that the old heap does not have. *)
Lemma preserves_insert h0 h l o :
  preserves h0 h -> length h0 <= l -> preserves h0 (<[l := o]> h).
Proof.
  intros Hp Hl l' x H. rewrite list_lookup_insert_ne; [auto|].
  apply lookup_lt_Some in H. lia.
Qed.

Lemma hassoc_hset_key key r props : hassoc key (hset_key key r props) = Some r.
Proof.
  induction props as [|[k v] rest IH]; simpl.
  - rewrite String.eqb_refl. reflexivity.
  - destruct (key =? k) eqn:E; simpl; rewrite ?String.eqb_refl, ?E; auto.
Qed.

Lemma building_length h0 h b : building h0 h b -> length h0 < length h.
Proof.
  intros [_ H]. destruct (h !! length h0) eqn:E; [|destruct H].
  eapply lookup_lt_Some. exact E.
Qed.

Lemma building_preserved h0 h h' b :
  building h0 h b -> preserves h h' -> building h0 h' b.
Proof.
  intros [Hp Hr] Hpp. split; [eapply preserves_trans; eauto|].
  destruct (h !! length h0) as [o|] eqn:E; [|destruct Hr].
  rewrite (Hpp _ _ E). exact Hr.
Qed.

Lemma building_update h0 h b l o :
  building h0 h b -> length h0 < l -> building h0 (<[l := o]> h) b.
Proof.
  intros [Hp Hr] Hl. split; [apply preserves_insert; [exact Hp|lia]|].
  rewrite list_lookup_insert_ne by lia. exact Hr.
Qed.

Lemma building_set_prop h0 h key r :
  building h0 h true ->
  building h0 (set_prop h (length h0) key r) true
  /\ hget (set_prop h (length h0) key r) (HRef (length h0)) key = Some r
  /\ length (set_prop h (length h0) key r) = length h.
Proof.
  intros Hb. pose proof (building_length _ _ _ Hb) as Hlen.
  destruct Hb as [Hp Hr]. unfold set_prop, hget.
  destruct (h !! length h0) as [[elems|props]|] eqn:E; try discriminate; [|destruct Hr].
  rewrite list_lookup_insert_eq by exact Hlen. rewrite length_insert.
  split; [|split; [apply hassoc_hset_key|reflexivity]].
  split; [apply preserves_insert; [exact Hp|lia]|].
  rewrite list_lookup_insert_eq by exact Hlen. reflexivity.
Qed.

Lemma building_push_elem h0 h r :
  building h0 h false ->
  building h0 (push_elem h (length h0) r) false
  /\ length (push_elem h (length h0) r) = length h.
Proof.
  intros Hb. pose proof (building_length _ _ _ Hb) as Hlen.
  destruct Hb as [Hp Hr]. unfold push_elem.
  destruct (h !! length h0) as [[elems|props]|] eqn:E; try discriminate; [|destruct Hr].
  rewrite length_insert. split; [|reflexivity].
  split; [apply preserves_insert; [exact Hp|lia]|].
  rewrite list_lookup_insert_eq by exact Hlen. reflexivity.
Qed.

Lemma building_delete_prop h0 h b l key :
  building h0 h b -> length h0 < l ->
  building h0 (delete_prop h l key) b /\ length (delete_prop h l key) = length h.
Proof.
  intros Hb Hl. unfold delete_prop.
  destruct (h !! l) as [[elems|props]|]; auto.
  rewrite length_insert. split; [|reflexivity]. apply building_update; assumption.
Qed.

Lemma strip_props_frame recur names l :
  (forall v h res, recur v h = Ok res -> frame h res) ->
  forall keys h0 h h',
    building h0 h true ->
    strip_props recur names l (length h0) keys h = Ok h' ->
    building h0 h' true /\ length h <= length h'.
Proof.
  intros Hrec. induction keys as [|key keys IH]; intros h0 h h' Hb Hrun;
    cbn [strip_props] in Hrun.
  - injection Hrun as <-. auto.
  - destruct (hget h (HRef l) key) as [val|]; [|discriminate Hrun].
    destruct (marked_deprecated h val); [eauto|].
    destruct (isRefToDeprecatedSchema h val names); [eauto|].
    apply bind_Ok in Hrun as ([r h1] & Hcall & Hrun). cbn [fst snd] in Hrun.
    destruct (Hrec _ _ _ Hcall) as (Hp & Hlen & Hfresh). cbn [fst snd] in *.
    pose proof (building_preserved _ _ _ _ Hb Hp) as Hb1.
    destruct (building_set_prop _ _ key r Hb1) as (Hb2 & Hget & Hlen2).
    rewrite Hget in Hrun.
    pose proof (building_length _ _ _ Hb) as Hlt.
    destruct r as [| | | |kept].
    1-4: destruct (IH _ _ _ Hb2 Hrun) as [Hb' Hlen']; split; [exact Hb'|lia].
    simpl in Hfresh.
    destruct (building_delete_prop _ _ _ kept "deprecated" Hb2 ltac:(lia)) as [Hb3 Hlen3].
    destruct (IH _ _ _ Hb3 Hrun) as [Hb' Hlen']. split; [exact Hb'|lia].
Qed.

Lemma strip_elems_frame recur l :
  (forall v h res, recur v h = Ok res -> frame h res) ->
  forall indices h0 h h',
    building h0 h false ->
    strip_elems recur l (length h0) indices h = Ok h' ->
    building h0 h' false /\ length h <= length h'.
Proof.
  intros Hrec. induction indices as [|k indices IH]; intros h0 h h' Hb Hrun;
    cbn [strip_elems] in Hrun.
  - injection Hrun as <-. auto.
  - destruct (h !! l) as [[elems|props]|]; try discriminate Hrun.
    destruct (elems !! k) as [v|]; [|discriminate Hrun].
    apply bind_Ok in Hrun as ([r h1] & Hcall & Hrun). cbn [fst snd] in Hrun.
    destruct (Hrec _ _ _ Hcall) as (Hp & Hlen & Hfresh). cbn [fst snd] in *.
    pose proof (building_preserved _ _ _ _ Hb Hp) as Hb1.
    destruct (building_push_elem _ _ r Hb1) as (Hb2 & Hlen2).
    destruct (IH _ _ _ Hb2 Hrun) as [Hb' Hlen']. split; [exact Hb'|lia].
Qed.

Lemma building_start h o :
  building h (h ++ [o]) (match o with HObj _ => true | HArr _ => false end).
Proof.
  split; [apply preserves_alloc|].
  rewrite lookup_app_r by lia. rewrite Nat.sub_diag. simpl. destruct o; reflexivity.
Qed.

(** The frame of [stripDeprecated]: every object of the heap of the call is
    as it was, and a location that is returned is new.  This holds on any
    heap, shared or cyclic. *)
Lemma stripDeprecated_frame names :
  forall fuel value h res,
    stripDeprecated fuel value names h = Ok res -> frame h res.
Proof.
  induction fuel as [|fuel IH]; intros value h res Hrun; [discriminate Hrun|].
  cbn [stripDeprecated] in Hrun.
  destruct value as [| | | |l];
    try (injection Hrun as <-; split; [apply preserves_refl|split; [reflexivity|exact I]]).
  destruct (h !! l) as [[elems|props]|]; [| |discriminate Hrun].
  - unfold alloc in Hrun.
    apply bind_Ok in Hrun as (h' & Hloop & [= <-]).
    destruct (strip_elems_frame _ l (fun v h res => IH v h res) _ _ _ _
                (building_start h (HArr [])) Hloop) as [Hb Hlen].
    rewrite length_app in Hlen. simpl in Hlen.
    split; [exact (proj1 Hb)|]. split; simpl; lia.
  - unfold alloc in Hrun.
    apply bind_Ok in Hrun as (h' & Hloop & [= <-]).
    destruct (strip_props_frame _ names l (fun v h res => IH v h res) _ _ _ _
                (building_start h (HObj [])) Hloop) as [Hb Hlen].
    rewrite length_app in Hlen. simpl in Hlen.
    split; [exact (proj1 Hb)|]. split; simpl; lia.
Qed.

Lemma height_element e elems : In e elems -> height e < height (VArr elems).
Proof.
  intros Hin. simpl. apply Nat.lt_succ_r.
  induction elems as [|x rest IH]; [destruct Hin|].
  simpl. destruct Hin as [->|Hin]; [lia|]. specialize (IH Hin). lia.
Qed.

Lemma height_property k v props : In (k, v) props -> height v < height (VObj props).
Proof.
  intros Hin. simpl. apply Nat.lt_succ_r.
  induction props as [|x rest IH]; [destruct Hin|].
  simpl. destruct Hin as [->|Hin]; [simpl; lia|]. specialize (IH Hin). lia.
Qed.

(** A tree that a heap holds is held by every heap that preserves it. *)
Lemma repr_preserved v :
  forall h h' hv, preserves h h' -> repr h hv v -> repr h' hv v.
Proof.
  induction v as [| | | |elems IH|props IH] using tree_ind; intros h h' hv Hp Hr;
    inversion Hr; subst; try constructor.
  - eapply repr_arr; [eauto|].
    match goal with H : Forall2 _ _ _ |- _ => revert H end.
    clear -IH Hp. intros H. induction H as [|x y xs ys Hxy Hrest IHrest]; constructor.
    + inversion IH; subst. eauto.
    + inversion IH; subst. auto.
  - eapply repr_obj; [eauto|].
    match goal with H : Forall2 _ _ _ |- _ => revert H end.
    clear -IH Hp. intros H. induction H as [|x y xs ys [Hk Hxy] Hrest IHrest]; constructor.
    + inversion IH; subst. split; [exact Hk|]. eauto.
    + inversion IH; subst. auto.
Qed.

Lemma hassoc_repr h hprops props :
  Forall2 (fun hp p => fst hp = fst p /\ repr h (snd hp) (snd p)) hprops props ->
  forall key, In key (map fst hprops) ->
    exists val v, hassoc key hprops = Some val /\ In (key, v) props /\ repr h val v.
Proof.
  induction 1 as [|[k x] [k' y] hrest rest [Hk Hxy] Hrest IH]; intros key Hin;
    [destruct Hin|].
  simpl in Hk, Hxy. subst k'. simpl. destruct (key =? k) eqn:E.
  - apply String.eqb_eq in E. subst k. exists x, y. split; [reflexivity|].
    split; [left; reflexivity|exact Hxy].
  - destruct Hin as [Heq|Hin]; [simpl in Heq; subst k; rewrite String.eqb_refl in E; discriminate|].
    destruct (IH _ Hin) as (val & v & Hval & Hv & Hr). exists val, v.
    split; [exact Hval|]. split; [right; exact Hv|exact Hr].
Qed.

Lemma strip_props_returns recur names l h0 hprops props :
  (forall v h res, recur v h = Ok res -> frame h res) ->
  (forall k v val h, In (k, v) props -> repr h val v -> exists res, recur val h = Ok res) ->
  h0 !! l = Some (HObj hprops) ->
  Forall2 (fun hp p => fst hp = fst p /\ repr h0 (snd hp) (snd p)) hprops props ->
  forall keys h,
    (forall key, In key keys -> In key (map fst hprops)) ->
    building h0 h true ->
    exists h', strip_props recur names l (length h0) keys h = Ok h'.
Proof.
  intros Hframe Hrec Hl Hall. induction keys as [|key keys IH]; intros h Hkeys Hb;
    cbn [strip_props]; [eauto|].
  destruct (hassoc_repr _ _ _ Hall key (Hkeys _ (or_introl eq_refl)))
    as (val & v & Hval & Hv & Hr).
  assert (Hget : hget h (HRef l) key = Some val).
  { unfold hget. rewrite (proj1 Hb _ _ Hl). exact Hval. }
  rewrite Hget.
  assert (Hrest : forall key', In key' keys -> In key' (map fst hprops))
    by (intros; apply Hkeys; right; assumption).
  destruct (marked_deprecated h val); [auto|].
  destruct (isRefToDeprecatedSchema h val names); [auto|].
  destruct (Hrec key v val h Hv (repr_preserved _ _ _ _ (proj1 Hb) Hr)) as ([r h1] & Hcall).
  rewrite Hcall. cbn [bind fst snd].
  destruct (Hframe _ _ _ Hcall) as (Hp & Hlen & Hfresh). cbn [fst snd] in *.
  pose proof (building_preserved _ _ _ _ Hb Hp) as Hb1.
  destruct (building_set_prop _ _ key r Hb1) as (Hb2 & Hget2 & Hlen2).
  rewrite Hget2.
  pose proof (building_length _ _ _ Hb) as Hlt.
  destruct r as [| | | |kept]; try (apply IH; assumption).
  simpl in Hfresh.
  destruct (building_delete_prop _ _ _ kept "deprecated" Hb2 ltac:(lia)) as [Hb3 _].
  apply IH; assumption.
Qed.

Lemma strip_elems_returns recur l h0 helems elems :
  (forall v h res, recur v h = Ok res -> frame h res) ->
  (forall v val h, In v elems -> repr h val v -> exists res, recur val h = Ok res) ->
  h0 !! l = Some (HArr helems) ->
  Forall2 (repr h0) helems elems ->
  forall indices h,
    (forall k, In k indices -> k < length helems) ->
    building h0 h false ->
    exists h', strip_elems recur l (length h0) indices h = Ok h'.
Proof.
  intros Hframe Hrec Hl Hall. induction indices as [|k indices IH]; intros h Hks Hb;
    cbn [strip_elems]; [eauto|].
  rewrite (proj1 Hb _ _ Hl).
  destruct (lookup_lt_is_Some_2 helems k (Hks _ (or_introl eq_refl))) as (val & Hval).
  rewrite Hval.
  destruct (Forall2_lookup_l _ _ _ _ _ Hall Hval) as (v & Hv & Hr).
  assert (Hin : In v elems).
  { apply list_elem_of_In. eapply list_elem_of_lookup_2. exact Hv. }
  destruct (Hrec v val h Hin (repr_preserved _ _ _ _ (proj1 Hb) Hr)) as ([r h1] & Hcall).
  rewrite Hcall. cbn [bind fst snd].
  destruct (Hframe _ _ _ Hcall) as (Hp & Hlen & Hfresh). cbn [fst snd] in *.
  pose proof (building_preserved _ _ _ _ Hb Hp) as Hb1.
  destruct (building_push_elem _ _ r Hb1) as (Hb2 & _).
  apply IH; [|exact Hb2]. intros k' Hk'. apply Hks. right. exact Hk'.
Qed.

(** On a heap that holds a tree, the call returns once the fuel exceeds the
    height of the tree. *)
Lemma stripDeprecated_returns names :
  forall fuel v h hv,
    repr h hv v -> height v < fuel ->
    exists res, stripDeprecated fuel hv names h = Ok res.
Proof.
  induction fuel as [|fuel IH]; intros v h hv Hr Hfuel; [lia|].
  cbn [stripDeprecated].
  inversion Hr as [| | | |l helems elems Hl Hall|l hprops props Hl Hall]; subst; eauto.
  - rewrite Hl. unfold alloc.
    destruct (strip_elems_returns
                (fun v => stripDeprecated fuel v names) l h helems elems
                (fun v h res => stripDeprecated_frame names fuel v h res)
                (fun v val h' Hin Hrv =>
                   IH v h' val Hrv ltac:(pose proof (height_element _ _ Hin); lia))
                Hl Hall (seq 0 (length helems)) (h ++ [HArr []])
                ltac:(intros k Hk; apply in_seq in Hk; lia)
                (building_start h (HArr []))) as (h' & Hloop).
    rewrite Hloop. eauto.
  - rewrite Hl. unfold alloc.
    destruct (strip_props_returns
                (fun v => stripDeprecated fuel v names) names l h hprops props
                (fun v h res => stripDeprecated_frame names fuel v h res)
                (fun k v val h' Hin Hrv =>
                   IH v h' val Hrv ltac:(pose proof (height_property _ _ _ Hin); lia))
                Hl Hall (map fst hprops) (h ++ [HObj []])
                ltac:(auto)
                (building_start h (HObj []))) as (h' & Hloop).
    rewrite Hloop. eauto.
Qed.

(** C10: on a heap that holds the input tree, [stripDeprecated] returns,
    every object that the heap held before the call is unchanged after it,
    and the input value stands for the same tree as before. *)
Theorem stripDeprecated_leaves_its_input h hv v names :
  repr h hv v ->
  exists fuel r h',
    stripDeprecated fuel hv names h = Ok (r, h')
    /\ preserves h h'
    /\ repr h' hv v.
Proof.
  intros Hr.
  destruct (stripDeprecated_returns names (S (height v)) v h hv Hr ltac:(lia))
    as ([r h'] & Hrun).
  exists (S (height v)), r, h'. split; [exact Hrun|].
  destruct (stripDeprecated_frame _ _ _ _ _ Hrun) as (Hp & _).
  split; [exact Hp|]. eapply repr_preserved; eauto.
Qed.

Lemma aliased_heap_holds_tree : repr aliased_heap (HRef 1) aliased_tree.
Proof.
  assert (Hshared : repr aliased_heap (HRef 0)
            (VObj [("type", VStr "string"); ("deprecated", VBool false)])).
  { eapply repr_obj; [reflexivity|].
    repeat constructor. }
  eapply repr_obj; [reflexivity|].
  repeat (constructor; [split; [reflexivity|exact Hshared]|]). constructor.
Qed.

Lemma stripDeprecated_leaves_aliased_heap :
  repr aliased_heap (HRef 1) aliased_tree
  /\ exists fuel r h',
       stripDeprecated fuel (HRef 1) ∅ aliased_heap = Ok (r, h')
       /\ preserves aliased_heap h'
       /\ repr h' (HRef 1) aliased_tree.
Proof.
  split; [exact aliased_heap_holds_tree|].
  exact (stripDeprecated_leaves_its_input aliased_heap (HRef 1) aliased_tree ∅
           aliased_heap_holds_tree).
Defined.

(** The run on the aliased heap: the new mappings are at new locations, and
    [deprecated] is deleted from the copies only. *)
Example stripDeprecated_on_aliased_heap :
  stripDeprecated 3 (HRef 1) ∅ aliased_heap
  = Ok (HRef 2,
        aliased_heap
        ++ [ HObj [("a", HRef 3); ("b", HRef 4)];
             HObj [("type", HStr "string")];
             HObj [("type", HStr "string")] ]).
Proof. vm_compute. reflexivity. Qed.


(* ------------------------------------------------------------------ *)
(** ** The heap function computes the function on trees *)
(* ------------------------------------------------------------------ *)

(** Forall2 under a hypothesis that holds for every element of the right list. *)
Lemma Forall2_Forall_r {A B} (P : B -> Prop) (R R' : A -> B -> Prop) l l' :
  Forall P l' -> (forall a b, P b -> R a b -> R' a b) ->
  Forall2 R l l' -> Forall2 R' l l'.
Proof.
  intros HP Himp H. induction H as [|a b l l' Hab Hrest IH]; constructor.
  - inversion HP; subst. auto.
  - inversion HP; subst. auto.
Qed.

Lemma built_change v :
  forall h h' hi hi' lo lo' hv,
    lo' <= lo -> hi <= hi' ->
    (forall l, lo <= l < hi -> h' !! l = h !! l) ->
    built h hi lo hv v -> built h' hi' lo' hv v.
Proof.
  induction v as [| | | |elems IH|props IH] using tree_ind;
    intros h h' hi hi' lo lo' hv Hlo Hhi Hagree Hb; inversion Hb; subst;
    try constructor.
  - eapply built_arr; [lia|rewrite Hagree by lia; eassumption|].
    eapply Forall2_Forall_r; [exact IH| |eassumption].
    intros a b HP Hab. cbv beta in HP. eapply HP; [| |  |exact Hab]; try lia.
    intros l0 Hl0. apply Hagree. lia.
  - eapply built_obj; [lia|rewrite Hagree by lia; eassumption|].
    eapply Forall2_Forall_r; [exact IH| |eassumption].
    intros a b HP [Hk Hab]. split; [exact Hk|].
    cbv beta in HP. eapply HP; [| | |exact Hab]; try lia.
    intros l0 Hl0. apply Hagree. lia.
Qed.

Lemma built_repr v :
  forall h hi lo hv, built h hi lo hv v -> repr h hv v.
Proof.
  induction v as [| | | |elems IH|props IH] using tree_ind;
    intros h hi lo hv Hb; inversion Hb; subst; try constructor.
  - eapply repr_arr; [eassumption|].
    eapply Forall2_Forall_r; [exact IH| |eassumption].
    intros a b HP Hab. eapply HP. exact Hab.
  - eapply repr_obj; [eassumption|].
    eapply Forall2_Forall_r; [exact IH| |eassumption].
    intros a b HP [Hk Hab]. split; [exact Hk|]. eapply HP. exact Hab.
Qed.

(** *** Reading a represented value *)

Lemma repr_truthy h hv v : repr h hv v -> htruthy hv = truthy v.
Proof. inversion 1; reflexivity. Qed.

Lemma repr_is_object h hv v : repr h hv v -> is_hobject hv = is_object v.
Proof. inversion 1; reflexivity. Qed.

Lemma repr_is_mapping h hv v : repr h hv v -> is_hmapping h hv = is_mapping v.
Proof.
  inversion 1 as [| | | |l helems elems Hl _|l hprops props Hl _]; subst;
    simpl; try reflexivity; rewrite Hl; reflexivity.
Qed.

Lemma repr_hassoc h hprops props k :
  Forall2 (fun hp p => fst hp = fst p /\ repr h (snd hp) (snd p)) hprops props ->
  same_read h (hassoc k hprops) (assoc k props).
Proof.
  induction 1 as [|[k1 x] [k2 y] hrest rest [Hk Hxy] Hrest IH]; simpl; [exact I|].
  simpl in Hk, Hxy. subst k2. destruct (k =? k1); [exact Hxy|exact IH].
Qed.

Lemma repr_hget h hv v k : repr h hv v -> same_read h (hget h hv k) (get v k).
Proof.
  inversion 1 as [| | | |l helems elems Hl Hall|l hprops props Hl Hall]; subst;
    simpl; try exact I; rewrite Hl.
  - destruct (index_of_key k) as [i|]; [|exact I].
    destruct (helems !! i) as [x|] eqn:Ex.
    + destruct (Forall2_lookup_l _ _ _ _ _ Hall Ex) as (y & Hy & Hxy).
      rewrite <- nth_lookup_or_length in Hy || idtac.
      assert (Hn : nth_error elems i = Some y).
      { clear -Hy. revert i Hy. induction elems as [|e rest IH]; intros [|i] H;
          try discriminate; simpl in *; auto. }
      rewrite Hn. exact Hxy.
    + assert (Hn : nth_error elems i = None).
      { apply nth_error_None. apply lookup_ge_None in Ex.
        rewrite <- (Forall2_length _ _ _ Hall). exact Ex. }
      rewrite Hn. exact I.
  - apply repr_hassoc. exact Hall.
Qed.

Lemma same_read_hoget h o o' k :
  same_read h o o' -> same_read h (hoget h o k) (oget o' k).
Proof.
  destruct o as [x|], o' as [y|]; simpl; try tauto.
  intros Hr. pose proof (repr_hget h x y k Hr) as H.
  inversion Hr; subst; simpl in *; try exact I; exact H.
Qed.

Lemma same_read_truthy h o o' : same_read h o o' -> ohtruthy o = otruthy o'.
Proof.
  destruct o as [x|], o' as [y|]; simpl; try tauto. apply repr_truthy.
Qed.

Lemma same_read_string h o o' s : same_read h o o' -> is_hstring o s = is_string o' s.
Proof.
  destruct o as [x|], o' as [y|]; simpl; try tauto. inversion 1; reflexivity.
Qed.

Lemma same_read_true h o o' : same_read h o o' -> is_htrue o = is_true o'.
Proof.
  destruct o as [x|], o' as [y|]; simpl; try tauto. inversion 1; reflexivity.
Qed.

Lemma same_read_name h o o' :
  same_read h o o' -> getSchemaNameFromRef o = StripDeprecated.getSchemaNameFromRef o'.
Proof.
  destruct o as [x|], o' as [y|]; simpl; try tauto. inversion 1; reflexivity.
Qed.

Lemma repr_marked_deprecated h hv v :
  repr h hv v -> marked_deprecated h hv = StripDeprecated.marked_deprecated v.
Proof.
  intros Hr. unfold marked_deprecated, StripDeprecated.marked_deprecated.
  rewrite (repr_truthy _ _ _ Hr), (repr_is_object _ _ _ Hr), (repr_is_mapping _ _ _ Hr).
  rewrite (same_read_true _ _ _ (repr_hget _ _ _ "deprecated" Hr)). reflexivity.
Qed.

Lemma repr_isRefToDeprecatedSchema h hv v names :
  repr h hv v ->
  isRefToDeprecatedSchema h hv names = StripDeprecated.isRefToDeprecatedSchema v names.
Proof.
  intros Hr. unfold isRefToDeprecatedSchema, StripDeprecated.isRefToDeprecatedSchema.
  rewrite (repr_truthy _ _ _ Hr), (repr_is_mapping _ _ _ Hr).
  pose proof (repr_hget _ _ _ "$ref" Hr) as Href.
  pose proof (repr_hget _ _ _ "type" Hr) as Htype.
  pose proof (repr_hget _ _ _ "items" Hr) as Hitems.
  pose proof (same_read_hoget _ _ _ "$ref" Hitems) as Hiref.
  rewrite (same_read_name _ _ _ Href), (same_read_string _ _ _ _ Htype).
  rewrite (same_read_truthy _ _ _ Hitems), (same_read_truthy _ _ _ Hiref).
  rewrite (same_read_name _ _ _ Hiref).
  replace (match hget h hv "items" with Some i => is_hobject i | None => false end)
    with (match get v "items" with Some i => is_object i | None => false end).
  { reflexivity. }
  destruct (hget h hv "items") as [x|], (get v "items") as [y|]; simpl in Hitems;
    try tauto. symmetry. eapply repr_is_object. exact Hitems.
Qed.

(** *** The loops *)

Lemma preserves_lookup h h' l : preserves h h' -> l < length h -> h' !! l = h !! l.
Proof.
  intros Hp Hl. destruct (lookup_lt_is_Some_2 h l Hl) as (o & Ho).
  rewrite Ho. apply Hp. exact Ho.
Qed.

Lemma building_agree h0 h h' b :
  building h0 h b -> (forall l, l <= length h0 -> h' !! l = h !! l) -> building h0 h' b.
Proof.
  intros [Hp Hr] Hagree. split.
  - intros l o Ho. rewrite Hagree; [auto|]. apply lookup_lt_Some in Ho. lia.
  - rewrite Hagree by lia. exact Hr.
Qed.

Lemma push_elem_at h n acc r :
  h !! n = Some (HArr acc) -> push_elem h n r = <[n := HArr (acc ++ [r])]> h.
Proof. intros H. unfold push_elem. rewrite H. reflexivity. Qed.

Lemma strip_elems_builds recur names l h0 helems elems :
  (forall v h res, recur v h = Ok res -> frame h res) ->
  (forall v val h, In v elems -> repr h val v ->
     exists r h1, recur val h = Ok (r, h1)
       /\ built h1 (length h1) (length h) r (StripDeprecated.stripDeprecated v names)) ->
  h0 !! l = Some (HArr helems) ->
  Forall2 (repr h0) helems elems ->
  forall todo done h acc,
    elems = done ++ todo ->
    building h0 h false ->
    h !! length h0 = Some (HArr acc) ->
    Forall2 (built h (length h) (S (length h0))) acc
      (map (fun v => StripDeprecated.stripDeprecated v names) done) ->
    exists h' acc',
      strip_elems recur l (length h0) (seq (length done) (length todo)) h = Ok h'
      /\ h' !! length h0 = Some (HArr acc')
      /\ Forall2 (built h' (length h') (S (length h0))) acc'
           (map (fun v => StripDeprecated.stripDeprecated v names) elems).
Proof.
  intros Hframe Hrec Hl Hall.
  induction todo as [|v todo IH]; intros done h acc Helems Hb Hacc Hdone.
  - rewrite app_nil_r in Helems. subst done. exists h, acc. simpl. auto.
  - assert (Hv : elems !! length done = Some v).
    { rewrite Helems. apply list_lookup_middle. reflexivity. }
    destruct (Forall2_lookup_r _ _ _ _ _ Hall Hv) as (val & Hval & Hr).
    cbn [strip_elems length seq]. rewrite (proj1 Hb _ _ Hl), Hval.
    assert (Hin : In v elems).
    { rewrite Helems. apply in_or_app. right. left. reflexivity. }
    destruct (Hrec v val h Hin (repr_preserved _ _ _ _ (proj1 Hb) Hr))
      as (r & h1 & Hcall & Hbuilt).
    rewrite Hcall. cbn [bind fst snd].
    destruct (Hframe _ _ _ Hcall) as (Hp & Hlen & _). cbn [fst snd] in *.
    pose proof (building_length _ _ _ Hb) as Hlt.
    pose proof (building_preserved _ _ _ _ Hb Hp) as Hb1.
    destruct (building_push_elem _ _ r Hb1) as (Hb2 & Hlen2).
    rewrite (push_elem_at h1 (length h0) acc r (Hp _ _ Hacc)) in *.
    specialize (IH (done ++ [v]) (<[length h0 := HArr (acc ++ [r])]> h1) (acc ++ [r])).
    rewrite length_app in IH. simpl in IH. rewrite Nat.add_1_r in IH.
    apply IH.
    + rewrite <- app_assoc. exact Helems.
    + exact Hb2.
    + apply list_lookup_insert_eq. lia.
    + rewrite map_app. apply Forall2_app.
      * eapply Forall2_impl; [exact Hdone|]. intros x y Hxy.
        eapply built_change; [| | |exact Hxy]; [lia|rewrite length_insert; lia|].
        intros l0 Hl0. rewrite list_lookup_insert_ne by lia.
        apply preserves_lookup; [exact Hp|lia].
      * constructor; [|constructor].
        eapply built_change; [| | |exact Hbuilt]; [lia|rewrite length_insert; lia|].
        intros l0 Hl0. apply list_lookup_insert_ne. lia.
Qed.

Lemma kept_props_app names done todo :
  kept_props names (done ++ todo) = kept_props names done ++ kept_props names todo.
Proof.
  induction done as [|[k v] rest IH]; simpl; [reflexivity|].
  destruct (StripDeprecated.marked_deprecated v); [exact IH|].
  destruct (StripDeprecated.isRefToDeprecatedSchema v names); [exact IH|].
  simpl. f_equal. exact IH.
Qed.

Lemma hset_key_new key r acc :
  ~ In key (map fst acc) -> hset_key key r acc = acc ++ [(key, r)].
Proof.
  induction acc as [|[k v] rest IH]; simpl; intros Hnot; [reflexivity|].
  destruct (key =? k) eqn:E.
  - apply String.eqb_eq in E. subst k. tauto.
  - f_equal. apply IH. tauto.
Qed.

Lemma distinct_middle (done : list (string * tree)) key v todo :
  distinct (map fst (done ++ (key, v) :: todo)) = true -> ~ In key (map fst done).
Proof.
  induction done as [|[k w] rest IH]; simpl; intros Hd Hin; [exact Hin|].
  apply andb_true_iff in Hd as [Hk Hd]. destruct Hin as [->|Hin]; [|exact (IH Hd Hin)].
  apply negb_true_iff in Hk. rewrite map_app in Hk. simpl in Hk.
  rewrite existsb_app in Hk. simpl in Hk. rewrite String.eqb_refl in Hk.
  rewrite orb_true_r in Hk. discriminate Hk.
Qed.

Lemma assoc_middle (done : list (string * tree)) key v todo :
  ~ In key (map fst done) -> assoc key (done ++ (key, v) :: todo) = Some v.
Proof.
  induction done as [|[k w] rest IH]; simpl; intros Hnot.
  - rewrite String.eqb_refl. reflexivity.
  - destruct (key =? k) eqn:E; [apply String.eqb_eq in E; subst k; tauto|].
    apply IH. tauto.
Qed.

Lemma keys_of_kept_props names key done :
  In key (map fst (kept_props names done)) -> In key (map fst done).
Proof.
  intros Hin. apply in_map_iff in Hin as ([k w] & Hk & Hin). simpl in Hk. subst k.
  destruct (In_kept_props _ _ _ _ Hin) as (v & Hv & _).
  apply in_map_iff. exists (key, v). auto.
Qed.

Lemma Forall2_keys {A B} (R : A -> B -> Prop) (l : list (string * A)) (l' : list (string * B)) :
  Forall2 (fun p q => fst p = fst q /\ R (snd p) (snd q)) l l' -> map fst l = map fst l'.
Proof. induction 1 as [|p q l l' [Hk _] _ IH]; simpl; congruence. Qed.

Lemma Forall2_remove_key {A B} (R : A -> B -> Prop) d
    (l : list (string * A)) (l' : list (string * B)) :
  Forall2 (fun p q => fst p = fst q /\ R (snd p) (snd q)) l l' ->
  Forall2 (fun p q => fst p = fst q /\ R (snd p) (snd q))
    (List.filter (fun kv => negb (fst kv =? d)) l)
    (List.filter (fun kv => negb (fst kv =? d)) l').
Proof.
  induction 1 as [|p q l l' [Hk Hr] _ IH]; simpl; [constructor|].
  rewrite <- Hk. destruct (negb (fst p =? d)); [constructor; auto|exact IH].
Qed.

(** Deleting [deprecated] from the mapping just stored: the stored value
    stands for the tree without that key, and nothing before it changes. *)
Lemma after_delete_builds h hi lo r w :
  built h hi lo r w ->
  built (after_delete h r) hi lo r (StripDeprecated.delete_deprecated w)
  /\ (forall l, l < lo -> after_delete h r !! l = h !! l)
  /\ length (after_delete h r) = length h.
Proof.
  intros Hb.
  inversion Hb as [| | | |lo' l helems elems Hl Hh Hall|lo' l hprops props Hl Hh Hall];
    subst; simpl; try (split; [constructor|split; [reflexivity|reflexivity]]).
  - unfold delete_prop. rewrite Hh. split; [exact Hb|]. split; reflexivity.
  - unfold delete_prop. rewrite Hh. rewrite length_insert.
    split; [|split; [intros l0 Hl0; apply list_lookup_insert_ne; lia|reflexivity]].
    eapply built_obj; [exact Hl| |].
    + apply list_lookup_insert_eq. eapply lookup_lt_Some. exact Hh.
    + unfold remove_key.
      apply (Forall2_remove_key (fun x y => built _ hi (S l) x y)).
      eapply Forall2_impl; [exact Hall|]. intros x y [Hk Hxy]. split; [exact Hk|].
      eapply built_change; [| | |exact Hxy]; [lia|lia|].
      intros l0 Hl0. apply list_lookup_insert_ne. lia.
Qed.

Lemma set_prop_at h n key r acc :
  h !! n = Some (HObj acc) -> ~ In key (map fst acc) ->
  set_prop h n key r = <[n := HObj (acc ++ [(key, r)])]> h.
Proof. intros H Hnew. unfold set_prop. rewrite H, (hset_key_new _ _ _ Hnew). reflexivity. Qed.

Lemma strip_props_builds recur names l h0 hprops props :
  (forall v h res, recur v h = Ok res -> frame h res) ->
  (forall k v val h, In (k, v) props -> repr h val v ->
     exists r h1, recur val h = Ok (r, h1)
       /\ built h1 (length h1) (length h) r (StripDeprecated.stripDeprecated v names)) ->
  h0 !! l = Some (HObj hprops) ->
  Forall2 (fun hp p => fst hp = fst p /\ repr h0 (snd hp) (snd p)) hprops props ->
  distinct (map fst props) = true ->
  forall todo done h acc,
    props = done ++ todo ->
    building h0 h true ->
    h !! length h0 = Some (HObj acc) ->
    Forall2 (fun hp p => fst hp = fst p /\ built h (length h) (S (length h0)) (snd hp) (snd p))
      acc (kept_props names done) ->
    exists h' acc',
      strip_props recur names l (length h0) (map fst todo) h = Ok h'
      /\ h' !! length h0 = Some (HObj acc')
      /\ Forall2 (fun hp p => fst hp = fst p
                              /\ built h' (length h') (S (length h0)) (snd hp) (snd p))
           acc' (kept_props names props).
Proof.
  intros Hframe Hrec Hl Hall Hdistinct.
  induction todo as [|[key v] todo IH]; intros done h acc Hprops Hb Hacc Hdone.
  - rewrite app_nil_r in Hprops. subst done. exists h, acc. simpl. auto.
  - assert (Hfresh : ~ In key (map fst done)).
    { eapply distinct_middle. rewrite <- Hprops. exact Hdistinct. }
    assert (Hval : exists val, hassoc key hprops = Some val /\ repr h0 val v).
    { pose proof (repr_hassoc h0 hprops props key Hall) as Hsame.
      rewrite Hprops, (assoc_middle _ _ _ _ Hfresh) in Hsame.
      destruct (hassoc key hprops) as [val|]; [|destruct Hsame]. eauto. }
    destruct Hval as (val & Hval & Hr).
    pose proof (repr_preserved _ _ _ _ (proj1 Hb) Hr) as Hr'.
    assert (Hin : In (key, v) props).
    { rewrite Hprops. apply in_or_app. right. left. reflexivity. }
    assert (Hnext : props = (done ++ [(key, v)]) ++ todo).
    { rewrite <- app_assoc. exact Hprops. }
    cbn [strip_props map fst].
    assert (Hget : hget h (HRef l) key = Some val).
    { unfold hget. rewrite (proj1 Hb _ _ Hl). exact Hval. }
    rewrite Hget.
    rewrite (repr_marked_deprecated _ _ _ Hr'), (repr_isRefToDeprecatedSchema _ _ _ names Hr').
    specialize (IH (done ++ [(key, v)])).
    rewrite kept_props_app in IH. cbn [kept_props] in IH.
    destruct (StripDeprecated.marked_deprecated v).
    { apply (IH h acc Hnext Hb Hacc). rewrite app_nil_r. exact Hdone. }
    destruct (StripDeprecated.isRefToDeprecatedSchema v names).
    { apply (IH h acc Hnext Hb Hacc). rewrite app_nil_r. exact Hdone. }
    destruct (Hrec key v val h Hin Hr') as (r & h1 & Hcall & Hbuilt).
    rewrite Hcall. cbn [bind fst snd].
    destruct (Hframe _ _ _ Hcall) as (Hp & Hlen & _). cbn [fst snd] in *.
    pose proof (building_length _ _ _ Hb) as Hlt.
    pose proof (building_preserved _ _ _ _ Hb Hp) as Hb1.
    assert (Hnew : ~ In key (map fst acc)).
    { rewrite (Forall2_keys _ _ _ Hdone). intros Hk.
      apply Hfresh. eapply keys_of_kept_props. exact Hk. }
    destruct (building_set_prop _ _ key r Hb1) as (Hb2 & Hget2 & Hlen2).
    rewrite Hget2.
    rewrite (set_prop_at h1 (length h0) key r acc (Hp _ _ Hacc) Hnew) in *.
    set (h2 := <[length h0 := HObj (acc ++ [(key, r)])]> h1) in *.
    change (match Some r with
            | Some (HRef kept) => delete_prop h2 kept "deprecated"
            | _ => h2
            end) with (after_delete h2 r).
    assert (Hbuilt2 : built h2 (length h2) (length h) r
                        (StripDeprecated.stripDeprecated v names)).
    { eapply built_change; [| | |exact Hbuilt]; [lia|lia|].
      intros l0 Hl0. apply list_lookup_insert_ne. lia. }
    destruct (after_delete_builds _ _ _ _ _ Hbuilt2) as (Hbuilt3 & Hsame & Hlen3).
    apply (IH (after_delete h2 r) (acc ++ [(key, r)]) Hnext).
    + eapply building_agree; [exact Hb2|]. intros l0 Hl0. apply Hsame. lia.
    + rewrite Hsame by lia. apply list_lookup_insert_eq. lia.
    + apply Forall2_app.
      * eapply Forall2_impl; [exact Hdone|]. intros x y [Hk Hxy]. split; [exact Hk|].
        eapply built_change; [| | |exact Hxy]; [lia|lia|].
        intros l0 Hl0. rewrite Hsame by lia. unfold h2.
        rewrite list_lookup_insert_ne by lia.
        apply preserves_lookup; [exact Hp|lia].
      * constructor; [|constructor]. split; [reflexivity|]. cbn [snd].
        eapply built_change; [| | |exact Hbuilt3]; [lia|lia|]. auto.
Qed.

(** What [Heap.stripDeprecated] returns stands for the tree that
    [StripDeprecated.stripDeprecated] computes, in new objects only. *)
Lemma stripDeprecated_builds names :
  forall fuel v h hv,
    wf v -> repr h hv v -> height v < fuel ->
    exists r h',
      stripDeprecated fuel hv names h = Ok (r, h')
      /\ built h' (length h') (length h) r (StripDeprecated.stripDeprecated v names).
Proof.
  induction fuel as [|fuel IH]; intros v h hv Hwf Hr Hfuel; [lia|].
  cbn [stripDeprecated].
  inversion Hr as [| | | |l helems elems Hl Hall|l hprops props Hl Hall]; subst;
    try (eexists _, _; split; [reflexivity|constructor]).
  - rewrite Hl. unfold alloc.
    destruct (strip_elems_builds
                (fun v => stripDeprecated fuel v names) names l h helems elems
                (fun v h res => stripDeprecated_frame names fuel v h res)
                (fun v val h' Hin Hrv =>
                   IH v h' val (wf_element _ _ Hwf Hin) Hrv
                     ltac:(pose proof (height_element _ _ Hin); lia))
                Hl Hall elems [] (h ++ [HArr []]) [] eq_refl
                (building_start h (HArr []))
                ltac:(rewrite lookup_app_r by lia; rewrite Nat.sub_diag; reflexivity)
                ltac:(constructor)) as (h' & acc' & Hloop & Hacc & Hbuilt).
    simpl in Hloop. rewrite (Forall2_length _ _ _ Hall). rewrite Hloop. cbn [bind].
    exists (HRef (length h)), h'. split; [reflexivity|].
    cbn [StripDeprecated.stripDeprecated].
    eapply built_arr; [|exact Hacc|exact Hbuilt].
    apply lookup_lt_Some in Hacc. lia.
  - rewrite Hl. unfold alloc.
    destruct (strip_props_builds
                (fun v => stripDeprecated fuel v names) names l h hprops props
                (fun v h res => stripDeprecated_frame names fuel v h res)
                (fun k v val h' Hin Hrv =>
                   IH v h' val (wf_property _ _ _ Hwf Hin) Hrv
                     ltac:(pose proof (height_property _ _ _ Hin); lia))
                Hl Hall (wf_mapping _ Hwf) props [] (h ++ [HObj []]) [] eq_refl
                (building_start h (HObj []))
                ltac:(rewrite lookup_app_r by lia; rewrite Nat.sub_diag; reflexivity)
                ltac:(constructor)) as (h' & acc' & Hloop & Hacc & Hbuilt).
    rewrite (Forall2_keys _ _ _ Hall). rewrite Hloop. cbn [bind].
    exists (HRef (length h)), h'. split; [reflexivity|].
    rewrite stripDeprecated_mapping.
    eapply built_obj; [|exact Hacc|exact Hbuilt].
    apply lookup_lt_Some in Hacc. lia.
Qed.

(** The function on trees is what the script computes on the heap: on a heap
    that holds the tree [v] at [hv], the call returns a value that stands
    for [StripDeprecated.stripDeprecated v names], and [hv] still stands for
    [v]. *)
Lemma stripDeprecated_on_the_heap h hv v names :
  wf v -> repr h hv v ->
  exists fuel r h',
    stripDeprecated fuel hv names h = Ok (r, h')
    /\ repr h' r (StripDeprecated.stripDeprecated v names)
    /\ repr h' hv v.
Proof.
  intros Hwf Hr.
  destruct (stripDeprecated_builds names (S (height v)) v h hv Hwf Hr ltac:(lia))
    as (r & h' & Hrun & Hbuilt).
  exists (S (height v)), r, h'. split; [exact Hrun|].
  split; [eapply built_repr; exact Hbuilt|].
  destruct (stripDeprecated_frame _ _ _ _ _ Hrun) as (Hp & _).
  eapply repr_preserved; eauto.
Qed.


(* ------------------------------------------------------------------ *)
(** ** The renderer ends on schemas without references *)
(* ------------------------------------------------------------------ *)

Lemma ends_bind {A B} (m : outcome A) (f : A -> outcome B) :
  ends m = true -> (forall a, m = Ok a -> ends (f a) = true) -> ends (bind m f) = true.
Proof. destruct m; simpl; auto. Qed.

Lemma ends_map_outcome {A B} (f : A -> outcome B) l :
  (forall a, In a l -> ends (f a) = true) -> ends (map_outcome f l) = true.
Proof.
  induction l as [|a l IH]; intros H; [reflexivity|].
  simpl. apply ends_bind; [apply H; left; reflexivity|]. intros b _.
  apply ends_bind; [apply IH; intros; apply H; right; assumption|]. reflexivity.
Qed.

Lemma getTypeString_ends spec schema refName :
  ends (getTypeString spec schema refName) = true.
Proof.
  unfold getTypeString. destruct (negb (truthy schema)); [reflexivity|].
  destruct (get schema "enum") as [e|]; [|reflexivity].
  destruct (truthy e); [|reflexivity]. destruct e; reflexivity.
Qed.

Lemma required_set_ends required : ends (required_set required) = true.
Proof.
  destruct required as [r|]; [|reflexivity]. simpl.
  destruct (truthy r); [|reflexivity]. destruct r; reflexivity.
Qed.

Lemma In_indexed_from k v elems : forall i, In (k, v) (indexed_from i elems) -> In v elems.
Proof.
  induction elems as [|e rest IH]; intros i H; [destruct H|].
  simpl in H. destruct H as [[= _ <-]|H]; [left; reflexivity|right; eauto].
Qed.

(** A member of a tree is lower than the tree, and has no reference when
    the tree has none. *)
Lemma entry_below t k v :
  In (k, v) (entries t) -> height v < height t /\ (ref_free t = true -> ref_free v = true).
Proof.
  destruct t as [| | | |elems|props]; simpl; try tauto; intros Hin.
  - apply In_indexed_from in Hin. split; [exact (height_element _ _ Hin)|].
    intros H. rewrite forallb_forall in H. auto.
  - split; [exact (height_property _ _ _ Hin)|].
    intros H. apply andb_true_iff in H as [_ H]. rewrite forallb_forall in H.
    exact (H _ Hin).
Qed.

Lemma nth_error_In_entries elems i v :
  nth_error elems i = Some v -> exists k, In (k, v) (entries (VArr elems)).
Proof.
  simpl. generalize 0. revert i.
  induction elems as [|e rest IH]; intros [|i] n H; try discriminate; simpl in *.
  - injection H as <-. eexists. left. reflexivity.
  - destruct (IH _ (S n) H) as (k & Hk). exists k. right. exact Hk.
Qed.

Lemma get_below t k v :
  get t k = Some v -> height v < height t /\ (ref_free t = true -> ref_free v = true).
Proof.
  destruct t as [| | | |elems|props]; simpl; try discriminate.
  - destruct (index_of_key k) as [i|]; [|discriminate]. intros H.
    destruct (nth_error_In_entries _ _ _ H) as (k' & Hin).
    exact (entry_below (VArr elems) k' v Hin).
  - intros H. exact (entry_below (VObj props) k v (assoc_In _ _ _ H)).
Qed.

Lemma qget_below t k v :
  qget t k = Some v -> height v < height t /\ (ref_free t = true -> ref_free v = true).
Proof.
  unfold qget, oget. destruct t; try discriminate; apply get_below.
Qed.

Lemma ref_free_no_ref t : ref_free t = true -> otruthy (get t "$ref") = false.
Proof.
  destruct t as [| | | |elems|props]; try reflexivity; simpl.
  intros H. apply andb_true_iff in H as [H _]. apply negb_true_iff in H. exact H.
Qed.

Lemma resolveSchema_ref_free spec schema :
  ref_free schema = true ->
  resolveSchema spec schema = if truthy schema then schema else VNull.
Proof.
  intros H. unfold resolveSchema. rewrite (ref_free_no_ref _ H).
  destruct (truthy schema); reflexivity.
Qed.

(** On a schema without references the recursion goes to parts of the
    schema, and the fuel suffices once it exceeds the height. *)
Lemma schemaToExpandableContent_ends spec :
  forall fuel schema schemaName indent,
    ref_free schema = true -> height schema < fuel ->
    ends (schemaToExpandableContent fuel spec schema schemaName indent) = true.
Proof.
  induction fuel as [|fuel IH]; intros schema schemaName indent Hfree Hfuel; [lia|].
  cbn [schemaToExpandableContent].
  rewrite (resolveSchema_ref_free _ _ Hfree).
  destruct (truthy schema) eqn:Ht; [|reflexivity]. rewrite Ht. cbn [negb].
  destruct (get schema "properties") as [props|] eqn:Hprops; [|reflexivity].
  match goal with |- ends (if ?c then _ else _) = true => destruct c end; [|reflexivity].
  destruct (get_below _ _ _ Hprops) as [Hh Hf]. specialize (Hf Hfree).
  apply ends_bind; [apply required_set_ends|]. intros required _.
  apply ends_bind; [|reflexivity].
  apply ends_map_outcome. intros [propName propSchema] Hin.
  destruct (entry_below _ _ _ Hin) as [Hh' Hf']. specialize (Hf' Hf).
  unfold property_lines.
  rewrite (resolveSchema_ref_free _ _ Hf').
  assert (Hnoref : otruthy (qget propSchema "$ref") = false).
  { unfold qget, oget. destruct propSchema; try reflexivity; apply ref_free_no_ref;
      exact Hf'. }
  rewrite Hnoref. cbn [andb orb].
  set (propResolved := if truthy propSchema then propSchema else VNull).
  assert (Hres : forall k v, qget propResolved k = Some v ->
                   height v < height propSchema /\ ref_free v = true).
  { intros k v Hv. unfold propResolved in Hv. destruct (truthy propSchema).
    - destruct (qget_below _ _ _ Hv) as [? HfV]. auto.
    - discriminate Hv. }
  apply ends_bind; [apply getTypeString_ends|]. intros typeStr _.
  match goal with |- ends (if ?c then _ else _) = true => destruct c eqn:Hc end.
  - apply andb_true_iff in Hc as [_ Hc]. rewrite orb_false_r in Hc. rewrite Hc.
    apply ends_bind; [|reflexivity].
    apply IH.
    + unfold propResolved. destruct (truthy propSchema); [exact Hf'|reflexivity].
    + unfold propResolved. destruct (truthy propSchema); simpl; lia.
  - match goal with |- ends (if ?c then _ else _) = true => destruct c eqn:Hc2 end;
      [|reflexivity].
    apply ends_bind; [apply getTypeString_ends|]. intros arrTypeStr _.
    apply ends_bind; [|reflexivity].
    set (propItems := or_else (qget propResolved "items") (qget propSchema "items")) in *.
    assert (Hitems : forall i, propItems = Some i ->
                       height i < height propSchema /\ ref_free i = true).
    { intros i Hi. unfold propItems, or_else in Hi.
      destruct (otruthy (qget propResolved "items")).
      - eapply Hres. exact Hi.
      - destruct (qget_below _ _ _ Hi) as [? HfI]. auto. }
    destruct propItems as [i|] eqn:Ei.
    + destruct (Hitems i eq_refl) as [Hhi Hfi].
      assert (Hnr : otruthy (oget (Some i) "$ref") = false).
      { unfold oget. destruct i; try reflexivity; apply ref_free_no_ref; exact Hfi. }
      rewrite Hnr. apply IH; [exact Hfi|simpl; lia].
    + simpl. apply IH; [reflexivity|simpl; lia].
Qed.


(* ================================================================== *)
(** * More about the Filter *)
(* ================================================================== *)

Import StripDeprecated.

(* ------------------------------------------------------------------ *)
(** ** The two helpers that read a schema name *)
(* ------------------------------------------------------------------ *)

(** [getSchemaNameFromRef] yields a name for the strings
    [#/components/schemas/<name>] with a name that is not empty and holds no
    line terminator, and for nothing else: not for a value that is no string,
    not for a pointer into another section or another file. *)
Theorem getSchemaNameFromRef_accepts_pointers_only ref name :
  StripDeprecated.getSchemaNameFromRef ref = Some name <->
  ref = Some (VStr (SCHEMAS_POINTER +:+ name))
  /\ name <> EmptyString /\ dot_star name = name.
Proof.
  split.
  - intros H. destruct ref as [[| | |s| |]|]; try discriminate H.
    apply getSchemaNameFromRef_spec in H as (-> & Hne & Hdot). auto.
  - intros (-> & Hne & Hdot). apply getSchemaNameFromRef_spec. auto.
Qed.

Lemma dot_star_first name :
  name <> EmptyString -> dot_star name = name -> (dot_star name =? EmptyString) = false.
Proof.
  intros Hne Hdot. rewrite Hdot. apply String.eqb_neq. exact Hne.
Qed.

Lemma match_anywhere_here s rest :
  strip_prefix SCHEMAS_POINTER s = Some rest ->
  (dot_star rest =? EmptyString) = false ->
  match_anywhere s = Some (dot_star rest).
Proof.
  intros Hhere Hne. destruct s as [|c s']; [discriminate Hhere|].
  cbn [match_anywhere]. rewrite Hhere, Hne. reflexivity.
Qed.

(** Where the anchored helper of the Filter finds a name, the helper of the
    Renderer finds the same name. *)
Theorem getRefName_extends_getSchemaNameFromRef ref name :
  StripDeprecated.getSchemaNameFromRef ref = Some name ->
  SchemaToMintlify.getRefName ref = Some name.
Proof.
  intros H. destruct ref as [[| | |s| |]|]; try discriminate H.
  apply getSchemaNameFromRef_spec in H as (-> & Hne & Hdot).
  unfold SchemaToMintlify.getRefName.
  assert (Hs : (SCHEMAS_POINTER +:+ name =? EmptyString) = false) by reflexivity.
  rewrite Hs.
  rewrite (match_anywhere_here _ name (strip_prefix_app _ _) (dot_star_first _ Hne Hdot)).
  rewrite Hdot. reflexivity.
Qed.

Lemma getRefName_of_old_pointer :
  StripDeprecated.getSchemaNameFromRef (Some (VStr "#/components/schemas/Old")) = Some "Old"
  /\ SchemaToMintlify.getRefName (Some (VStr "#/components/schemas/Old")) = Some "Old".
Proof.
  split; [reflexivity|].
  exact (getRefName_extends_getSchemaNameFromRef
           (Some (VStr "#/components/schemas/Old")) "Old" eq_refl).
Defined.

(* ------------------------------------------------------------------ *)
(** ** The set of deprecated schema names *)
(* ------------------------------------------------------------------ *)

Lemma lookup_path2 spec a b :
  lookup_path spec [a; b] = oget (oget (Some spec) a) b.
Proof.
  cbn [lookup_path]. destruct (oget (Some spec) a) as [x|]; [|reflexivity].
  destruct (oget (Some x) b); reflexivity.
Qed.

(** [buildDeprecatedSchemaNames] collects the names of the entries of
    [components.schemas] that are objects with [deprecated] equal to [true],
    and nothing else: it does not look below an entry, and it yields the empty
    set when there is no such section. *)
Theorem deprecated_names_are_the_flagged_entries spec n :
  n ∈ buildDeprecatedSchemaNames spec <->
  exists schemas schema,
    lookup_path spec ["components"; "schemas"] = Some schemas
    /\ In (n, schema) (entries schemas)
    /\ is_deprecated_schema schema = true.
Proof.
  rewrite lookup_path2, buildDeprecatedSchemaNames_spec. split.
  - intros (schemas & schema & H1 & _ & H3 & H4). eauto.
  - intros (schemas & schema & H1 & H3 & H4). exists schemas, schema.
    split; [exact H1|]. split; [|auto].
    destruct schemas; try destruct H3; reflexivity.
Qed.

(* ------------------------------------------------------------------ *)
(** ** stripDeprecated and its earlier version *)
(* ------------------------------------------------------------------ *)

Lemma no_names_no_reference val : isRefToDeprecatedSchema val ∅ = false.
Proof.
  unfold isRefToDeprecatedSchema.
  replace (bool_decide (size (∅ : gset string) = 0)) with true by reflexivity.
  rewrite !orb_true_r. reflexivity.
Qed.

(** With an empty set of names, [stripDeprecated] is the function of the
    earlier versions of the script, which did not look at references. *)
Theorem stripDeprecated_without_names value :
  stripDeprecated value ∅ = Earlier.stripDeprecated value.
Proof.
  induction value as [| | | |elems IH|props IH] using tree_ind; try reflexivity.
  - simpl. f_equal. apply map_ext_in. intros e Hin.
    rewrite List.Forall_forall in IH. auto.
  - simpl. f_equal. induction props as [|[k v] rest IHrest]; [reflexivity|].
    inversion IH as [|? ? Hv Hrest]; subst. simpl in Hv.
    rewrite no_names_no_reference, Hv, (IHrest Hrest). reflexivity.
Qed.

(* ------------------------------------------------------------------ *)
(** ** When stripDeprecated changes nothing *)
(* ------------------------------------------------------------------ *)

Lemma length_kept_props names props :
  length (kept_props names props) <= length props.
Proof.
  induction props as [|[k v] rest IH]; simpl; [lia|].
  destruct (marked_deprecated v); [lia|].
  destruct (isRefToDeprecatedSchema v names); simpl; lia.
Qed.

Lemma length_remove_key d (props : list (string * tree)) :
  length (remove_key d props) <= length props.
Proof.
  unfold remove_key. induction props as [|[k v] rest IH]; simpl; [lia|].
  destruct (negb (k =? d)); simpl; lia.
Qed.

Lemma remove_key_same_length d (props : list (string * tree)) :
  length (remove_key d props) = length props -> remove_key d props = props.
Proof.
  unfold remove_key. induction props as [|[k v] rest IH]; simpl; [reflexivity|].
  pose proof (length_remove_key d rest) as Hle. unfold remove_key in Hle.
  destruct (negb (k =? d)); simpl; intros H.
  - f_equal. apply IH. lia.
  - lia.
Qed.

Lemma kept_props_same names props :
  kept_props names props = props ->
  forall k v, In (k, v) props ->
    marked_deprecated v = false
    /\ isRefToDeprecatedSchema v names = false
    /\ delete_deprecated (stripDeprecated v names) = v.
Proof.
  induction props as [|[k0 v0] rest IH]; simpl; intros H k v Hin; [destruct Hin|].
  pose proof (length_kept_props names rest) as Hle.
  destruct (marked_deprecated v0) eqn:Hm.
  { apply (f_equal (@length _)) in H. simpl in H. lia. }
  destruct (isRefToDeprecatedSchema v0 names) eqn:Hr.
  { apply (f_equal (@length _)) in H. simpl in H. lia. }
  injection H as Hv Hrest.
  destruct Hin as [[= <- <-]|Hin]; [auto|]. eapply IH; eauto.
Qed.

Lemma deleted_same names v :
  delete_deprecated (stripDeprecated v names) = v ->
  stripDeprecated v names = v /\ no_deprecated_key v = true.
Proof.
  destruct v as [| | | |elems|props]; try (intros H; split; [exact H|reflexivity]).
  rewrite stripDeprecated_mapping. simpl. intros [= H].
  pose proof (length_kept_props names props) as H1.
  pose proof (length_remove_key "deprecated" (kept_props names props)) as H2.
  assert (Hlen : length (remove_key "deprecated" (kept_props names props))
                 = length (kept_props names props)).
  { rewrite H in *. lia. }
  apply remove_key_same_length in Hlen. split.
  - rewrite <- Hlen, H. reflexivity.
  - rewrite <- H. rewrite remove_key_no_key. reflexivity.
Qed.

Lemma map_same {A} (f : A -> A) l : map f l = l -> forall x, In x l -> f x = x.
Proof.
  induction l as [|a l IH]; simpl; intros H x Hin; [destruct Hin|].
  injection H as Ha Hl. destruct Hin as [<-|Hin]; auto.
Qed.

Lemma unchanged_is_stable names t :
  stripDeprecated t names = t -> stable names t = true.
Proof.
  induction t as [| | | |elems IH|props IH] using tree_ind; intros H; try reflexivity.
  - simpl in H. injection H as H. simpl. apply forallb_forall. intros e Hin.
    rewrite List.Forall_forall in IH. apply IH; [exact Hin|].
    exact (map_same _ _ H e Hin).
  - rewrite stripDeprecated_mapping in H. injection H as H. simpl.
    apply forallb_forall. intros [k v] Hin. simpl.
    destruct (kept_props_same _ _ H k v Hin) as (Hm & Hr & Hd).
    apply deleted_same in Hd as [Hs Hno].
    rewrite List.Forall_forall in IH. specialize (IH _ Hin). simpl in IH.
    rewrite (IH Hs), andb_true_r. unfold kept. rewrite Hm, Hr, Hno. reflexivity.
Qed.

(** On a document tree, [stripDeprecated] returns a copy equal to its
    argument exactly when no property value inside it is marked deprecated,
    refers to a deprecated schema or has a [deprecated] key. *)
Theorem stripDeprecated_changes_nothing_iff_stable names t :
  wf t ->
  stripDeprecated t names = t <-> stable names t = true.
Proof.
  intros _. split; [apply unchanged_is_stable|apply stripDeprecated_stable_id].
Qed.

Lemma stripDeprecated_changes_nothing_on_catalog_out :
  wf catalog_out
  /\ stable {["Old"]} catalog_out = true
  /\ stable {["Old"]} catalog_doc = false
  /\ (stripDeprecated catalog_out {["Old"]} = catalog_out
      <-> stable {["Old"]} catalog_out = true).
Proof.
  split; [reflexivity|]. split; [vm_compute; reflexivity|].
  split; [vm_compute; reflexivity|].
  exact (stripDeprecated_changes_nothing_iff_stable {["Old"]} catalog_out eq_refl).
Defined.

(** A second pass with the same names changes nothing. *)
Theorem stripDeprecated_twice names t :
  wf t ->
  stripDeprecated (stripDeprecated t names) names = stripDeprecated t names.
Proof.
  intros Hwf. apply stripDeprecated_stable_id, stripDeprecated_stable. exact Hwf.
Qed.

Lemma stripDeprecated_twice_on_catalog :
  wf catalog_doc
  /\ stripDeprecated (stripDeprecated catalog_doc {["Old"]}) {["Old"]}
     = stripDeprecated catalog_doc {["Old"]}.
Proof.
  split; [reflexivity|].
  exact (stripDeprecated_twice {["Old"]} catalog_doc eq_refl).
Defined.

(* ------------------------------------------------------------------ *)
(** ** What stripDeprecated leaves in place *)
(* ------------------------------------------------------------------ *)

Lemma lookup_deleted x path w :
  lookup_path (delete_deprecated x) path = Some w ->
  is_object w = false ->
  lookup_path x path = Some w.
Proof.
  destruct x as [| | | |elems|props]; try (intros H _; exact H).
  destruct path as [|k rest]; simpl.
  - intros [= <-]. discriminate.
  - intros H _. destruct (String.eqb_spec k "deprecated") as [->|Hne].
    + rewrite assoc_remove_key_eq in H. discriminate H.
    + rewrite (assoc_remove_key_ne _ _ _ Hne) in H. exact H.
Qed.

(** Every scalar of the result is the scalar at the same path of the
    argument: [stripDeprecated] changes no scalar, moves none and adds
    none. *)
Theorem stripDeprecated_keeps_scalars names :
  forall path t w,
    wf t ->
    lookup_path (stripDeprecated t names) path = Some w ->
    is_object w = false ->
    lookup_path t path = Some w.
Proof.
  induction path as [|k rest IH]; intros t w Hwf H Hw.
  - simpl in H. injection H as <-. destruct t; try discriminate Hw; reflexivity.
  - destruct t as [| | | |elems|props]; try discriminate H.
    + cbn [lookup_path oget stripDeprecated get] in *.
      destruct (index_of_key k) as [i|]; [|discriminate H].
      rewrite nth_error_map in H.
      destruct (nth_error elems i) as [e|] eqn:He; [|discriminate H].
      simpl in H. apply IH; [|exact H|exact Hw].
      eapply wf_element; [exact Hwf|]. eapply nth_error_In. exact He.
    + rewrite stripDeprecated_mapping in H.
      cbn [lookup_path oget get] in *.
      rewrite (assoc_kept_props _ _ _ (wf_mapping _ Hwf)) in H.
      destruct (assoc k props) as [v|] eqn:Hv; [|discriminate H].
      destruct (marked_deprecated v || isRefToDeprecatedSchema v names);
        [discriminate H|].
      apply lookup_deleted in H; [|exact Hw].
      apply IH; [|exact H|exact Hw].
      eapply wf_property; [exact Hwf|]. eapply assoc_In. exact Hv.
Qed.

Lemma stripDeprecated_keeps_type_of_c :
  wf catalog_doc
  /\ lookup_path (stripDeprecated catalog_doc {["Old"]})
       ["components"; "schemas"; "New"; "properties"; "c"; "type"] = Some (VStr "string")
  /\ lookup_path catalog_doc
       ["components"; "schemas"; "New"; "properties"; "c"; "type"] = Some (VStr "string").
Proof.
  assert (Hout : lookup_path (stripDeprecated catalog_doc {["Old"]})
                   ["components"; "schemas"; "New"; "properties"; "c"; "type"]
                 = Some (VStr "string")) by (vm_compute; reflexivity).
  split; [reflexivity|]. split; [exact Hout|].
  exact (stripDeprecated_keeps_scalars {["Old"]}
           ["components"; "schemas"; "New"; "properties"; "c"; "type"]
           catalog_doc (VStr "string") eq_refl Hout eq_refl).
Defined.

Lemma catalog_values_have_no_deprecated_key :
  wf catalog_doc
  /\ main catalog_doc = Ok catalog_out
  /\ pair_in "c" (VObj [("type", VStr "string")]) catalog_out
  /\ no_deprecated_key (VObj [("type", VStr "string")]) = true.
Proof.
  assert (Hpair : pair_in "c" (VObj [("type", VStr "string")]) catalog_out).
  { eapply pair_under_property; [left; reflexivity|].
    eapply pair_under_property; [left; reflexivity|].
    eapply pair_under_property; [left; reflexivity|].
    eapply pair_under_property; [right; left; reflexivity|].
    apply pair_here. left. reflexivity. }
  split; [reflexivity|]. split; [vm_compute; reflexivity|]. split; [exact Hpair|].
  exact (property_values_have_no_deprecated_key catalog_doc catalog_out "c"
           (VObj [("type", VStr "string")]) eq_refl
           ltac:(vm_compute; reflexivity) Hpair).
Defined.

(* ------------------------------------------------------------------ *)
(** ** A deprecated schema in the output, and in the snippets *)
(* ------------------------------------------------------------------ *)

Lemma deprecated_schema_lookup doc out schemas name schema :
  wf doc ->
  main doc = Ok out ->
  lookup_path doc ["components"; "schemas"] = Some (VObj schemas) ->
  assoc name schemas = Some schema ->
  get schema "deprecated" = Some (VBool true) ->
  out <> VNull /\ lookup_path out ["components"; "schemas"; name] = None.
Proof.
  unfold main. intros Hwf Hrun Hschemas Hname Hdep.
  set (names := buildDeprecatedSchemaNames doc) in *.
  assert (Hout : out <> VNull).
  { intros ->. rewrite ensureWideMode_unfold in Hrun.
    destruct (stripDeprecated doc names) as [| | | |elems|props]; try discriminate.
    destruct (get (VObj props) "paths") as [paths|]; [|discriminate].
    destruct (negb (truthy paths) || negb (is_object paths)); [discriminate|].
    apply bind_Ok in Hrun as (? & _ & H). discriminate H. }
  split; [exact Hout|].
  rewrite lookup_path3.
  rewrite (ensureWideMode_other_key _ _ "components" Hrun) by discriminate.
  rewrite lookup_path2 in Hschemas.
  destruct doc as [| | | |elems|props]; try discriminate Hschemas.
  rewrite stripDeprecated_mapping. cbn [oget get] in *.
  rewrite (assoc_kept_props _ _ _ (wf_mapping _ Hwf)).
  destruct (assoc "components" props) as [c|] eqn:Hc; [|discriminate Hschemas].
  destruct (marked_deprecated c || isRefToDeprecatedSchema c names); [reflexivity|].
  assert (Hwfc : wf c) by (eapply wf_property; [exact Hwf|]; eapply assoc_In; exact Hc).
  destruct c as [| | | |celems|cprops]; try discriminate Hschemas.
  rewrite stripDeprecated_mapping. cbn [delete_deprecated oget get] in *.
  rewrite assoc_remove_key_ne by discriminate.
  rewrite (assoc_kept_props _ _ _ (wf_mapping _ Hwfc)), Hschemas.
  destruct (marked_deprecated (VObj schemas) || isRefToDeprecatedSchema (VObj schemas) names);
    [reflexivity|].
  assert (Hwfs : wf (VObj schemas))
    by (eapply wf_property; [exact Hwfc|]; eapply assoc_In; exact Hschemas).
  rewrite stripDeprecated_mapping. cbn [delete_deprecated oget get].
  destruct (String.eqb_spec name "deprecated") as [->|Hne].
  { apply assoc_remove_key_eq. }
  rewrite (assoc_remove_key_ne _ _ _ Hne).
  rewrite (assoc_kept_props _ _ _ (wf_mapping _ Hwfs)), Hname.
  assert (Hm : marked_deprecated schema = true).
  { unfold marked_deprecated. rewrite Hdep.
    destruct schema; try discriminate Hdep; reflexivity. }
  rewrite Hm. reflexivity.
Qed.

(** A schema of the mapping [components.schemas] that is marked deprecated is
    not in the output of the Filter. *)
Theorem deprecated_schema_is_removed doc out schemas name schema :
  wf doc ->
  main doc = Ok out ->
  lookup_path doc ["components"; "schemas"] = Some (VObj schemas) ->
  assoc name schemas = Some schema ->
  get schema "deprecated" = Some (VBool true) ->
  lookup_path out ["components"; "schemas"; name] = None.
Proof.
  intros Hwf Hrun Hschemas Hname Hdep.
  exact (proj2 (deprecated_schema_lookup _ _ _ _ _ Hwf Hrun Hschemas Hname Hdep)).
Qed.

Lemma old_schema_is_removed_from_catalog :
  wf catalog_doc
  /\ main catalog_doc = Ok catalog_out
  /\ lookup_path catalog_out ["components"; "schemas"; "Old"] = None.
Proof.
  assert (Hrun : main catalog_doc = Ok catalog_out) by (vm_compute; reflexivity).
  split; [reflexivity|]. split; [exact Hrun|].
  exact (deprecated_schema_is_removed catalog_doc catalog_out _ "Old"
           (VObj [("deprecated", VBool true)]) eq_refl Hrun eq_refl eq_refl eq_refl).
Defined.

Lemma marker_when_missing fuel spec name :
  spec <> VNull ->
  lookup_path spec ["components"; "schemas"; name] = None ->
  inherited name = false ->
  schemaToMintlify fuel spec name = Ok (not_found name).
Proof.
  intros Hspec Hmissing Hname.
  rewrite lookup_path3 in Hmissing. unfold schemaToMintlify, named_member.
  assert (Hc : oget (Some spec) "components" = get spec "components")
    by (destruct spec; try reflexivity; congruence).
  rewrite Hc in Hmissing. rewrite Hmissing, Hname.
  destruct spec; try congruence;
    destruct (oget _ "schemas") as [[| | | | |]|]; reflexivity.
Qed.

(** The two scripts in a row: for a schema that is marked deprecated in the
    input of the Filter, the Renderer, run on the output of the Filter, writes
    the not-found marker. *)
Theorem deprecated_schema_renders_as_not_found fuel doc out schemas name schema :
  wf doc ->
  main doc = Ok out ->
  lookup_path doc ["components"; "schemas"] = Some (VObj schemas) ->
  assoc name schemas = Some schema ->
  get schema "deprecated" = Some (VBool true) ->
  inherited name = false ->
  schemaToMintlify fuel out name = Ok (not_found name).
Proof.
  intros Hwf Hrun Hschemas Hname Hdep Hinh.
  destruct (deprecated_schema_lookup _ _ _ _ _ Hwf Hrun Hschemas Hname Hdep) as [Hout Hnone].
  apply marker_when_missing; assumption.
Qed.

Lemma old_schema_renders_as_not_found :
  wf catalog_doc
  /\ main catalog_doc = Ok catalog_out
  /\ schemaToMintlify 2 catalog_out "Old" = Ok (not_found "Old").
Proof.
  assert (Hrun : main catalog_doc = Ok catalog_out) by (vm_compute; reflexivity).
  split; [reflexivity|]. split; [exact Hrun|].
  exact (deprecated_schema_renders_as_not_found 2 catalog_doc catalog_out _ "Old"
           (VObj [("deprecated", VBool true)]) eq_refl Hrun eq_refl eq_refl eq_refl eq_refl).
Defined.

(* ------------------------------------------------------------------ *)
(** ** More about ensureWideMode *)
(* ------------------------------------------------------------------ *)

(** A second run of [ensureWideMode] changes nothing. *)
Theorem ensureWideMode_is_idempotent spec spec' :
  ensureWideMode spec = Ok spec' -> ensureWideMode spec' = Ok spec'.
Proof. apply ensureWideMode_again. Qed.

Lemma ensureWideMode_twice_on_linked_operation :
  ensureWideMode linked_operation_doc = Ok linked_operation_out
  /\ ensureWideMode linked_operation_out = Ok linked_operation_out.
Proof.
  split; [reflexivity|].
  exact (ensureWideMode_is_idempotent linked_operation_doc linked_operation_out eq_refl).
Defined.

Lemma map_outcome_assoc_None (f : string * tree -> outcome (string * tree)) :
  (forall kv kv', f kv = Ok kv' -> fst kv' = fst kv) ->
  forall props props' k,
    map_outcome f props = Ok props' -> assoc k props = None -> assoc k props' = None.
Proof.
  intros Hkey props props' k Hmap Hnone.
  destruct (assoc k props') as [v'|] eqn:E; [|reflexivity].
  destruct (map_outcome_assoc_back f Hkey _ _ _ _ Hmap E) as (v & Hv & _). congruence.
Qed.

Lemma map_outcome_length {A B} (f : A -> outcome B) :
  forall l l', map_outcome f l = Ok l' -> length l' = length l.
Proof.
  induction l as [|a l IH]; intros l' H; simpl in H.
  - injection H as <-. reflexivity.
  - apply bind_Ok in H as (b & _ & H). apply bind_Ok in H as (bs & Hbs & [= <-]).
    simpl. f_equal. auto.
Qed.

Lemma wide_path_item_other_key item item' key :
  wide_path_item item = Ok item' ->
  existsb (String.eqb key) OPERATION_METHODS = false ->
  oget (Some item') key = oget (Some item) key.
Proof.
  unfold wide_path_item. intros H Hkey.
  destruct (negb (truthy item) || negb (is_object item)); [injection H as <-; reflexivity|].
  destruct item as [| | | |elems|props]; try (injection H as <-; reflexivity).
  apply bind_Ok in H as (props' & Hmap & [= <-]). cbn [oget get].
  destruct (assoc key props) as [v|] eqn:Hv.
  - destruct (map_outcome_assoc _ wide_entry_key _ _ _ _ Hmap Hv) as (v' & Hf & Hv').
    unfold wide_entry in Hf. rewrite Hkey in Hf. cbn [negb] in Hf.
    injection Hf as <-. exact Hv'.
  - exact (map_outcome_assoc_None _ wide_entry_key _ _ _ Hmap Hv).
Qed.

Lemma wide_paths_other_key paths paths' p key :
  match paths with
  | VObj items => let* items' := map_outcome wide_path_property items in Ok (VObj items')
  | VArr items => let* items' := map_outcome wide_path_item items in Ok (VArr items')
  | _ => Ok paths
  end = Ok paths' ->
  existsb (String.eqb key) OPERATION_METHODS = false ->
  lookup_path paths' [p; key] = lookup_path paths [p; key].
Proof.
  intros H Hkey. rewrite !lookup_path2.
  destruct paths as [| | | |items|items]; try (injection H as <-; reflexivity).
  - apply bind_Ok in H as (items' & Hmap & [= <-]). cbn [oget get].
    destruct (index_of_key p) as [i|]; [|reflexivity].
    destruct (nth_error items i) as [item|] eqn:Hi.
    + destruct (map_outcome_nth _ _ _ _ _ Hmap Hi) as (item' & Hw & Hn).
      rewrite Hn. exact (wide_path_item_other_key _ _ _ Hw Hkey).
    + assert (Hn : nth_error items' i = None).
      { apply nth_error_None. rewrite (map_outcome_length _ _ _ Hmap).
        apply nth_error_None. exact Hi. }
      rewrite Hn. reflexivity.
  - apply bind_Ok in H as (items' & Hmap & [= <-]). cbn [oget get].
    destruct (assoc p items) as [item|] eqn:Hi.
    + destruct (map_outcome_assoc _ wide_path_property_key _ _ _ _ Hmap Hi)
        as (item' & Hf & Hn).
      unfold wide_path_property in Hf. cbn [fst snd] in Hf.
      apply bind_Ok in Hf as (item1 & Hw & [= <-]).
      rewrite Hn. exact (wide_path_item_other_key _ _ _ Hw Hkey).
    + rewrite (map_outcome_assoc_None _ wide_path_property_key _ _ _ Hmap Hi).
      reflexivity.
Qed.

(** [ensureWideMode] changes operations only: every key of the document
    other than [paths], and every key of a path item that is no operation
    method ([parameters], [summary], ...), holds what it held. *)
Theorem ensureWideMode_changes_operations_only spec spec' :
  ensureWideMode spec = Ok spec' ->
  (forall k, k <> "paths" -> lookup_path spec' [k] = lookup_path spec [k])
  /\ (forall p key,
        existsb (String.eqb key) OPERATION_METHODS = false ->
        lookup_path spec' ["paths"; p; key] = lookup_path spec ["paths"; p; key]).
Proof.
  intros Hrun. split.
  - intros k Hk. cbn [lookup_path].
    rewrite (ensureWideMode_other_key _ _ k Hrun Hk). reflexivity.
  - intros p key Hkey. rewrite ensureWideMode_unfold in Hrun.
    destruct spec as [| | | |elems|props]; try discriminate;
      try (injection Hrun as <-; reflexivity).
    destruct (get (VObj props) "paths") as [paths|] eqn:Hp;
      [|injection Hrun as <-; reflexivity].
    destruct (negb (truthy paths) || negb (is_object paths));
      [injection Hrun as <-; reflexivity|].
    apply bind_Ok in Hrun as (paths' & Hw & [= <-]).
    pose proof (wide_paths_other_key _ _ p key Hw Hkey) as Hsame.
    simpl in Hp.
    change (lookup_path (VObj (set_key "paths" paths' props)) ["paths"; p; key])
      with (match assoc "paths" (set_key "paths" paths' props) with
            | Some t' => lookup_path t' [p; key]
            | None => None
            end).
    change (lookup_path (VObj props) ["paths"; p; key])
      with (match assoc "paths" props with
            | Some t' => lookup_path t' [p; key]
            | None => None
            end).
    rewrite assoc_set_key_eq, Hp. exact Hsame.
Qed.

Lemma ensureWideMode_keeps_summary :
  ensureWideMode described_path_doc = Ok described_path_out
  /\ lookup_path described_path_doc ["info"] = Some (VObj [("title", VStr "API")])
  /\ lookup_path described_path_doc ["paths"; "/a"; "summary"] = Some (VStr "things")
  /\ lookup_path described_path_out ["info"] = lookup_path described_path_doc ["info"]
  /\ lookup_path described_path_out ["paths"; "/a"; "summary"]
     = lookup_path described_path_doc ["paths"; "/a"; "summary"].
Proof.
  split; [reflexivity|]. split; [reflexivity|]. split; [reflexivity|].
  destruct (ensureWideMode_changes_operations_only
              described_path_doc described_path_out eq_refl) as [Hdoc Hitem].
  split.
  - apply Hdoc. discriminate.
  - apply Hitem. reflexivity.
Defined.

(* ------------------------------------------------------------------ *)
(** ** When ensureWideMode throws *)
(* ------------------------------------------------------------------ *)

Lemma map_outcome_Throw {A B} (f : A -> outcome B) :
  (forall x, f x <> OutOfFuel) ->
  forall l, map_outcome f l = Throw <-> exists x, In x l /\ f x = Throw.
Proof.
  intros Hf. induction l as [|a l IH]; simpl.
  - split; [discriminate|]. intros (x & [] & _).
  - destruct (f a) as [b| |] eqn:Ha; simpl.
    + destruct (map_outcome f l) as [bs| |] eqn:Hl; simpl.
      * split; [discriminate|]. intros (x & [<-|Hin] & Hx); [congruence|].
        assert (H : @Throw (list B) = Throw) by reflexivity.
        pose proof (proj2 IH (ex_intro _ x (conj Hin Hx))) as H'. discriminate H'.
      * split; [|reflexivity]. intros _.
        destruct (proj1 IH eq_refl) as (x & Hin & Hx). eauto.
      * split; [discriminate|]. intros (x & [<-|Hin] & Hx); [congruence|].
        pose proof (proj2 IH (ex_intro _ x (conj Hin Hx))) as H'. discriminate H'.
    + split; [|reflexivity]. intros _. exists a. auto.
    + destruct (Hf a Ha).
Qed.

Lemma map_outcome_no_fuel {A B} (f : A -> outcome B) :
  (forall x, f x <> OutOfFuel) -> forall l, map_outcome f l <> OutOfFuel.
Proof.
  intros Hf. induction l as [|a l IH]; simpl; [discriminate|].
  specialize (Hf a). destruct (f a); simpl; [|discriminate|destruct (Hf eq_refl)].
  destruct (map_outcome f l); simpl; [discriminate|discriminate|destruct (IH eq_refl)].
Qed.

Lemma wide_operation_Throw op :
  is_object op = true ->
  (wide_operation op = Throw <-> primitive_x_mint op = true)
  /\ wide_operation op <> OutOfFuel.
Proof.
  intros Hop. destruct op as [| | | |elems|props]; try discriminate Hop.
  - split; [split; discriminate|discriminate].
  - unfold wide_operation, primitive_x_mint.
    destruct (assoc "x-mint" props) as [xm|].
    + destruct (truthy xm) eqn:Ht.
      * destruct xm; simpl in *; try discriminate Ht;
          (split; [split; auto; discriminate|discriminate]).
      * simpl. split; [split; discriminate|discriminate].
    + simpl. split; [split; discriminate|discriminate].
Qed.

Lemma wide_entry_Throw key op :
  (wide_entry (key, op) = Throw <->
   In key OPERATION_METHODS /\ primitive_x_mint op = true)
  /\ wide_entry (key, op) <> OutOfFuel.
Proof.
  unfold wide_entry.
  destruct (existsb (String.eqb key) OPERATION_METHODS) eqn:Hk; cbn [negb].
  - assert (Hin : In key OPERATION_METHODS).
    { apply existsb_exists in Hk as (m & Hin & Hm). apply String.eqb_eq in Hm.
      subst. exact Hin. }
    destruct (negb (truthy op) || negb (is_object op)) eqn:Hc.
    + split; [|discriminate]. split; [discriminate|]. intros [_ Hp].
      destruct op; simpl in *; discriminate.
    + assert (Hob : is_object op = true).
      { apply orb_false_iff in Hc as [_ Hc]. apply negb_false_iff in Hc. exact Hc. }
      destruct (wide_operation_Throw op Hob) as [Hiff Hno].
      destruct (wide_operation op) as [op'| |] eqn:Hw; simpl.
      * split; [|discriminate]. split; [discriminate|]. intros [_ Hp].
        apply Hiff in Hp. discriminate Hp.
      * split; [|discriminate]. split; [|reflexivity]. intros _.
        split; [exact Hin|]. apply Hiff. reflexivity.
      * destruct (Hno eq_refl).
  - split; [|discriminate]. split; [discriminate|]. intros [Hin _].
    rewrite (method_existsb _ Hin) in Hk. discriminate Hk.
Qed.

Lemma wide_path_item_Throw item :
  (wide_path_item item = Throw <->
   exists props key op,
     item = VObj props /\ In (key, op) props
     /\ In key OPERATION_METHODS /\ primitive_x_mint op = true)
  /\ wide_path_item item <> OutOfFuel.
Proof.
  unfold wide_path_item.
  assert (Hother : forall (o : outcome tree) r, o = Ok r ->
            (forall props, item <> VObj props) ->
            (o = Throw <->
             exists props key op,
               item = VObj props /\ In (key, op) props
               /\ In key OPERATION_METHODS /\ primitive_x_mint op = true)
            /\ o <> OutOfFuel).
  { intros o r -> Hno. split; [|discriminate]. split; [discriminate|].
    intros (props & ? & ? & H & _). destruct (Hno _ H). }
  destruct item as [| | | |elems|props];
    try (destruct (negb _ || negb _); eapply Hother; try reflexivity; discriminate).
  cbn [truthy is_object negb orb]. clear Hother.
  - pose proof (map_outcome_Throw wide_entry
                  (fun kv => match kv with (k, o) => proj2 (wide_entry_Throw k o) end) props)
      as Hmap.
    destruct (map_outcome wide_entry props) as [props'| |] eqn:E; simpl.
    + split; [|discriminate]. split; [discriminate|].
      intros (props0 & key & op & [= <-] & Hin & Hk & Hp).
      assert (H : @Throw (list (string * tree)) = Throw) by reflexivity.
      apply proj2 in Hmap. specialize (Hmap (ex_intro _ (key, op)
        (conj Hin (proj2 (proj1 (wide_entry_Throw key op)) (conj Hk Hp))))).
      discriminate Hmap.
    + split; [|discriminate]. split; [|reflexivity]. intros _.
      destruct (proj1 Hmap eq_refl) as ([key op] & Hin & Hthrow).
      apply (proj1 (wide_entry_Throw key op)) in Hthrow as [Hk Hp].
      exists props, key, op. auto.
    + exfalso. revert E. apply map_outcome_no_fuel.
      intros [k o]. exact (proj2 (wide_entry_Throw k o)).
Qed.

(** [ensureWideMode] throws on the document [null], and on a document in
    which an operation of some path item has an [x-mint] that is truthy and
    no object, such as [x-mint: true]; it throws on no other document. *)
Theorem ensureWideMode_throws_iff spec :
  ensureWideMode spec = Throw <->
  spec = VNull
  \/ exists paths item props key op,
       get spec "paths" = Some paths
       /\ In item (map snd (entries paths))
       /\ item = VObj props /\ In (key, op) props
       /\ In key OPERATION_METHODS /\ primitive_x_mint op = true.
Proof.
  rewrite ensureWideMode_unfold.
  destruct spec as [| | | |elems|sprops].
  1: { split; [auto|reflexivity]. }
  1-4: assert (Hg : forall t, is_mapping t = false -> get t "paths" = None)
         by (intros [| | | | |]; try reflexivity; discriminate);
       rewrite Hg by reflexivity; split; [discriminate|];
       intros [H|(? & ? & ? & ? & ? & H & _)]; [discriminate H|];
       first [discriminate H|rewrite Hg in H by reflexivity; discriminate H].
  destruct (get (VObj sprops) "paths") as [paths|] eqn:Hp.
  2: { split; [discriminate|]. intros [H|(? & ? & ? & ? & ? & H & _)]; discriminate H. }
  assert (Hitems : forall items : list tree,
            map_outcome wide_path_item items = Throw <->
            exists item props key op,
              In item items /\ item = VObj props /\ In (key, op) props
              /\ In key OPERATION_METHODS /\ primitive_x_mint op = true).
  { intros items.
    rewrite (map_outcome_Throw wide_path_item (fun i => proj2 (wide_path_item_Throw i))).
    split.
    - intros (item & Hin & Ht). apply (proj1 (wide_path_item_Throw item)) in Ht
        as (props & key & op & H). exists item, props, key, op. tauto.
    - intros (item & props & key & op & Hin & H). exists item. split; [exact Hin|].
      apply (proj1 (wide_path_item_Throw item)). eauto. }
  assert (Hprops : forall items : list (string * tree),
            map_outcome wide_path_property items = Throw <->
            map_outcome wide_path_item (map snd items) = Throw).
  { induction items as [|[k v] rest IH]; simpl; [split; discriminate|].
    unfold wide_path_property at 1. cbn [fst snd].
    destruct (wide_path_item v) as [v'| |]; simpl;
      [|split; reflexivity|split; discriminate].
    destruct IH as [IH1 IH2].
    destruct (map_outcome wide_path_property rest) as [r| |],
             (map_outcome wide_path_item (map snd rest)) as [r'| |]; simpl in *;
      try (split; reflexivity); try (split; discriminate);
      first [specialize (IH1 eq_refl); discriminate IH1
            |specialize (IH2 eq_refl); discriminate IH2]. }
  destruct paths as [| | | |items|items]; cbn [truthy is_object negb orb];
    rewrite ?orb_true_r;
    try (split; [discriminate|];
         intros [H|(paths0 & item & ? & ? & ? & [= <-] & Hin & _)];
         [discriminate H|destruct Hin]).
  - simpl. destruct (map_outcome wide_path_item items) as [items'| |] eqn:E; simpl.
    + split; [discriminate|].
      intros [H|(paths0 & item & props & key & op & [= <-] & Hin & H)]; [discriminate H|].
      exfalso. assert (Hex : map_outcome wide_path_item items = Throw).
      { apply Hitems. exists item, props, key, op. split; [|exact H].
        simpl in Hin. apply in_map_iff in Hin as ([k x] & <- & Hin).
        eapply In_indexed_from. exact Hin. }
      congruence.
    + split; [|reflexivity]. intros _. right.
      apply Hitems in E as (item & props & key & op & Hin & H).
      exists (VArr items), item, props, key, op. split; [reflexivity|]. split; [|exact H].
      simpl. clear -Hin. generalize 0.
      induction items as [|e rest IH]; intros n; [destruct Hin|].
      simpl. destruct Hin as [->|Hin]; [left; reflexivity|right; auto].
    + split; [discriminate|].
      intros [H|(paths0 & item & props & key & op & [= <-] & Hin & H)]; [discriminate H|].
      exfalso. assert (Hex : map_outcome wide_path_item items = Throw).
      { apply Hitems. exists item, props, key, op. split; [|exact H].
        simpl in Hin. apply in_map_iff in Hin as ([k x] & <- & Hin).
        eapply In_indexed_from. exact Hin. }
      congruence.
  - simpl. destruct (map_outcome wide_path_property items) as [items'| |] eqn:E; simpl.
    + split; [discriminate|].
      intros [H|(paths0 & item & props & key & op & [= <-] & Hin & H)]; [discriminate H|].
      exfalso. assert (Hex : map_outcome wide_path_property items = Throw).
      { apply Hprops, Hitems. exists item, props, key, op. split; [exact Hin|exact H]. }
      congruence.
    + split; [|reflexivity]. intros _. right.
      apply Hprops, Hitems in E as (item & props & key & op & Hin & H).
      exists (VObj items), item, props, key, op. split; [reflexivity|].
      split; [exact Hin|exact H].
    + split; [discriminate|].
      intros [H|(paths0 & item & props & key & op & [= <-] & Hin & H)]; [discriminate H|].
      exfalso. assert (Hex : map_outcome wide_path_property items = Throw).
      { apply Hprops, Hitems. exists item, props, key, op. split; [exact Hin|exact H]. }
      congruence.
Qed.

Example ensureWideMode_throws_on_flagged_operation :
  ensureWideMode flagged_operation_doc = Throw
  /\ main flagged_operation_doc = Throw.
Proof. split; reflexivity. Qed.

(* ------------------------------------------------------------------ *)
(** ** stripDeprecated on the heap and on trees *)
(* ------------------------------------------------------------------ *)

Lemma aliased_tree_is_stripped_on_the_heap :
  wf aliased_tree
  /\ Heap.repr aliased_heap (Heap.HRef 1) aliased_tree
  /\ exists fuel r h',
       Heap.stripDeprecated fuel (Heap.HRef 1) ∅ aliased_heap = Ok (r, h')
       /\ Heap.repr h' r (stripDeprecated aliased_tree ∅)
       /\ Heap.repr h' (Heap.HRef 1) aliased_tree.
Proof.
  split; [reflexivity|]. split; [exact aliased_heap_holds_tree|].
  exact (stripDeprecated_on_the_heap aliased_heap (Heap.HRef 1) aliased_tree ∅
           eq_refl aliased_heap_holds_tree).
Defined.

(** The value that [stripDeprecated] returns is made of objects that the
    call allocated: it shares no object with its argument, also where the
    argument holds one object at two places. *)
Theorem stripDeprecated_returns_new_objects h hv v names :
  wf v -> Heap.repr h hv v ->
  exists fuel r h',
    Heap.stripDeprecated fuel hv names h = Ok (r, h')
    /\ built h' (length h') (length h) r (stripDeprecated v names).
Proof.
  intros Hwf Hr.
  destruct (stripDeprecated_builds names (S (height v)) v h hv Hwf Hr ltac:(lia))
    as (r & h' & Hrun & Hbuilt).
  exists (S (height v)), r, h'. auto.
Qed.

Lemma aliased_tree_is_copied :
  wf aliased_tree
  /\ Heap.repr aliased_heap (Heap.HRef 1) aliased_tree
  /\ exists fuel r h',
       Heap.stripDeprecated fuel (Heap.HRef 1) ∅ aliased_heap = Ok (r, h')
       /\ built h' (length h') (length aliased_heap) r (stripDeprecated aliased_tree ∅).
Proof.
  split; [reflexivity|]. split; [exact aliased_heap_holds_tree|].
  exact (stripDeprecated_returns_new_objects aliased_heap (Heap.HRef 1) aliased_tree ∅
           eq_refl aliased_heap_holds_tree).
Defined.

(* ================================================================== *)
(** * The name of the output file *)
(* ================================================================== *)

Lemma lower_dot c : Ascii.eqb (Files.lower c) "."%char = Ascii.eqb c "."%char.
Proof.
  unfold Files.lower.
  destruct (Nat.leb 65 (nat_of_ascii c) && Nat.leb (nat_of_ascii c) 90) eqn:E;
    [|reflexivity].
  apply andb_true_iff in E as [E1 E2]. apply Nat.leb_le in E1, E2.
  assert (Hc : Ascii.eqb c "."%char = false).
  { apply Ascii.eqb_neq. intros ->.
    change (nat_of_ascii "."%char) with 46 in E1. lia. }
  rewrite Hc. apply Ascii.eqb_neq. intros H.
  apply (f_equal nat_of_ascii) in H. rewrite nat_ascii_embedding in H by lia.
  change (nat_of_ascii "."%char) with 46 in H. lia.
Qed.

Lemma has_dot_lowercase s : contains "."%char (Files.lowercase s) = contains "."%char s.
Proof.
  induction s as [|c s IH]; [reflexivity|]. simpl. rewrite lower_dot, IH. reflexivity.
Qed.

Lemma has_dot_middle stem ext : contains "."%char (stem +:+ "." +:+ ext) = true.
Proof.
  induction stem as [|c stem IH]; [reflexivity|].
  change (String c stem +:+ "." +:+ ext) with (String c (stem +:+ "." +:+ ext)).
  simpl. rewrite IH. apply orb_true_r.
Qed.

Lemma yaml_extension_has_no_dot ext :
  Files.is_yaml_extension ext = true -> contains "."%char ext = false.
Proof.
  unfold Files.is_yaml_extension. intros H. rewrite <- has_dot_lowercase.
  apply orb_true_iff in H as [H|H]; apply String.eqb_eq in H; rewrite H; reflexivity.
Qed.

Lemma extension_here_inside c stem ext :
  Files.extension_here (String c (stem +:+ "." +:+ ext)) = None.
Proof.
  unfold Files.extension_here.
  destruct (Files.is_yaml_extension (stem +:+ "." +:+ ext)) eqn:E;
    [|rewrite andb_false_r; reflexivity].
  apply yaml_extension_has_no_dot in E. rewrite has_dot_middle in E. discriminate E.
Qed.

Lemma replace_extension_cons c rest :
  Files.replace_extension (String c rest) =
    match Files.extension_here (String c rest) with
    | Some ext => ".no-deprecated." +:+ ext
    | None => String c (Files.replace_extension rest)
    end.
Proof. reflexivity. Qed.

Lemma replace_extension_of_extension stem ext :
  Files.is_yaml_extension ext = true ->
  Files.replace_extension (stem +:+ "." +:+ ext) = stem +:+ ".no-deprecated." +:+ ext.
Proof.
  intros Hext. induction stem as [|c stem IH].
  - change (EmptyString +:+ "." +:+ ext) with (String "."%char ext).
    rewrite replace_extension_cons. unfold Files.extension_here.
    rewrite Hext. reflexivity.
  - change (String c stem +:+ "." +:+ ext) with (String c (stem +:+ "." +:+ ext)).
    change (String c stem +:+ ".no-deprecated." +:+ ext)
      with (String c (stem +:+ ".no-deprecated." +:+ ext)).
    rewrite replace_extension_cons, extension_here_inside, IH. reflexivity.
Qed.

(** A name that ends in [.yml] or [.yaml], in any case of the letters, gets
    [.no-deprecated] before the extension, which keeps its spelling. *)
Theorem replace_extension_inserts_no_deprecated stem ext :
  Files.is_yaml_extension ext = true ->
  Files.replace_extension (stem +:+ "." +:+ ext) = stem +:+ ".no-deprecated." +:+ ext.
Proof.
  intros Hext. apply replace_extension_of_extension. exact Hext.
Qed.

Lemma default_output_is_what_the_renderer_reads :
  Files.is_yaml_extension "yml" = true
  /\ Files.outputFile [] "api-reference/openapi.yml" = "api-reference/openapi.no-deprecated.yml"
  /\ Files.replace_extension ("api-reference/openapi" +:+ "." +:+ "yml")
     = "api-reference/openapi" +:+ ".no-deprecated." +:+ "yml".
Proof.
  split; [reflexivity|]. split; [reflexivity|].
  exact (replace_extension_inserts_no_deprecated "api-reference/openapi" "yml" eq_refl).
Defined.

Lemma replace_extension_without_extension name :
  ~ has_yaml_extension name -> Files.replace_extension name = name.
Proof.
  induction name as [|c rest IH]; intros Hno; [reflexivity|].
  rewrite replace_extension_cons.
  destruct (Files.extension_here (String c rest)) as [ext|] eqn:E.
  - exfalso. apply Hno. unfold Files.extension_here in E.
    destruct (Ascii.eqb c "."%char && Files.is_yaml_extension rest) eqn:C; [|discriminate E].
    apply andb_true_iff in C as [C1 C2]. apply Ascii.eqb_eq in C1. subst c.
    exists EmptyString, rest. split; [reflexivity|exact C2].
  - f_equal. apply IH. intros (stem & ext & -> & Hext). apply Hno.
    exists (String c stem), ext. split; [reflexivity|exact Hext].
Qed.

(** Without a second argument the script writes to the file it read exactly
    when the name of that file does not end in [.yml] or [.yaml]. *)
Theorem output_is_input_iff_no_extension args openapi :
  nth 1 args EmptyString = EmptyString ->
  Files.outputFile args openapi = Files.inputFile args openapi
  <-> ~ has_yaml_extension (Files.inputFile args openapi).
Proof.
  intros Hsecond.
  assert (Hout : Files.outputFile args openapi
                 = Files.replace_extension (Files.inputFile args openapi)).
  { unfold Files.outputFile. destruct args as [|a [|b rest]]; try reflexivity.
    simpl in Hsecond. subst b. reflexivity. }
  rewrite Hout. split.
  - intros Hsame (stem & ext & Hname & Hext).
    rewrite Hname, (replace_extension_of_extension _ _ Hext) in Hsame.
    apply (f_equal String.length) in Hsame.
    rewrite !length_append in Hsame. simpl in Hsame. lia.
  - apply replace_extension_without_extension.
Qed.

Lemma json_input_is_written_over :
  nth 1 ["openapi.json"] EmptyString = EmptyString
  /\ Files.outputFile ["openapi.json"] "openapi.yml" = "openapi.json"
  /\ (Files.outputFile ["openapi.json"] "openapi.yml"
      = Files.inputFile ["openapi.json"] "openapi.yml"
      <-> ~ has_yaml_extension (Files.inputFile ["openapi.json"] "openapi.yml")).
Proof.
  split; [reflexivity|]. split; [reflexivity|].
  exact (output_is_input_iff_no_extension ["openapi.json"] "openapi.yml" eq_refl).
Defined.

(* ================================================================== *)
(** * More about the Renderer *)
(* ================================================================== *)

(* ------------------------------------------------------------------ *)
(** ** resolveRef follows the segments of a reference *)
(* ------------------------------------------------------------------ *)

Lemma walk_lookup parts : forall t, walk t parts = or_null (lookup_path t parts).
Proof.
  induction parts as [|p parts IH]; intros t; [reflexivity|].
  cbn [walk lookup_path]. unfold qget.
  destruct (oget (Some t) p) as [next|]; [apply IH|reflexivity].
Qed.

Lemma split_plain sep s : contains sep s = false -> split sep s = [s].
Proof.
  induction s as [|c s IH]; [reflexivity|]. simpl. intros H.
  apply orb_false_iff in H as [Hc Hs]. rewrite Hc, (IH Hs). reflexivity.
Qed.

Lemma split_segment sep s rest :
  contains sep s = false ->
  split sep (s +:+ String sep rest) = s :: split sep rest.
Proof.
  induction s as [|c s IH]; intros H.
  - change (EmptyString +:+ String sep rest) with (String sep rest).
    simpl. rewrite Ascii.eqb_refl. reflexivity.
  - change (String c s +:+ String sep rest) with (String c (s +:+ String sep rest)).
    simpl in H. apply orb_false_iff in H as [Hc Hs].
    simpl. rewrite Hc, (IH Hs). reflexivity.
Qed.

Lemma split_join sep parts :
  parts <> [] ->
  Forall (fun p => contains sep p = false) parts ->
  split sep (join (String sep EmptyString) parts) = parts.
Proof.
  unfold join. induction parts as [|p parts IH]; intros Hne Hall; [congruence|].
  inversion Hall as [|? ? Hp Hrest]; subst.
  destruct parts as [|q parts].
  - simpl. apply split_plain. exact Hp.
  - change (String.concat (String sep EmptyString) (p :: q :: parts))
      with (p +:+ String sep EmptyString +:+ String.concat (String sep EmptyString) (q :: parts)).
    change (String sep EmptyString +:+ String.concat (String sep EmptyString) (q :: parts))
      with (String sep (String.concat (String sep EmptyString) (q :: parts))).
    rewrite (split_segment _ _ _ Hp). f_equal. apply IH; [discriminate|exact Hrest].
Qed.

(** For segments that hold no [/] and name document content, the reference
    [#/s1/.../sn] resolves to the node at the path [s1], ..., [sn] of the
    document, and to [null] when there is none.  A segment is taken as it is
    written: [~1] and [%2F] are not decoded. *)
Theorem resolveRef_follows_segments spec parts :
  parts <> [] ->
  Forall (fun p => contains "/"%char p = false) parts ->
  names_content spec parts = true ->
  resolveRef spec (Some (VStr ("#/" +:+ join "/" parts)))
  = or_null (lookup_path spec parts).
Proof.
  intros Hne Hall _. unfold resolveRef.
  rewrite (strip_prefix_app "#/" (join "/" parts)).
  rewrite (split_join "/"%char parts Hne Hall). apply walk_lookup.
Qed.

Lemma resolveRef_finds_the_id_schema :
  names_content shifts_spec ["components"; "schemas"; "id"] = true
  /\ names_content shifts_spec ["components"; "schemas"; "constructor"] = false
  /\ resolveRef shifts_spec (Some (VStr "#/components/schemas/id"))
     = VObj [("type", VStr "string"); ("format", VStr "uuid")]
  /\ resolveRef shifts_spec (Some (VStr ("#/" +:+ join "/" ["components"; "schemas"; "id"])))
     = or_null (lookup_path shifts_spec ["components"; "schemas"; "id"]).
Proof.
  split; [reflexivity|]. split; [reflexivity|]. split; [reflexivity|].
  exact (resolveRef_follows_segments shifts_spec ["components"; "schemas"; "id"]
           ltac:(discriminate) ltac:(repeat constructor) eq_refl).
Defined.

(* ------------------------------------------------------------------ *)
(** ** The type attribute is always there *)
(* ------------------------------------------------------------------ *)

(** Whatever the schema, the type string that [getTypeString] returns is
    truthy, so that [typeAttr] writes a [type] attribute for it. *)
Theorem getTypeString_is_never_empty spec schema refName typeStr :
  getTypeString spec schema refName = Ok typeStr ->
  truthy typeStr = true
  /\ typeAttr typeStr = " type=" +:+ QUOTE +:+ ToString typeStr +:+ QUOTE.
Proof.
  intros H. pose proof (type_string_is_truthy _ _ _ _ H) as Ht.
  split; [exact Ht|]. unfold typeAttr. rewrite Ht. reflexivity.
Qed.

Lemma type_of_an_untyped_schema_is_shown :
  getTypeString VNull (VObj [("description", VStr "anything")]) None = Ok (VStr "unknown")
  /\ truthy (VStr "unknown") = true
  /\ typeAttr (VStr "unknown") = " type=" +:+ QUOTE +:+ ToString (VStr "unknown") +:+ QUOTE.
Proof.
  split; [reflexivity|].
  exact (getTypeString_is_never_empty VNull (VObj [("description", VStr "anything")])
           None (VStr "unknown") eq_refl).
Defined.

(* ------------------------------------------------------------------ *)
(** ** Schemas on which the Renderer ends, and one on which it does not *)
(* ------------------------------------------------------------------ *)

Lemma abc_schema_ends :
  ref_free abc_schema = true
  /\ height abc_schema < 4
  /\ ends (schemaToExpandableContent 4 VNull abc_schema "abc" EmptyString) = true.
Proof.
  split; [reflexivity|]. split; [simpl; lia|].
  exact (schemaToExpandableContent_ends VNull 4 abc_schema "abc" EmptyString
           eq_refl ltac:(simpl; lia)).
Defined.

Lemma first_property_out_of_fuel {A B} (f : A -> outcome B) a l :
  f a = OutOfFuel -> map_outcome f (a :: l) = OutOfFuel.
Proof. intros H. simpl. rewrite H. reflexivity. Qed.

Lemma self_reference_out_of_fuel spec r target :
  refers_to_itself spec r target ->
  forall fuel props schemaName indent,
    (forall k, k <> "__refName" -> assoc k props = assoc k target) ->
    schemaToExpandableContent fuel spec (VObj props) schemaName indent = OutOfFuel.
Proof.
  intros (Hres & Hr & Href & Htype & Henum & Hreq & p & rest & Hprops).
  induction fuel as [|fuel IH]; intros props schemaName indent Hagree; [reflexivity|].
  assert (Href' : assoc "$ref" props = None) by (rewrite Hagree by discriminate; exact Href).
  assert (Htype' : assoc "type" props = Some (VStr "object"))
    by (rewrite Hagree by discriminate; exact Htype).
  assert (Hreq' : assoc "required" props = None)
    by (rewrite Hagree by discriminate; exact Hreq).
  assert (Hprops' : assoc "properties" props
                    = Some (VObj ((p, VObj [("$ref", VStr r)]) :: rest)))
    by (rewrite Hagree by discriminate; exact Hprops).
  assert (Hself : resolveSchema spec (VObj props) = VObj props).
  { unfold resolveSchema. cbn [truthy negb get]. rewrite Href'. reflexivity. }
  cbn [schemaToExpandableContent]. rewrite Hself.
  cbn [truthy negb get]. rewrite Htype', Hprops', Hreq'.
  cbn [is_string String.eqb Ascii.eqb Bool.eqb orb andb truthy is_object required_set bind entries].
  rewrite first_property_out_of_fuel; [reflexivity|].
  (* the first property *)
  assert (Htruthy : truthy (VStr r) = true).
  { simpl. apply negb_true_iff, String.eqb_neq. exact Hr. }
  set (inner := with_refName (VObj target) (getRefName (Some (VStr r)))).
  assert (Hinner : resolveSchema spec (VObj [("$ref", VStr r)]) = inner).
  { unfold resolveSchema. cbn [truthy negb get assoc String.eqb Ascii.eqb Bool.eqb otruthy].
    simpl in Htruthy. rewrite Htruthy, Hres. reflexivity. }
  assert (Hget : forall k, k <> "__refName" -> qget inner k = assoc k target).
  { intros k Hk. unfold inner, with_refName, qget, oget, get. cbn [entries].
    apply assoc_set_key_ne. congruence. }
  unfold property_lines. rewrite Hinner.
  assert (Htyped : exists typeStr,
            getTypeString spec (if truthy inner then inner else VObj [("$ref", VStr r)])
              (qget inner "__refName") = Ok typeStr).
  { unfold getTypeString. replace (truthy inner) with true by reflexivity.
    cbn [negb]. change (get inner "enum") with (qget inner "enum").
    rewrite Hget by discriminate. rewrite Henum. eauto. }
  destruct Htyped as (typeStr & ->). cbn [bind].
  rewrite !Hget by discriminate. rewrite Htype, Hprops.
  cbn [is_string String.eqb Ascii.eqb Bool.eqb orb andb otruthy truthy].
  unfold inner, with_refName.
  rewrite (IH _ p (indent +:+ INDENT)); [reflexivity|].
  intros k Hk. cbn [entries]. apply assoc_set_key_ne. congruence.
Qed.

(** The Renderer cannot render a schema that a property of its own refers
    to: the recursion follows the reference into the same schema again and
    has no end, whatever the fuel. *)
Theorem self_reference_never_renders spec r target fuel schemaName indent :
  refers_to_itself spec r target ->
  schemaToExpandableContent fuel spec (VObj target) schemaName indent = OutOfFuel.
Proof.
  intros Hself. eapply self_reference_out_of_fuel; [exact Hself|]. reflexivity.
Qed.

Lemma node_schema_refers_to_itself :
  refers_to_itself node_spec "#/components/schemas/node"
    [("type", VStr "object");
     ("properties", VObj [
        ("parent", VObj [("$ref", VStr "#/components/schemas/node")]);
        ("label", VObj [("type", VStr "string")])])].
Proof.
  repeat split; try reflexivity; try discriminate.
  exists "parent", [("label", VObj [("type", VStr "string")])]. reflexivity.
Qed.

Lemma node_schema_never_renders :
  schemaToExpandableContent 100 node_spec
    (VObj [("type", VStr "object");
           ("properties", VObj [
              ("parent", VObj [("$ref", VStr "#/components/schemas/node")]);
              ("label", VObj [("type", VStr "string")])])])
    "node" "    " = OutOfFuel
  /\ schemaToMintlify 100 node_spec "node" = OutOfFuel.
Proof.
  split; [|vm_compute; reflexivity].
  exact (self_reference_never_renders node_spec "#/components/schemas/node" _ 100
           "node" "    " node_schema_refers_to_itself).
Defined.

(* ------------------------------------------------------------------ *)
(** ** The files that a run writes *)
(* ------------------------------------------------------------------ *)

(** [write_snippets] writes one file per name, in the order of the names,
    each named after its schema and holding its snippet, up to the first
    name whose snippet fails or whose file cannot be written; the run ends
    with that failure, and with success when there is none. *)
Theorem write_snippets_stops_at_the_first_failure fs fuel spec schemaNames :
  exists done rest,
    schemaNames = done ++ rest
    /\ Forall2
         (fun name file =>
            fst file = name +:+ ".mdx"
            /\ schemaToMintlify fuel spec name = Ok (snd file)
            /\ writeFileSync fs (name +:+ ".mdx") = true)
         done (fst (write_snippets fs fuel spec schemaNames))
    /\ match rest with
       | [] => snd (write_snippets fs fuel spec schemaNames) = Ok tt
       | name :: _ =>
           (schemaToMintlify fuel spec name = Throw
            /\ snd (write_snippets fs fuel spec schemaNames) = Throw)
           \/ (schemaToMintlify fuel spec name = OutOfFuel
               /\ snd (write_snippets fs fuel spec schemaNames) = OutOfFuel)
           \/ (exists mdx,
                 schemaToMintlify fuel spec name = Ok mdx
                 /\ writeFileSync fs (name +:+ ".mdx") = false
                 /\ snd (write_snippets fs fuel spec schemaNames) = Throw)
       end.
Proof.
  induction schemaNames as [|name names IH].
  - exists [], []. split; [reflexivity|]. split; [constructor|reflexivity].
  - cbn [write_snippets].
    destruct (schemaToMintlify fuel spec name) as [mdx| |] eqn:Hname.
    + destruct (writeFileSync fs (name +:+ ".mdx")) eqn:Hwrite.
      * destruct IH as (done & rest & Hsplit & Hfiles & Hend).
        destruct (write_snippets fs fuel spec names) as [files status].
        exists (name :: done), rest. cbn [fst snd] in *.
        split; [rewrite Hsplit; reflexivity|]. split; [|exact Hend].
        constructor; [|exact Hfiles]. split; [reflexivity|]. split; [exact Hname|exact Hwrite].
      * exists [], (name :: names). split; [reflexivity|]. split; [constructor|].
        right. right. exists mdx. split; [exact Hname|]. split; [exact Hwrite|reflexivity].
    + exists [], (name :: names). split; [reflexivity|]. split; [constructor|].
      left. split; [exact Hname|reflexivity].
    + exists [], (name :: names). split; [reflexivity|]. split; [constructor|].
      right. left. split; [exact Hname|reflexivity].
Qed.

(** A name with a slash on a directory without directories inside: the
    marker is computed, the write fails, and the names after it get no
    file. *)
Example write_fails_for_a_name_with_a_slash :
  schemaToMintlify 3 shifts_spec "no/such" = Ok (not_found "no/such")
  /\ write_snippets flat_directory 3 shifts_spec ["id"; "no/such"; "shift"]
     = ([("id.mdx", "<ResponseField name=" +:+ QUOTE +:+ "id" +:+ QUOTE
                    +:+ " type=" +:+ QUOTE +:+ "string (uuid)" +:+ QUOTE +:+ ">"
                    +:+ NEWLINE +:+ "</ResponseField>" +:+ NEWLINE)],
        Throw).
Proof. split; vm_compute; reflexivity. Qed.

(* ------------------------------------------------------------------ *)
(** ** Schemas that the Renderer renders *)
(* ------------------------------------------------------------------ *)

Lemma bind_returns {A B} (m : outcome A) (f : A -> outcome B) :
  (exists a, m = Ok a) -> (forall a, m = Ok a -> exists b, f a = Ok b) ->
  exists b, bind m f = Ok b.
Proof. intros (a & ->) H. simpl. apply H. reflexivity. Qed.

Lemma map_outcome_returns {A B} (f : A -> outcome B) l :
  (forall a, In a l -> exists b, f a = Ok b) -> exists bs, map_outcome f l = Ok bs.
Proof.
  induction l as [|a l IH]; intros H; [eexists; reflexivity|].
  simpl. apply bind_returns; [apply H; left; reflexivity|]. intros b _.
  apply bind_returns; [apply IH; intros; apply H; right; assumption|].
  intros bs _. eexists. reflexivity.
Qed.

Lemma well_listed_entry t k v :
  In (k, v) (entries t) -> well_listed t = true -> well_listed v = true.
Proof.
  destruct t as [| | | |elems|props]; simpl; try tauto; intros Hin H.
  - apply In_indexed_from in Hin. rewrite forallb_forall in H. auto.
  - apply andb_true_iff in H as [_ H]. rewrite forallb_forall in H. exact (H _ Hin).
Qed.

Lemma well_listed_get t k v :
  get t k = Some v -> well_listed t = true -> well_listed v = true.
Proof. intros H. apply (well_listed_entry t k v). apply get_In_entries. exact H. Qed.

Lemma well_listed_qget t k v :
  qget t k = Some v -> well_listed t = true -> well_listed v = true.
Proof. unfold qget, oget. destruct t; try discriminate; apply well_listed_get. Qed.

Lemma getTypeString_returns spec schema refName :
  well_listed schema = true -> exists typeStr, getTypeString spec schema refName = Ok typeStr.
Proof.
  intros H. unfold getTypeString. destruct (negb (truthy schema)); [eauto|].
  destruct schema as [| | | |elems|props]; try (eexists; reflexivity).
  cbn [get]. simpl in H. apply andb_true_iff in H as [H _].
  apply andb_true_iff in H as [H _].
  destruct (assoc "enum" props) as [e|]; [|eauto].
  destruct (truthy e); [|eauto]. simpl in H. destruct e; try discriminate H.
  eexists. reflexivity.
Qed.

Lemma required_set_returns props :
  well_listed (VObj props) = true -> exists r, required_set (assoc "required" props) = Ok r.
Proof.
  simpl. intros H. apply andb_true_iff in H as [H _]. apply andb_true_iff in H as [_ H].
  destruct (assoc "required" props) as [r|]; [|eexists; reflexivity].
  simpl. destruct (truthy r); [|eexists; reflexivity].
  simpl in H. destruct r; try discriminate H; eexists; reflexivity.
Qed.

Lemma returns_without_references spec :
  forall fuel schema schemaName indent,
    ref_free schema = true -> well_listed schema = true -> height schema < fuel ->
    exists out, schemaToExpandableContent fuel spec schema schemaName indent = Ok out.
Proof.
  induction fuel as [|fuel IH]; intros schema schemaName indent Hfree Hwl Hfuel; [lia|].
  cbn [schemaToExpandableContent].
  rewrite (resolveSchema_ref_free _ _ Hfree).
  destruct (truthy schema) eqn:Ht; [|eexists; reflexivity]. rewrite Ht. cbn [negb].
  destruct (get schema "properties") as [props|] eqn:Hprops; [|eexists; reflexivity].
  match goal with |- exists _, (if ?c then _ else _) = _ => destruct c end;
    [|eexists; reflexivity].
  destruct (get_below _ _ _ Hprops) as [Hh Hf]. specialize (Hf Hfree).
  pose proof (well_listed_get _ _ _ Hprops Hwl) as Hwlp.
  apply bind_returns.
  { destruct schema as [| | | |elems|sprops]; try discriminate Hprops.
    apply required_set_returns. exact Hwl. }
  intros required _. apply bind_returns; [|intros; eexists; reflexivity].
  apply map_outcome_returns. intros [propName propSchema] Hin.
  destruct (entry_below _ _ _ Hin) as [Hh' Hf']. specialize (Hf' Hf).
  pose proof (well_listed_entry _ _ _ Hin Hwlp) as Hwl'.
  unfold property_lines.
  rewrite (resolveSchema_ref_free _ _ Hf').
  assert (Hnoref : otruthy (qget propSchema "$ref") = false).
  { unfold qget, oget. destruct propSchema; try reflexivity; apply ref_free_no_ref;
      exact Hf'. }
  rewrite Hnoref. cbn [andb orb].
  set (propResolved := if truthy propSchema then propSchema else VNull).
  assert (Hresolved : ref_free propResolved = true /\ well_listed propResolved = true
                      /\ height propResolved <= height propSchema).
  { unfold propResolved. destruct (truthy propSchema); simpl; auto with arith. }
  destruct Hresolved as (Hrf & Hrw & Hrh).
  assert (Hres : forall k v, qget propResolved k = Some v ->
                   height v < height propSchema /\ ref_free v = true
                   /\ well_listed v = true).
  { intros k v Hv. destruct (qget_below _ _ _ Hv) as [? HfV].
    pose proof (well_listed_qget _ _ _ Hv Hrw). split; [lia|auto]. }
  apply bind_returns.
  { apply getTypeString_returns.
    destruct (truthy propResolved); [exact Hrw|exact Hwl']. }
  intros typeStr _.
  match goal with |- exists _, (if ?c then _ else _) = _ => destruct c eqn:Hc end.
  - apply andb_true_iff in Hc as [_ Hc]. rewrite orb_false_r in Hc. rewrite Hc.
    apply bind_returns; [|intros; eexists; reflexivity].
    apply IH; [exact Hrf|exact Hrw|lia].
  - match goal with |- exists _, (if ?c then _ else _) = _ => destruct c eqn:Hc2 end;
      [|eexists; reflexivity].
    apply bind_returns; [apply getTypeString_returns; exact Hrw|].
    intros arrTypeStr _.
    apply bind_returns; [|intros; eexists; reflexivity].
    set (propItems := or_else (qget propResolved "items") (qget propSchema "items")) in *.
    assert (Hitems : forall i, propItems = Some i ->
                       height i < height propSchema /\ ref_free i = true
                       /\ well_listed i = true).
    { intros i Hi. unfold propItems, or_else in Hi.
      destruct (otruthy (qget propResolved "items")).
      - eapply Hres. exact Hi.
      - destruct (qget_below _ _ _ Hi) as [? HfI].
        pose proof (well_listed_qget _ _ _ Hi Hwl'). auto. }
    destruct propItems as [i|] eqn:Ei.
    + destruct (Hitems i eq_refl) as (Hhi & Hfi & Hwi).
      assert (Hnr : otruthy (oget (Some i) "$ref") = false).
      { unfold oget. destruct i; try reflexivity; apply ref_free_no_ref; exact Hfi. }
      rewrite Hnr. apply IH; [exact Hfi|exact Hwi|simpl; lia].
    + simpl. apply IH; [reflexivity|reflexivity|simpl; lia].
Qed.

(** A schema that holds no [$ref] and no mapping with a key [toString],
    and in which every [enum] is a sequence and every [required] a sequence
    or a string, is rendered: the call returns a text once the depth it may
    use exceeds the height of the schema. *)
Theorem schemaToExpandableContent_returns spec :
  forall fuel schema schemaName indent,
    ref_free schema = true -> well_listed schema = true -> printable schema = true ->
    height schema < fuel ->
    exists out, schemaToExpandableContent fuel spec schema schemaName indent = Ok out.
Proof.
  intros fuel schema schemaName indent Hfree Hlisted _ Hfuel.
  apply returns_without_references; assumption.
Qed.

Lemma abc_schema_is_rendered :
  ref_free abc_schema = true
  /\ well_listed abc_schema = true
  /\ printable abc_schema = true
  /\ height abc_schema < 4
  /\ exists out, schemaToExpandableContent 4 VNull abc_schema "abc" EmptyString = Ok out.
Proof.
  split; [reflexivity|]. split; [reflexivity|]. split; [reflexivity|].
  split; [simpl; lia|].
  exact (schemaToExpandableContent_returns VNull 4 abc_schema "abc" EmptyString
           eq_refl eq_refl eq_refl ltac:(simpl; lia)).
Defined.

(* ------------------------------------------------------------------ *)
(** ** Nullable types *)
(* ------------------------------------------------------------------ *)

Lemma getTypeString_by_rawType spec schema schema' refName :
  rawType_of schema = rawType_of schema' ->
  truthy schema = truthy schema' ->
  (forall k, k <> "type" -> get schema k = get schema' k) ->
  getTypeString spec schema refName = getTypeString spec schema' refName.
Proof.
  intros Hraw Ht Hget. unfold getTypeString. rewrite Ht.
  rewrite (Hget "enum") by discriminate.
  unfold plain_type_string, array_type_string.
  rewrite Hraw, (Hget "items"), (Hget "format") by discriminate. reflexivity.
Qed.

(** A type that is the union of one type and ["null"], in either order, has
    the type string of that type alone. *)
Theorem nullable_type_has_the_type_string_of_its_type spec t props refName :
  t <> "null" ->
  getTypeString spec (VObj (("type", VArr [VStr t; VStr "null"]) :: props)) refName
  = getTypeString spec (VObj (("type", VStr t) :: props)) refName
  /\ getTypeString spec (VObj (("type", VArr [VStr "null"; VStr t]) :: props)) refName
     = getTypeString spec (VObj (("type", VStr t) :: props)) refName.
Proof.
  intros Ht. apply String.eqb_neq in Ht.
  split; apply getTypeString_by_rawType; try reflexivity.
  - unfold rawType_of. cbn [get assoc String.eqb Ascii.eqb Bool.eqb List.filter is_string negb].
    rewrite Ht. reflexivity.
  - intros k Hk. cbn [get assoc]. apply String.eqb_neq in Hk. rewrite Hk. reflexivity.
  - unfold rawType_of. cbn [get assoc String.eqb Ascii.eqb Bool.eqb List.filter is_string negb].
    rewrite Ht. reflexivity.
  - intros k Hk. cbn [get assoc]. apply String.eqb_neq in Hk. rewrite Hk. reflexivity.
Qed.

Lemma nullable_string_is_a_string :
  "string" <> "null"
  /\ getTypeString VNull
       (VObj [("type", VArr [VStr "string"; VStr "null"]); ("format", VStr "date")]) None
     = Ok (VStr "string (date)").
Proof.
  split; [discriminate|].
  exact (eq_trans
           (proj1 (nullable_type_has_the_type_string_of_its_type VNull "string"
                     [("format", VStr "date")] None ltac:(discriminate)))
           eq_refl).
Defined.

(* ------------------------------------------------------------------ *)
(** ** stripDeprecated writes to new objects only, on any heap *)
(* ------------------------------------------------------------------ *)

(** Whatever the heap holds, sharing and cycles included: when a call of
    [stripDeprecated] returns, every object that the heap held before the
    call is unchanged, and a location that the call returns is new. *)
Theorem stripDeprecated_writes_to_new_objects_only fuel value names h r h' :
  Heap.stripDeprecated fuel value names h = Ok (r, h') ->
  preserves h h' /\ length h <= length h' /\ fresh_in h h' r.
Proof.
  intros Hrun. exact (stripDeprecated_frame names fuel value h (r, h') Hrun).
Qed.

Lemma aliased_heap_is_preserved :
  Heap.stripDeprecated 3 (Heap.HRef 1) ∅ aliased_heap
  = Ok (Heap.HRef 2,
        aliased_heap
        ++ [ Heap.HObj [("a", Heap.HRef 3); ("b", Heap.HRef 4)];
             Heap.HObj [("type", Heap.HStr "string")];
             Heap.HObj [("type", Heap.HStr "string")] ])
  /\ preserves aliased_heap
       (aliased_heap
        ++ [ Heap.HObj [("a", Heap.HRef 3); ("b", Heap.HRef 4)];
             Heap.HObj [("type", Heap.HStr "string")];
             Heap.HObj [("type", Heap.HStr "string")] ]).
Proof.
  assert (Hrun : Heap.stripDeprecated 3 (Heap.HRef 1) ∅ aliased_heap
                 = Ok (Heap.HRef 2,
                       aliased_heap
                       ++ [ Heap.HObj [("a", Heap.HRef 3); ("b", Heap.HRef 4)];
                            Heap.HObj [("type", Heap.HStr "string")];
                            Heap.HObj [("type", Heap.HStr "string")] ]))
    by (vm_compute; reflexivity).
  split; [exact Hrun|].
  exact (proj1 (stripDeprecated_writes_to_new_objects_only 3 (Heap.HRef 1) ∅
                  aliased_heap _ _ Hrun)).
Defined.

(* ------------------------------------------------------------------ *)
(** ** normalizeDescription *)
(* ------------------------------------------------------------------ *)

Lemma whitespace_at_ascii c rest :
  ascii_space_test c = true -> whitespace_at (String c rest) = 1.
Proof. unfold ascii_space_test, whitespace_at. intros ->. reflexivity. Qed.

Lemma whitespace_at_zero c rest :
  whitespace_at (String c rest) = 0 -> ascii_space_test c = false.
Proof.
  intros H. destruct (ascii_space_test c) eqn:E; [|reflexivity].
  rewrite (whitespace_at_ascii _ _ E) in H. discriminate H.
Qed.

Ltac lead_byte_cases c :=
  destruct (Nat.eqb (nat_of_ascii c) 194), (Nat.eqb (nat_of_ascii c) 225),
           (Nat.eqb (nat_of_ascii c) 226), (Nat.eqb (nat_of_ascii c) 227),
           (Nat.eqb (nat_of_ascii c) 239).

Lemma whitespace_at_similar c text out :
  whitespace_at (String c text) = 0 -> similar text out ->
  whitespace_at (String c out) = 0.
Proof.
  intros H Hsim. pose proof (whitespace_at_zero _ _ H) as Hc.
  unfold ascii_space_test in Hc. unfold whitespace_at in *. cbv zeta in *.
  rewrite Hc in *.
  destruct out as [|d out']; [reflexivity|].
  destruct Hsim as [->|(text' & -> & Hsim)].
  - change (nat_of_ascii " "%char) with 32. cbn [Nat.eqb].
    destruct out'; lead_byte_cases c; reflexivity.
  - destruct (Nat.eqb (nat_of_ascii c) 194 && Nat.eqb (nat_of_ascii d) 160);
      [discriminate H|].
    destruct out' as [|e out'']; [reflexivity|].
    destruct Hsim as [->|(text'' & ->)]; [|exact H].
    change (nat_of_ascii " "%char) with 32. cbn [Nat.eqb Nat.leb].
    lead_byte_cases c; destruct (Nat.eqb (nat_of_ascii d) 154),
      (Nat.eqb (nat_of_ascii d) 128), (Nat.eqb (nat_of_ascii d) 129),
      (Nat.eqb (nat_of_ascii d) 187); reflexivity.
Qed.

Lemma collapse_cons r c rest :
  collapse_whitespace r 0 (String c rest) =
    match whitespace_at (String c rest) with
    | O => String c (collapse_whitespace false 0 rest)
    | S more =>
        if r then collapse_whitespace true more rest
        else String " "%char (collapse_whitespace true more rest)
    end.
Proof. reflexivity. Qed.

Lemma collapse_skip r k c rest :
  collapse_whitespace r (S k) (String c rest) = collapse_whitespace r k rest.
Proof. reflexivity. Qed.

Lemma collapse_length s : forall r k,
  String.length (collapse_whitespace r k s) <= String.length s.
Proof.
  induction s as [|c rest IH]; intros r k; [simpl; lia|].
  destruct k as [|k]; [|rewrite collapse_skip; specialize (IH r k); simpl; lia].
  rewrite collapse_cons. destruct (whitespace_at (String c rest)) as [|more].
  - specialize (IH false 0). simpl. lia.
  - specialize (IH true more). destruct r; simpl; lia.
Qed.

Lemma collapse_similar rest : similar rest (collapse_whitespace false 0 rest).
Proof.
  destruct rest as [|d rest']; [exact I|].
  rewrite collapse_cons. destruct (whitespace_at (String d rest')); [|left; reflexivity].
  right. exists rest'. split; [reflexivity|].
  destruct rest' as [|e rest'']; [exact I|].
  rewrite collapse_cons. destruct (whitespace_at (String e rest'')); [|left; reflexivity].
  right. eauto.
Qed.

(** What [replace(/\s+/g, ' ')] returns holds no run of white space longer
    than one space: a second replacement changes nothing. *)
Lemma collapse_again s : forall r k,
  collapse_whitespace r 0 (collapse_whitespace r k s) = collapse_whitespace r k s.
Proof.
  induction s as [|c rest IH]; intros r k; [destruct k; reflexivity|].
  destruct k as [|k]; [|rewrite collapse_skip; apply IH].
  rewrite collapse_cons. destruct (whitespace_at (String c rest)) as [|more] eqn:E.
  - rewrite collapse_cons.
    rewrite (whitespace_at_similar _ _ _ E (collapse_similar rest)).
    rewrite IH. reflexivity.
  - destruct r; [apply IH|].
    rewrite collapse_cons, (whitespace_at_ascii " "%char) by reflexivity.
    rewrite IH. reflexivity.
Qed.

Lemma collapse_fixed_after_space t :
  collapse_whitespace true 0 t = t ->
  collapse_whitespace false 0 t = t /\ trim_left t = t.
Proof.
  destruct t as [|d t']; [intros _; split; reflexivity|].
  rewrite !collapse_cons. destruct (whitespace_at (String d t')) as [|more] eqn:E.
  - intros H. split; [exact H|].
    pose proof (whitespace_at_zero _ _ E) as Hd. simpl.
    destruct (Ascii.eqb d " "%char) eqn:Hsp; [|reflexivity].
    apply Ascii.eqb_eq in Hsp. subst d. discriminate Hd.
  - intros H. exfalso. pose proof (collapse_length t' true more) as Hlen.
    rewrite H in Hlen. simpl in Hlen. lia.
Qed.

Lemma trim_left_collapsed t :
  collapse_whitespace false 0 t = t ->
  collapse_whitespace false 0 (trim_left t) = trim_left t
  /\ trim_left (trim_left t) = trim_left t.
Proof.
  intros H. destruct t as [|c t']; [split; reflexivity|].
  simpl trim_left. destruct (Ascii.eqb c " "%char) eqn:Hsp.
  - apply Ascii.eqb_eq in Hsp. subst c.
    rewrite collapse_cons, (whitespace_at_ascii " "%char) in H by reflexivity.
    injection H as H. destruct (collapse_fixed_after_space _ H) as [H1 H2].
    rewrite H2. split; [exact H1|exact H2].
  - split; [exact H|]. simpl. rewrite Hsp. reflexivity.
Qed.

Lemma trim_right_cons c rest :
  trim_right (String c rest) =
    match trim_right rest with
    | EmptyString => if Ascii.eqb c " "%char then EmptyString else String c EmptyString
    | kept => String c kept
    end.
Proof. reflexivity. Qed.

Lemma trim_right_first e rest d kept :
  trim_right (String e rest) = String d kept -> d = e.
Proof.
  rewrite trim_right_cons. destruct (trim_right rest).
  - destruct (Ascii.eqb e " "%char); [discriminate|]. intros [= <- _]. reflexivity.
  - intros [= <- _]. reflexivity.
Qed.

Lemma trim_right_similar rest : similar rest (trim_right rest).
Proof.
  destruct rest as [|d rest']; [exact I|].
  destruct (trim_right (String d rest')) as [|d' kept] eqn:E; [exact I|].
  pose proof (trim_right_first _ _ _ _ E) as ->.
  right. exists rest'. split; [reflexivity|].
  rewrite trim_right_cons in E.
  destruct (trim_right rest') as [|e' kept'] eqn:E'.
  - destruct (Ascii.eqb d " "%char); [discriminate E|]. injection E as <-. exact I.
  - injection E as <-. destruct rest' as [|e rest'']; [discriminate E'|].
    pose proof (trim_right_first _ _ _ _ E') as ->. right. eauto.
Qed.

Lemma trim_right_not_space c rest :
  ascii_space_test c = false ->
  trim_right (String c rest) = String c (trim_right rest).
Proof.
  intros Hc. rewrite trim_right_cons.
  destruct (trim_right rest); [|reflexivity].
  destruct (Ascii.eqb c " "%char) eqn:E; [|reflexivity].
  apply Ascii.eqb_eq in E. subst c. discriminate Hc.
Qed.

Lemma trim_right_collapsed u : forall r,
  collapse_whitespace r 0 u = u ->
  collapse_whitespace r 0 (trim_right u) = trim_right u.
Proof.
  induction u as [|c rest IH]; intros r H; [reflexivity|].
  rewrite collapse_cons in H.
  destruct (whitespace_at (String c rest)) as [|more] eqn:E.
  - injection H as H. pose proof (whitespace_at_zero _ _ E) as Hc.
    rewrite (trim_right_not_space _ _ Hc), collapse_cons.
    rewrite (whitespace_at_similar _ _ _ E (trim_right_similar rest)).
    rewrite (IH false H). reflexivity.
  - destruct r.
    + exfalso. pose proof (collapse_length rest true more) as Hlen.
      rewrite H in Hlen. simpl in Hlen. lia.
    + injection H as <- H.
      rewrite (whitespace_at_ascii " "%char) in E by reflexivity.
      injection E as <-. rewrite trim_right_cons.
      destruct (trim_right rest) as [|d kept] eqn:Et; [reflexivity|].
      cbn [Ascii.eqb]. rewrite collapse_cons, (whitespace_at_ascii " "%char) by reflexivity.
      rewrite (IH true H). reflexivity.
Qed.

Lemma trim_right_again u : trim_right (trim_right u) = trim_right u.
Proof.
  induction u as [|c rest IH]; [reflexivity|].
  rewrite trim_right_cons. destruct (trim_right rest) as [|d kept] eqn:E.
  - destruct (Ascii.eqb c " "%char) eqn:Hc; [reflexivity|].
    rewrite trim_right_cons. simpl. rewrite Hc. reflexivity.
  - rewrite trim_right_cons, IH. reflexivity.
Qed.

Lemma trim_left_after_trim_right u :
  trim_left u = u -> trim_left (trim_right u) = trim_right u.
Proof.
  destruct u as [|c rest]; [reflexivity|]. intros H.
  assert (Hc : Ascii.eqb c " "%char = false).
  { destruct (Ascii.eqb c " "%char) eqn:E; [|reflexivity]. exfalso.
    simpl in H. rewrite E in H.
    assert (Hlen : forall s, String.length (trim_left s) <= String.length s).
    { clear. induction s as [|a s IHs]; simpl; [lia|].
      destruct (Ascii.eqb a " "%char); simpl; lia. }
    specialize (Hlen rest). rewrite H in Hlen. simpl in Hlen. lia. }
  destruct (trim_right (String c rest)) as [|d kept] eqn:E; [reflexivity|].
  pose proof (trim_right_first _ _ _ _ E) as ->. simpl. rewrite Hc. reflexivity.
Qed.

Lemma normalize_text_again s : normalize_text (normalize_text s) = normalize_text s.
Proof.
  unfold normalize_text.
  pose proof (collapse_again s false 0) as Ht.
  destruct (trim_left_collapsed _ Ht) as [Hu Hl].
  set (u := trim_left (collapse_whitespace false 0 s)) in *.
  rewrite (trim_right_collapsed u false Hu).
  rewrite (trim_left_after_trim_right u Hl). apply trim_right_again.
Qed.

(** [normalizeDescription] is idempotent: the description line of a node
    that expands, which is normalized a second time, is the text that the
    first normalization gave. *)
Theorem normalizeDescription_is_idempotent desc :
  normalizeDescription (Some (VStr (normalizeDescription desc))) = normalizeDescription desc.
Proof.
  unfold normalizeDescription at 1. cbn [ToString].
  unfold normalizeDescription. destruct desc as [[| | | | |]|];
    try apply normalize_text_again; reflexivity.
Qed.

Lemma bytes_collapse s : forall r k c,
  In c (bytes (collapse_whitespace r k s)) -> is_control_space c = false.
Proof.
  induction s as [|a rest IH]; intros r k c; [destruct k; intros []|].
  destruct k as [|k]; [|rewrite collapse_skip; apply IH].
  rewrite collapse_cons. destruct (whitespace_at (String a rest)) as [|more] eqn:E.
  - intros [<-|Hin]; [|eapply IH; exact Hin].
    apply whitespace_at_zero in E. unfold ascii_space_test in E.
    apply orb_false_iff in E as [E _]. exact E.
  - destruct r; [apply IH|]. intros [<-|Hin]; [reflexivity|eapply IH; exact Hin].
Qed.

Lemma bytes_trim_left s c : In c (bytes (trim_left s)) -> In c (bytes s).
Proof.
  induction s as [|a rest IH]; [intros []|]. simpl.
  destruct (Ascii.eqb a " "%char); [right; auto|exact (fun H => H)].
Qed.

Lemma bytes_trim_right s c : In c (bytes (trim_right s)) -> In c (bytes s).
Proof.
  induction s as [|a rest IH]; [intros []|]. rewrite trim_right_cons.
  destruct (trim_right rest) as [|d kept].
  - destruct (Ascii.eqb a " "%char); [intros []|]. intros [<-|[]]. left. reflexivity.
  - intros [<-|Hin]; [left; reflexivity|right; auto].
Qed.

(** The text that [normalizeDescription] returns is one line: it holds no
    line feed, carriage return, tabulator, vertical tabulator or form feed. *)
Theorem normalizeDescription_is_one_line desc c :
  In c (bytes (normalizeDescription desc)) -> is_control_space c = false.
Proof.
  assert (Htext : forall s, In c (bytes (normalize_text s)) -> is_control_space c = false).
  { intros s H. unfold normalize_text in H.
    apply bytes_trim_right, bytes_trim_left in H. exact (bytes_collapse _ _ _ _ H). }
  unfold normalizeDescription. destruct desc as [[| | | | |]|]; try apply Htext; intros [].
Qed.

Lemma description_over_two_lines_is_one_line :
  normalizeDescription (Some (VStr ("Start of" +:+ NEWLINE +:+ "  the shift. ")))
  = "Start of the shift."
  /\ In "."%char (bytes (normalizeDescription
                        (Some (VStr ("Start of" +:+ NEWLINE +:+ "  the shift. ")))))
  /\ is_control_space "."%char = false.
Proof.
  assert (Hin : In "."%char (bytes (normalizeDescription
                  (Some (VStr ("Start of" +:+ NEWLINE +:+ "  the shift. "))))))
    by (vm_compute; tauto).
  split; [reflexivity|]. split; [exact Hin|].
  exact (normalizeDescription_is_one_line _ _ Hin).
Defined.


(* ------------------------------------------------------------------ *)
(** ** After the Filter no schema is deprecated *)
(* ------------------------------------------------------------------ *)

Lemma stripped_property names props k w :
  assoc k (kept_props names props) = Some w ->
  exists v, In (k, v) props /\ w = delete_deprecated (stripDeprecated v names).
Proof. intros H. apply In_kept_props. apply assoc_In. exact H. Qed.

Lemma deleted_mapping names v props' :
  delete_deprecated (stripDeprecated v names) = VObj props' ->
  exists props, v = VObj props /\ props' = remove_key "deprecated" (kept_props names props).
Proof.
  destruct v as [| | | |elems|props]; try discriminate.
  rewrite stripDeprecated_mapping. simpl. intros [= <-]. eauto.
Qed.

(** In the output of the Filter no schema of the mapping [components.schemas]
    is deprecated: a second run finds no deprecated schema name. *)
Theorem filter_output_has_no_deprecated_schema doc out schemas :
  main doc = Ok out ->
  lookup_path out ["components"; "schemas"] = Some (VObj schemas) ->
  buildDeprecatedSchemaNames out = ∅.
Proof.
  unfold main. intros Hrun Hschemas.
  set (names := buildDeprecatedSchemaNames doc) in *.
  apply elem_of_equiv_empty_L. intros n Hn.
  apply buildDeprecatedSchemaNames_spec in Hn as (schemas0 & schema0 & Hs & _ & Hin & Hdep).
  rewrite lookup_path2 in Hschemas. rewrite Hschemas in Hs. injection Hs as <-.
  cbn [entries] in Hin.
  rewrite (ensureWideMode_other_key _ _ "components" Hrun) in Hschemas by discriminate.
  destruct doc as [| | | |elems|props]; try discriminate Hschemas.
  rewrite stripDeprecated_mapping in Hschemas. cbn [oget get] in Hschemas.
  destruct (assoc "components" (kept_props names props)) as [c'|] eqn:Hc;
    [|discriminate Hschemas].
  apply stripped_property in Hc as (c & _ & ->).
  destruct (delete_deprecated (stripDeprecated c names)) as [| | | |celems|cprops'] eqn:Ec;
    try discriminate Hschemas.
  apply deleted_mapping in Ec as (cprops & -> & ->). cbn [oget get] in Hschemas.
  rewrite assoc_remove_key_ne in Hschemas by discriminate.
  apply stripped_property in Hschemas as (sv & _ & Hsv). symmetry in Hsv.
  apply deleted_mapping in Hsv as (svp & -> & ->).
  apply In_remove_key, In_kept_props in Hin as (v & _ & ->).
  unfold is_deprecated_schema in Hdep.
  rewrite deleted_is_not_deprecated, andb_false_r in Hdep. discriminate Hdep.
Qed.

Lemma catalog_output_has_no_deprecated_schema :
  main catalog_doc = Ok catalog_out
  /\ buildDeprecatedSchemaNames catalog_out = ∅.
Proof.
  assert (Hrun : main catalog_doc = Ok catalog_out) by (vm_compute; reflexivity).
  split; [exact Hrun|].
  exact (filter_output_has_no_deprecated_schema catalog_doc catalog_out _ Hrun eq_refl).
Defined.

(* ------------------------------------------------------------------ *)
(** ** The description line of a property *)
(* ------------------------------------------------------------------ *)

Lemma bytes_append a b : bytes (a +:+ b) = bytes a ++ bytes b.
Proof.
  induction a as [|c a IH]; [reflexivity|].
  change (String c a +:+ b) with (String c (a +:+ b)). simpl. rewrite IH. reflexivity.
Qed.

Lemma bytes_join sep parts c :
  In c (bytes (join sep parts)) ->
  In c (bytes sep) \/ exists p, In p parts /\ In c (bytes p).
Proof.
  unfold join. induction parts as [|p parts IH]; [intros []|].
  destruct parts as [|q parts].
  - simpl. intros H. right. exists p. auto.
  - change (String.concat sep (p :: q :: parts))
      with (p +:+ sep +:+ String.concat sep (q :: parts)).
    rewrite !bytes_append, !in_app_iff. intros [H|[H|H]].
    + right. exists p. split; [left; reflexivity|exact H].
    + left. exact H.
    + destruct (IH H) as [Hs|(x & Hx & Hc)]; [left; exact Hs|].
      right. exists x. split; [right; exact Hx|exact Hc].
Qed.

Lemma plain_append a b : plain a -> plain b -> plain (a +:+ b).
Proof.
  intros Ha Hb c. rewrite bytes_append, in_app_iff. intros [H|H]; auto.
Qed.

Lemma plain_join sep parts :
  plain sep -> (forall p, In p parts -> plain p) -> plain (join sep parts).
Proof.
  intros Hs Hp c H. destruct (bytes_join _ _ _ H) as [H1|(p & Hin & H1)]; eauto.
  exact (Hp p Hin c H1).
Qed.

Lemma plain_literal s :
  forallb (fun c => negb (is_control_space c)) (bytes s) = true -> plain s.
Proof.
  intros H c Hin. rewrite forallb_forall in H. apply negb_true_iff. auto.
Qed.

Lemma plain_uint d : plain (NilEmpty.string_of_uint d).
Proof.
  induction d as [|d IH|d IH|d IH|d IH|d IH|d IH|d IH|d IH|d IH|d IH];
    intros c; simpl; [intros []|..];
    (intros [<-|Hin]; [reflexivity|exact (IH c Hin)]).
Qed.

Lemma plain_number n : plain (number_text n).
Proof.
  unfold number_text, NilZero.string_of_int.
  destruct (Z.to_int n) as [d|d]; unfold NilZero.string_of_uint.
  - destruct d; try apply plain_uint. apply plain_literal. reflexivity.
  - intros c [<-|H]; [reflexivity|].
    revert c H. destruct d; try apply plain_uint. apply plain_literal. reflexivity.
Qed.

Lemma plain_hex_digit n : plain (hex_digit n).
Proof.
  unfold hex_digit. do 17 (destruct n as [|n]; [apply plain_literal; reflexivity|]).
  apply plain_literal. reflexivity.
Qed.

Lemma plain_json_escape c : plain (json_escape c).
Proof.
  unfold json_escape. cbv zeta.
  repeat match goal with
         | |- plain (if ?b then _ else _) => destruct b eqn:?
         end;
    try (apply plain_literal; reflexivity).
  - repeat apply plain_append; try apply plain_hex_digit; apply plain_literal; reflexivity.
  - intros x [<-|[]]. unfold is_control_space.
    apply andb_false_iff.
    match goal with H : Nat.ltb _ 32 = false |- _ => apply Nat.ltb_ge in H end.
    right. apply Nat.leb_gt. lia.
Qed.

Lemma plain_json_quote s : plain (json_quote s).
Proof.
  unfold json_quote. repeat apply plain_append; try (apply plain_literal; reflexivity).
  induction s as [|c s IH]; [intros ? []|].
  simpl. apply plain_append; [apply plain_json_escape|exact IH].
Qed.

Lemma plain_JSON_stringify v : plain (JSON_stringify v).
Proof.
  induction v as [|[|]|n|s|elems IH|props IH] using tree_ind;
    try (apply plain_literal; reflexivity).
  - apply plain_number.
  - apply plain_json_quote.
  - simpl. repeat apply plain_append; try (apply plain_literal; reflexivity).
    apply plain_join; [apply plain_literal; reflexivity|].
    intros p Hin. apply in_map_iff in Hin as (e & <- & Hin).
    rewrite List.Forall_forall in IH. auto.
  - simpl. repeat apply plain_append; try (apply plain_literal; reflexivity).
    apply plain_join; [apply plain_literal; reflexivity|].
    intros p Hin. apply in_map_iff in Hin as ([k v] & <- & Hin).
    rewrite List.Forall_forall in IH. cbn [fst snd].
    apply plain_append; [apply plain_json_quote|].
    apply plain_append; [apply plain_literal; reflexivity|]. exact (IH _ Hin).
Qed.

Lemma plain_normalizeDescription desc : plain (normalizeDescription desc).
Proof.
  assert (Htext : forall s, plain (normalize_text s)).
  { intros s c H. unfold normalize_text in H.
    apply bytes_trim_right, bytes_trim_left in H. exact (bytes_collapse _ _ _ _ H). }
  unfold normalizeDescription. destruct desc as [[| | | | |]|]; try apply Htext; intros ? [].
Qed.

(** The description that a node shows for a property, the default value
    included, is one line: [JSON.stringify] escapes the line breaks of a
    default that is a string. *)
Theorem property_description_is_one_line propResolved propSchema c :
  In c (bytes (property_description propResolved propSchema)) ->
  is_control_space c = false.
Proof.
  revert c. change (plain (property_description propResolved propSchema)).
  unfold property_description. cbv zeta.
  assert (Hd : forall d, plain (stringify_text d)).
  { intros [v|]; [apply plain_JSON_stringify|apply plain_literal; reflexivity]. }
  repeat match goal with
         | |- plain (if ?b then _ else _) => destruct b
         end;
    repeat apply plain_append; try apply Hd; try apply plain_normalizeDescription;
    apply plain_literal; reflexivity.
Qed.

Lemma default_with_a_line_break_stays_on_one_line :
  property_description
    (VObj [("description", VStr "Greeting."); ("default", VStr ("a" +:+ NEWLINE +:+ "b"))])
    VNull
  = "Greeting. Default: " +:+ QUOTE +:+ "a\nb" +:+ QUOTE +:+ "."
  /\ is_control_space "G"%char = false.
Proof.
  split; [reflexivity|].
  apply (property_description_is_one_line
           (VObj [("description", VStr "Greeting.");
                  ("default", VStr ("a" +:+ NEWLINE +:+ "b"))]) VNull "G"%char).
  vm_compute. tauto.
Defined.

(* ================================================================== *)
(** * The places of dropped properties (C1) *)
(* ================================================================== *)

Lemma points_to_refers_to name v :
  name <> EmptyString -> dot_star name = name ->
  points_to name v -> refers_to name v.
Proof.
  intros Hne Hdot (Hm & H). split; [exact Hm|].
  destruct H as [H|(Ht & items & Hi & H)].
  - left. rewrite H. apply getSchemaNameFromRef_spec. auto.
  - right. split; [exact Ht|]. exists items. split; [exact Hi|].
    rewrite H. apply getSchemaNameFromRef_spec. auto.
Qed.

Lemma distinct_In_assoc (props : list (string * tree)) k v :
  distinct (map fst props) = true -> In (k, v) props -> assoc k props = Some v.
Proof.
  induction props as [|[k0 v0] rest IH]; simpl; intros Hd Hin; [destruct Hin|].
  apply andb_true_iff in Hd as [Hfresh Hd]. apply negb_true_iff in Hfresh.
  destruct Hin as [[= -> ->]|Hin].
  - rewrite String.eqb_refl. reflexivity.
  - destruct (k =? k0) eqn:E; [|auto].
    apply String.eqb_eq in E. subst k0. exfalso.
    assert (Hex : existsb (String.eqb k) (map fst rest) = true).
    { apply existsb_exists. exists k. split; [|apply String.eqb_refl].
      apply in_map_iff. exists (k, v). auto. }
    congruence.
Qed.

Lemma lookup_delete_None x q :
  q <> [] -> lookup_path x q = None -> lookup_path (delete_deprecated x) q = None.
Proof.
  destruct x as [| | | |elems|props]; try (intros _ H; exact H).
  destruct q as [|k rest]; [congruence|]. intros _. cbn [lookup_path oget get delete_deprecated].
  destruct (String.eqb_spec k "deprecated") as [->|Hne].
  - rewrite assoc_remove_key_eq. reflexivity.
  - rewrite (assoc_remove_key_ne _ _ _ Hne). auto.
Qed.

(** A pair that the loop of [stripDeprecated] drops is at no place of the
    result. *)
Lemma dropped_pair_is_gone names k v props :
  forall path t,
    wf t ->
    lookup_path t path = Some (VObj props) ->
    In (k, v) props ->
    marked_deprecated v || isRefToDeprecatedSchema v names = true ->
    lookup_path (stripDeprecated t names) (path ++ [k]) = None.
Proof.
  induction path as [|k0 rest IH]; intros t Hwf Hpath Hin Hdrop.
  - simpl in Hpath. injection Hpath as ->.
    rewrite stripDeprecated_mapping. cbn [app lookup_path oget get].
    rewrite (assoc_kept_props _ _ _ (wf_mapping _ Hwf)).
    rewrite (distinct_In_assoc _ _ _ (wf_mapping _ Hwf) Hin), Hdrop. reflexivity.
  - destruct t as [| | | |elems|tprops]; try discriminate Hpath.
    + cbn [app lookup_path oget stripDeprecated get] in *.
      destruct (index_of_key k0) as [i|]; [|reflexivity].
      rewrite nth_error_map.
      destruct (nth_error elems i) as [e|] eqn:He; [|reflexivity].
      simpl. apply IH; try assumption.
      eapply wf_element; [exact Hwf|]. eapply nth_error_In. exact He.
    + rewrite stripDeprecated_mapping.
      cbn [app lookup_path oget get] in *.
      rewrite (assoc_kept_props _ _ _ (wf_mapping _ Hwf)).
      destruct (assoc k0 tprops) as [t'|] eqn:Ht; [|reflexivity].
      destruct (marked_deprecated t' || isRefToDeprecatedSchema t' names); [reflexivity|].
      apply lookup_delete_None; [destruct rest; discriminate|].
      apply IH; try assumption.
      eapply wf_property; [exact Hwf|]. eapply assoc_In. exact Ht.
Qed.

(** ** What ensureWideMode adds *)

Lemma fresh_mode q : nothing_or_stamp (lookup_path (VStr "wide") q).
Proof. destruct q; [right; left|left]; reflexivity. Qed.

Lemma fresh_metadata q : nothing_or_stamp (lookup_path (VObj [("mode", VStr "wide")]) q).
Proof.
  destruct q as [|k r]; [right; right; left; reflexivity|].
  cbn [lookup_path oget get assoc]. destruct (k =? "mode"); [apply fresh_mode|left; reflexivity].
Qed.

Lemma fresh_x_mint q :
  nothing_or_stamp (lookup_path (VObj [("metadata", VObj [("mode", VStr "wide")])]) q).
Proof.
  destruct q as [|k r]; [right; right; right; reflexivity|].
  cbn [lookup_path oget get assoc].
  destruct (k =? "metadata"); [apply fresh_metadata|left; reflexivity].
Qed.

Lemma adds_nothing x : adds_stamps_only x x.
Proof. intros q H. left. exact H. Qed.

(** [props[k] = v'] adds stamps only when [v'] does so to what [k] held. *)
Lemma adds_stamps_set_key k v' props :
  (forall r, match assoc k props with
             | Some v => lookup_path v r
             | None => None
             end = None ->
             nothing_or_stamp (lookup_path v' r)) ->
  adds_stamps_only (VObj props) (VObj (set_key k v' props)).
Proof.
  intros Hk [|k0 r] H; [discriminate H|].
  cbn [lookup_path oget get] in *.
  destruct (String.eqb_spec k k0) as [<-|Hne].
  - rewrite assoc_set_key_eq. apply Hk. exact H.
  - rewrite (assoc_set_key_ne _ _ _ _ Hne). left. exact H.
Qed.

Lemma adds_stamps_set_mode md : adds_stamps_only md (set_mode md).
Proof.
  destruct md as [| | | |elems|props]; try apply adds_nothing.
  apply adds_stamps_set_key. intros r _. apply fresh_mode.
Qed.

Lemma adds_stamps_ensure_metadata xm xm' :
  ensure_metadata xm = Ok xm' -> adds_stamps_only xm xm'.
Proof.
  destruct xm as [| | | |elems|props]; try discriminate.
  - intros [= <-]. apply adds_nothing.
  - intros [= <-]. apply adds_stamps_set_key. intros r H.
    destruct (assoc "metadata" props) as [md|]; [|apply fresh_metadata].
    destruct (truthy md); [|apply fresh_metadata].
    apply adds_stamps_set_mode. exact H.
Qed.

Lemma adds_stamps_wide_operation op op' :
  wide_operation op = Ok op' -> adds_stamps_only op op'.
Proof.
  destruct op as [| | | |elems|props]; try (intros [= <-]; apply adds_nothing).
  unfold wide_operation. intros H. apply bind_Ok in H as (xm' & Hxm & [= <-]).
  apply adds_stamps_set_key. intros r H.
  destruct (assoc "x-mint" props) as [xm|].
  - destruct (truthy xm).
    + eapply adds_stamps_ensure_metadata; eauto.
    + injection Hxm as <-. apply fresh_x_mint.
  - injection Hxm as <-. apply fresh_x_mint.
Qed.

Lemma adds_stamps_wide_entry kv kv' :
  wide_entry kv = Ok kv' -> fst kv' = fst kv /\ adds_stamps_only (snd kv) (snd kv').
Proof.
  intros H. split; [eapply wide_entry_key; exact H|].
  destruct kv as [k v]. unfold wide_entry in H.
  destruct (negb (existsb (String.eqb k) OPERATION_METHODS));
    [injection H as <-; apply adds_nothing|].
  destruct (negb (truthy v) || negb (is_object v));
    [injection H as <-; apply adds_nothing|].
  apply bind_Ok in H as (op' & Hop & [= <-]). cbn [snd].
  eapply adds_stamps_wide_operation. exact Hop.
Qed.

Lemma adds_stamps_props (f : string * tree -> outcome (string * tree)) props props' :
  (forall kv kv', f kv = Ok kv' ->
     fst kv' = fst kv /\ adds_stamps_only (snd kv) (snd kv')) ->
  map_outcome f props = Ok props' ->
  adds_stamps_only (VObj props) (VObj props').
Proof.
  intros Hf Hmap [|k r] H; [discriminate H|].
  assert (Hkey : forall kv kv', f kv = Ok kv' -> fst kv' = fst kv)
    by (intros kv kv' E; exact (proj1 (Hf _ _ E))).
  cbn [lookup_path oget get] in *.
  destruct (assoc k props) as [v|] eqn:Hv.
  - destruct (map_outcome_assoc f Hkey _ _ _ _ Hmap Hv) as (v' & Hfv & ->).
    exact (proj2 (Hf _ _ Hfv) r H).
  - rewrite (map_outcome_assoc_None f Hkey _ _ _ Hmap Hv). left. reflexivity.
Qed.

Lemma adds_stamps_elems (f : tree -> outcome tree) elems elems' :
  (forall x x', f x = Ok x' -> adds_stamps_only x x') ->
  map_outcome f elems = Ok elems' ->
  adds_stamps_only (VArr elems) (VArr elems').
Proof.
  intros Hf Hmap [|k r] H; [discriminate H|].
  cbn [lookup_path oget get] in *.
  destruct (index_of_key k) as [i|]; [|left; reflexivity].
  destruct (nth_error elems i) as [x|] eqn:Hx.
  - destruct (map_outcome_nth f _ _ _ _ Hmap Hx) as (x' & Hfx & ->).
    exact (Hf _ _ Hfx r H).
  - apply nth_error_None in Hx.
    rewrite <- (map_outcome_length f _ _ Hmap) in Hx.
    apply nth_error_None in Hx. rewrite Hx. left. reflexivity.
Qed.

Lemma adds_stamps_wide_path_item item item' :
  wide_path_item item = Ok item' -> adds_stamps_only item item'.
Proof.
  unfold wide_path_item. intros H.
  destruct (negb (truthy item) || negb (is_object item));
    [injection H as <-; apply adds_nothing|].
  destruct item as [| | | |elems|props]; try (injection H as <-; apply adds_nothing).
  apply bind_Ok in H as (props' & Hmap & [= <-]).
  eapply adds_stamps_props; [|exact Hmap]. apply adds_stamps_wide_entry.
Qed.

(** [ensureWideMode] adds stamps and nothing else. *)
Lemma ensureWideMode_adds_stamps_only spec spec' :
  ensureWideMode spec = Ok spec' -> adds_stamps_only spec spec'.
Proof.
  rewrite ensureWideMode_unfold. intros H.
  destruct spec as [| | | |elems|props]; try discriminate;
    try (injection H as <-; apply adds_nothing).
  destruct (get (VObj props) "paths") as [paths|] eqn:Hp;
    [|injection H as <-; apply adds_nothing].
  destruct (negb (truthy paths) || negb (is_object paths));
    [injection H as <-; apply adds_nothing|].
  apply bind_Ok in H as (paths' & Hw & [= <-]).
  apply adds_stamps_set_key. simpl in Hp. rewrite Hp.
  destruct paths as [| | | |items|items]; try (injection Hw as <-; intros r Hr; left; exact Hr).
  - apply bind_Ok in Hw as (items' & Hmap & [= <-]).
    eapply adds_stamps_elems; [|exact Hmap]. apply adds_stamps_wide_path_item.
  - apply bind_Ok in Hw as (items' & Hmap & [= <-]).
    eapply adds_stamps_props; [|exact Hmap].
    intros kv kv' Hkv. unfold wide_path_property in Hkv.
    apply bind_Ok in Hkv as (item' & Hitem & [= <-]). split; [reflexivity|].
    eapply adds_stamps_wide_path_item. exact Hitem.
Qed.

(** ** Referrers are dropped *)

(** C1 as the code has it: for a schema under [components.schemas] with
    [deprecated: true] and a name that is not empty and holds no line
    terminator, a property whose value is a mapping with a [$ref] that is
    the pointer to that schema, or with type [array] and items that carry
    such a [$ref], is dropped: at the place of the property the output of
    the Filter holds nothing, or what [ensureWideMode] creates there, and no
    property of the output has such a value. *)
Theorem referrers_of_deprecated_schemas_are_dropped doc out name schema :
  wf doc ->
  main doc = Ok out ->
  lookup_path doc ["components"; "schemas"; name] = Some schema ->
  get schema "deprecated" = Some (VBool true) ->
  name <> EmptyString ->
  dot_star name = name ->
  (forall path props k v,
     lookup_path doc path = Some (VObj props) ->
     In (k, v) props ->
     points_to name v ->
     nothing_or_stamp (lookup_path out (path ++ [k])))
  /\ (forall k v, pair_in k v out -> ~ points_to name v).
Proof.
  unfold main. intros Hwf Hrun Hpath Hdep Hne Hdot.
  set (names := buildDeprecatedSchemaNames doc) in *.
  assert (Hin : name ∈ names) by (eapply deprecated_schema_is_collected; eauto).
  split.
  - intros path props k v Hprops Hpair Hpoints.
    apply (ensureWideMode_adds_stamps_only _ _ Hrun).
    apply (dropped_pair_is_gone names k v props); try assumption.
    rewrite (refers_to_flagged _ _ _ Hin (points_to_refers_to _ _ Hne Hdot Hpoints)).
    apply orb_true_r.
  - intros k v Hpair Hpoints.
    assert (Hstable : stable names out = true).
    { eapply ensureWideMode_stable; [exact Hrun|]. apply stripDeprecated_stable. exact Hwf. }
    pose proof (stable_pair_kept _ _ _ _ Hpair Hstable) as Hkept.
    apply kept_elim in Hkept as (_ & Hr & _).
    rewrite (refers_to_flagged _ _ _ Hin (points_to_refers_to _ _ Hne Hdot Hpoints)) in Hr.
    discriminate.
Qed.

Lemma referrers_dropped_from_catalog :
  wf catalog_doc
  /\ main catalog_doc = Ok catalog_out
  /\ lookup_path catalog_doc ["components"; "schemas"; "Old"]
     = Some (VObj [("deprecated", VBool true)])
  /\ dot_star "Old" = "Old"
  /\ points_to "Old" (VObj [("$ref", VStr "#/components/schemas/Old")])
  /\ points_to "Old" (VObj [("type", VStr "array");
                            ("items", VObj [("$ref", VStr "#/components/schemas/Old")])])
  /\ lookup_path catalog_out ["components"; "schemas"; "New"; "properties"; "a"] = None
  /\ lookup_path catalog_out ["components"; "schemas"; "New"; "properties"; "b"] = None
  /\ nothing_or_stamp
       (lookup_path catalog_out (["components"; "schemas"; "New"; "properties"] ++ ["a"]))
  /\ nothing_or_stamp
       (lookup_path catalog_out (["components"; "schemas"; "New"; "properties"] ++ ["b"])).
Proof.
  assert (Hrun : main catalog_doc = Ok catalog_out) by (vm_compute; reflexivity).
  assert (Ha : points_to "Old" (VObj [("$ref", VStr "#/components/schemas/Old")]))
    by (split; [reflexivity|left; reflexivity]).
  assert (Hb : points_to "Old"
                 (VObj [("type", VStr "array");
                        ("items", VObj [("$ref", VStr "#/components/schemas/Old")])])).
  { split; [reflexivity|]. right. split; [reflexivity|].
    exists (VObj [("$ref", VStr "#/components/schemas/Old")]). split; reflexivity. }
  destruct (referrers_of_deprecated_schemas_are_dropped catalog_doc catalog_out "Old"
              (VObj [("deprecated", VBool true)])
              eq_refl Hrun eq_refl eq_refl ltac:(discriminate) eq_refl)
    as [Hplaces _].
  split; [reflexivity|]. split; [exact Hrun|]. split; [reflexivity|].
  split; [reflexivity|]. split; [exact Ha|]. split; [exact Hb|].
  split; [reflexivity|]. split; [reflexivity|]. split.
  - eapply Hplaces; [reflexivity| |exact Ha]. left. reflexivity.
  - eapply Hplaces; [reflexivity| |exact Hb]. right. left. reflexivity.
Defined.

(** C1 as stated fails for a schema whose name holds a line terminator: the
    pattern that reads the name from the reference does not match, and the
    property that refers to the deprecated schema stays. *)
Lemma referrer_of_a_two_line_name_is_kept :
  wf two_line_doc
  /\ lookup_path two_line_doc ["components"; "schemas"; two_line_name]
     = Some (VObj [("deprecated", VBool true)])
  /\ SchemaToMintlify.resolveRef two_line_doc
       (Some (VStr (SCHEMAS_POINTER +:+ two_line_name)))
     = VObj [("deprecated", VBool true)]
  /\ points_to two_line_name (VObj [("$ref", VStr (SCHEMAS_POINTER +:+ two_line_name))])
  /\ lookup_path two_line_doc ["components"; "schemas"; "New"; "properties"; "a"]
     = Some (VObj [("$ref", VStr (SCHEMAS_POINTER +:+ two_line_name))])
  /\ main two_line_doc = Ok two_line_out
  /\ lookup_path two_line_out ["components"; "schemas"; "New"; "properties"; "a"]
     = Some (VObj [("$ref", VStr (SCHEMAS_POINTER +:+ two_line_name))]).
Proof.
  split; [reflexivity|]. split; [vm_compute; reflexivity|].
  split; [vm_compute; reflexivity|].
  split; [split; [reflexivity|left; reflexivity]|].
  split; [vm_compute; reflexivity|]. split; vm_compute; reflexivity.
Qed.

(* ================================================================== *)
(** * Render Nodes in the order of the object (C6) *)
(* ================================================================== *)

(** ** Schemas with references that the Renderer renders *)











(** ** The order of the properties *)












(** ** One node per property *)



